(** * TrendRadar topic layer: classification, archive store, history digest

    A shallow embedding of the topic subsystem of the repository
    ([trendradar/topic/classifier.py], [trendradar/topic/storage.py],
    [trendradar/topic/summarizer.py]) and of the legacy router
    ([topic-layer/router.py]), followed by the properties established
    about them.

    Python [str] values are sequences of Unicode code points; they are
    modelled as lists of code points ([N]).  String literals of the
    source are written as UTF-8 literals and decoded once. *)

From Stdlib Require Import String Ascii DecimalString.
From Stdlib Require Import ZArith NArith Bool Lia List.
From Stdlib Require DecimalZ.
Import ListNotations.

Set Implicit Arguments.
Set Warnings "-register-all".

(* ===================================================================== *)
(** * Python strings                                                      *)
(* ===================================================================== *)

Module PyStr.

Definition char := N.
Definition str := list char.

(** ** Literals: UTF-8 decoding of the bytes of a source literal *)

Fixpoint utf8_decode (bs : list N) : str :=
  match bs with
  | [] => []
  | b0 :: r0 =>
    if (b0 <? 128)%N then b0 :: utf8_decode r0
    else
      match r0 with
      | [] => []
      | b1 :: r1 =>
        if (b0 <? 224)%N then
          ((b0 - 192) * 64 + (b1 - 128))%N :: utf8_decode r1
        else
          match r1 with
          | [] => []
          | b2 :: r2 =>
            if (b0 <? 240)%N then
              ((b0 - 224) * 4096 + (b1 - 128) * 64 + (b2 - 128))%N
                :: utf8_decode r2
            else
              match r2 with
              | [] => []
              | b3 :: r3 =>
                ((b0 - 240) * 262144 + (b1 - 128) * 4096
                 + (b2 - 128) * 64 + (b3 - 128))%N :: utf8_decode r3
              end
          end
      end
  end.

Definition u (s : string) : str :=
  utf8_decode (map N_of_ascii (list_ascii_of_string s)).

Definition NL : char := 10%N.

(** ** Equality, prefixes, containment *)

Fixpoint str_eqb (a b : str) : bool :=
  match a, b with
  | [], [] => true
  | x :: a', y :: b' => (x =? y)%N && str_eqb a' b'
  | _, _ => false
  end.

(** [s.startswith(p)] *)
Fixpoint startswith (p s : str) : bool :=
  match p with
  | [] => true
  | x :: p' =>
    match s with
    | [] => false
    | y :: s' => (x =? y)%N && startswith p' s'
    end
  end.

(** [sub in s] *)
Fixpoint contains (sub s : str) : bool :=
  startswith sub s ||
  match s with
  | [] => false
  | _ :: s' => contains sub s'
  end.

(** ** [s.split(sep)] and [s.replace(old, new)]

    Both scan left to right for non-overlapping occurrences.  The
    scanners carry the number of characters of a match still to be
    skipped, which keeps the recursion structural.  Every call site in
    the source passes a non-empty literal separator. *)

Fixpoint split_scan (sep s : str) (skip : nat) : list str :=
  match s with
  | [] => [[]]
  | c :: s' =>
    match skip with
    | S k => split_scan sep s' k
    | O =>
      if startswith sep s then [] :: split_scan sep s' (length sep - 1)
      else
        match split_scan sep s' 0 with
        | h :: t => (c :: h) :: t
        | [] => [[c]]
        end
    end
  end.

Definition split (sep s : str) : list str := split_scan sep s 0.

Fixpoint replace_scan (old new s : str) (skip : nat) : str :=
  match s with
  | [] => []
  | c :: s' =>
    match skip with
    | S k => replace_scan old new s' k
    | O =>
      if startswith old s then new ++ replace_scan old new s' (length old - 1)
      else c :: replace_scan old new s' 0
    end
  end.

Definition replace (old new s : str) : str :=
  match old with
  | [] => new ++ flat_map (fun c => c :: new) s
  | _ => replace_scan old new s 0
  end.

(** [sep.join(parts)] *)
Fixpoint join (sep : str) (parts : list str) : str :=
  match parts with
  | [] => []
  | [p] => p
  | p :: rest => p ++ sep ++ join sep rest
  end.

(** ** Whitespace and [s.strip()]

    [str.isspace] per character: the complete list of code points for
    which CPython's [Py_UNICODE_ISSPACE] holds. *)

Definition isspace (c : char) : bool :=
  ((9 <=? c) && (c <=? 13) || (28 <=? c) && (c <=? 32)
   || (c =? 133) || (c =? 160) || (c =? 5760)
   || (8192 <=? c) && (c <=? 8202)
   || (c =? 8232) || (c =? 8233) || (c =? 8239) || (c =? 8287)
   || (c =? 12288))%N.

Fixpoint lstrip (s : str) : str :=
  match s with
  | [] => []
  | c :: s' => if isspace c then lstrip s' else s
  end.

Definition rstrip (s : str) : str := rev (lstrip (rev s)).

Definition strip (s : str) : str := rstrip (lstrip s).

(** ** Integers: [str(n)] / f-string formatting, and [int(s)] *)

Definition str_of_Z (z : Z) : str :=
  u (NilEmpty.string_of_int (Z.to_int z)).

(** Decimal digit value.  ASCII digits, and of the other [Nd] blocks
    of the Unicode database the Arabic-Indic and fullwidth ones. *)
Definition decimal_value (c : char) : option Z :=
  if ((48 <=? c) && (c <=? 57))%N then Some (Z.of_N (c - 48))
  else if ((1632 <=? c) && (c <=? 1641))%N then Some (Z.of_N (c - 1632))
  else if ((65296 <=? c) && (c <=? 65305))%N then Some (Z.of_N (c - 65296))
  else None.

(** Digits with single underscores between them, as [PyLong_FromString]
    reads them in base 10.  [prev] tells whether the previous character
    was a digit; [acc] is the value read so far. *)
Fixpoint int_digits (s : str) (prev : bool) (acc : Z) : option Z :=
  match s with
  | [] => if prev then Some acc else None
  | c :: s' =>
    match decimal_value c with
    | Some d => int_digits s' true (10 * acc + d)
    | None =>
      if ((c =? 95)%N && prev)%bool then
        match s' with
        | [] => None
        | _ => int_digits s' false acc
        end
      else None
    end
  end.

(** Whitespace that [int] skips around the number: the blanks of the C
    locale, and the Unicode whitespace beyond ASCII, which CPython
    rewrites to blanks before it reads the number. *)
Definition int_isspace (c : char) : bool :=
  ((9 <=? c) && (c <=? 13) || (c =? 32) || (128 <=? c) && isspace c)%N.

Fixpoint drop_while (f : char -> bool) (s : str) : str :=
  match s with
  | [] => []
  | c :: s' => if f c then drop_while f s' else s
  end.

(** [int(s)]; [None] stands for [ValueError]. *)
Definition py_int (s : str) : option Z :=
  let body :=
    rev (drop_while int_isspace (rev (drop_while int_isspace s))) in
  match body with
  | [] => None
  | c :: rest =>
    if (c =? 45)%N then option_map Z.opp (int_digits rest false 0)
    else if (c =? 43)%N then int_digits rest false 0
    else int_digits body false 0
  end.

(** Lexicographic comparison of code-point sequences ([a < b]). *)
Fixpoint str_ltb (a b : str) : bool :=
  match a, b with
  | _, [] => false
  | [], _ :: _ => true
  | x :: a', y :: b' =>
    (x <? y)%N || ((x =? y)%N && str_ltb a' b')
  end.

End PyStr.

Import PyStr.

(* ===================================================================== *)
(** * [datetime]: proleptic Gregorian dates                               *)
(* ===================================================================== *)

(** The part of the standard [datetime] module the summarizer uses:
    [strptime] / [strftime] with the format [%Y-%m-%d] and subtraction
    of a [timedelta] of whole days, which CPython performs on ordinals
    ([_ymd2ord], [_ord2ymd]).  The time of day is midnight throughout
    and is left out. *)

Module Datetime.

Local Open Scope Z_scope.

Record datetime := mkdate { year : Z; month : Z; day : Z }.

Definition MINYEAR : Z := 1.
Definition MAXYEAR : Z := 9999.
Definition MAXORDINAL : Z := 3652059.

Definition is_leap (y : Z) : bool :=
  (y mod 4 =? 0) && (negb (y mod 100 =? 0) || (y mod 400 =? 0)).

Definition days_in_month (y m : Z) : Z :=
  if m =? 2 then (if is_leap y then 29 else 28)
  else if (m =? 4) || (m =? 6) || (m =? 9) || (m =? 11) then 30
  else 31.

(** [_DAYS_BEFORE_MONTH] *)
Definition DAYS_BEFORE_MONTH (m : Z) : Z :=
  if m <=? 1 then 0 else if m =? 2 then 31 else if m =? 3 then 59
  else if m =? 4 then 90 else if m =? 5 then 120 else if m =? 6 then 151
  else if m =? 7 then 181 else if m =? 8 then 212 else if m =? 9 then 243
  else if m =? 10 then 273 else if m =? 11 then 304 else 334.

(** [_DAYS_IN_MONTH] *)
Definition DAYS_IN_MONTH (m : Z) : Z :=
  if m =? 2 then 28
  else if (m =? 4) || (m =? 6) || (m =? 9) || (m =? 11) then 30
  else 31.

Definition days_before_year (y : Z) : Z :=
  let p := y - 1 in p * 365 + p / 4 - p / 100 + p / 400.

Definition days_before_month (y m : Z) : Z :=
  DAYS_BEFORE_MONTH m + (if (m >? 2) && is_leap y then 1 else 0).

Definition ymd2ord (y m d : Z) : Z :=
  days_before_year y + days_before_month y m + d.

Definition DI400Y : Z := 146097.
Definition DI100Y : Z := 36524.
Definition DI4Y : Z := 1461.

(** The month and day of the [n]-th day (from 0) of a year: the
    estimate [(n + 50) >> 5] for the month is exact or one too large. *)
Definition month_day (leapyear : bool) (n : Z) : Z * Z :=
  let m := Z.shiftr (n + 50) 5 in
  let preceding :=
    DAYS_BEFORE_MONTH m + (if (m >? 2) && leapyear then 1 else 0) in
  if preceding >? n then
    let m' := m - 1 in
    let preceding' :=
      preceding
      - (DAYS_IN_MONTH m' + (if (m' =? 2) && leapyear then 1 else 0)) in
    (m', n - preceding' + 1)
  else (m, n - preceding + 1).

Definition ord2ymd (n0 : Z) : datetime :=
  let n := n0 - 1 in
  let n400 := n / DI400Y in
  let n := n mod DI400Y in
  let y := n400 * 400 + 1 in
  let n100 := n / DI100Y in
  let n := n mod DI100Y in
  let n4 := n / DI4Y in
  let n := n mod DI4Y in
  let n1 := n / 365 in
  let n := n mod 365 in
  let y := y + n100 * 100 + n4 * 4 + n1 in
  if (n1 =? 4) || (n100 =? 4) then mkdate (y - 1) 12 31
  else
    let leapyear := (n1 =? 3) && (negb (n4 =? 24) || (n100 =? 3)) in
    let (m, d) := month_day leapyear n in
    mkdate y m d.

Definition toordinal (d : datetime) : Z := ymd2ord (year d) (month d) (day d).

Definition valid_date (d : datetime) : bool :=
  (MINYEAR <=? year d) && (year d <=? MAXYEAR)
  && (1 <=? month d) && (month d <=? 12)
  && (1 <=? day d) && (day d <=? days_in_month (year d) (month d)).

(** [dt - timedelta(days=i)]; [None] stands for [OverflowError]. *)
Definition sub_days (d : datetime) (i : Z) : option datetime :=
  let o := toordinal d - i in
  if (1 <=? o) && (o <=? MAXORDINAL) then Some (ord2ymd o) else None.

(** *** [strftime("%Y-%m-%d")] *)

Definition digit (n : Z) : char := Z.to_N (48 + n mod 10).

Definition fmt2 (n : Z) : str := [digit (n / 10); digit n].
Definition fmt4 (n : Z) : str :=
  [digit (n / 1000); digit (n / 100); digit (n / 10); digit n].

Definition DASH : char := 45%N.

(** [%Y] is left to the C library, which (glibc) writes the year
    without padding; from the year 1000 on that is four digits on
    every platform. *)
Definition fmt_year (y : Z) : str :=
  if y <? 10 then [digit y]
  else if y <? 100 then fmt2 y
  else if y <? 1000 then [digit (y / 100); digit (y / 10); digit y]
  else fmt4 y.

Definition strftime (d : datetime) : str :=
  fmt_year (year d) ++ DASH :: fmt2 (month d) ++ DASH :: fmt2 (day d).

(** *** [strptime(s, "%Y-%m-%d")]

    The format compiles to the regular expression
    [(\d\d\d\d)-(1[0-2]|0[1-9]|[1-9])-(3[01]|[12]\d|0[1-9]|[1-9]| [1-9])],
    which must consume the whole string; the fields must then form a
    date of the calendar.  Digits are the ASCII ones.  [None] stands
    for [ValueError]. *)

Definition dig (c : char) : option Z :=
  if ((48 <=? c) && (c <=? 57))%N then Some (Z.of_N c - 48) else None.

Definition parse_day (s : str) : option Z :=
  match s with
  | [a; b] =>
    match dig a, dig b with
    | Some x, Some y =>
      if (x =? 3) && (y <=? 1) then Some (30 + y)
      else if (1 <=? x) && (x <=? 2) then Some (10 * x + y)
      else if (x =? 0) && (1 <=? y) then Some y
      else None
    | None, Some y =>
      if ((a =? 32)%N && (1 <=? y))%bool then Some y else None
    | _, _ => None
    end
  | [a] =>
    match dig a with
    | Some x => if 1 <=? x then Some x else None
    | None => None
    end
  | _ => None
  end.

Definition parse_month (s : str) : option (Z * str) :=
  match s with
  | a :: b :: c :: rest =>
    match dig a with
    | Some x =>
      if (b =? DASH)%N then
        (if 1 <=? x then Some (x, c :: rest) else None)
      else
        match dig b with
        | Some y =>
          if (c =? DASH)%N then
            if (x =? 1) && (y <=? 2) then Some (10 + y, rest)
            else if (x =? 0) && (1 <=? y) then Some (y, rest)
            else None
          else None
        | None => None
        end
    | None => None
    end
  | _ => None
  end.

Definition strptime (s : str) : option datetime :=
  match s with
  | a :: b :: c :: d :: e :: rest =>
    match dig a, dig b, dig c, dig d with
    | Some y3, Some y2, Some y1, Some y0 =>
      if (e =? DASH)%N then
        match parse_month rest with
        | Some (m, rest') =>
          match parse_day rest' with
          | Some dd =>
            let dt := mkdate (((y3 * 10 + y2) * 10 + y1) * 10 + y0) m dd in
            if valid_date dt then Some dt else None
          | None => None
          end
        | None => None
        end
      else None
    | _, _, _, _ => None
    end
  | _ => None
  end.

End Datetime.

(* ===================================================================== *)
(** * Shared data: classified items and the archive directory            *)
(* ===================================================================== *)

(** A classified item is a Python [dict]; the keys the code reads with
    [item.get(key, default)] are optional fields, [item["title"]] is
    mandatory. *)
Record item := mkitem {
  title : str;
  source_type : option str;
  source_id : option str;
  url : option str;
  mobile_url : option str;
  ranks : option (list Z);
  count : option Z;
  first_time : option str;
  last_time : option str;
  published_at : option str;
  summary : option str;
  author : option str
}.

Definition HOTLIST : str := Eval vm_compute in u "hotlist".
Definition RSS : str := Eval vm_compute in u "rss".

(** [d.get(key, default)] *)
Definition get {A} (field : option A) (default : A) : A :=
  match field with Some v => v | None => default end.

(** [item.get("source_type") == tag] *)
Definition source_is (tag : str) (it : item) : bool :=
  match source_type it with
  | Some s => str_eqb s tag
  | None => false
  end.

(** The archive root [base_dir]: its entries in the order [iterdir]
    yields them.  A topic directory holds its [*.md] files keyed by
    stem (the date); topic ids and dates are plain path components. *)
Inductive node :=
| File (content : str)
| Dir (files : list (str * str)).

Definition store := list (str * node).

Fixpoint lookup {A} (k : str) (l : list (str * A)) : option A :=
  match l with
  | [] => None
  | (k', v) :: l' => if str_eqb k k' then Some v else lookup k l'
  end.

Fixpoint upsert {A} (k : str) (v : A) (l : list (str * A)) : list (str * A) :=
  match l with
  | [] => [(k, v)]
  | (k', v') :: l' =>
    if str_eqb k k' then (k, v) :: l' else (k', v') :: upsert k v l'
  end.

(** Text-mode reading translates every line ending to a line feed. *)
Fixpoint universal_newlines (s : str) : str :=
  match s with
  | [] => []
  | c :: s' =>
    if (c =? 13)%N then
      match s' with
      | c' :: s'' =>
        if (c' =? 10)%N then NL :: universal_newlines s''
        else NL :: universal_newlines s'
      | [] => [NL]
      end
    else c :: universal_newlines s'
  end.

(** The raw text of [base_dir/topic_id/date.md], if that file exists. *)
Definition file_at (st : store) (topic_id date : str) : option str :=
  match lookup topic_id st with
  | Some (Dir files) => lookup date files
  | _ => None
  end.

(* ===================================================================== *)
(** * [trendradar/topic/storage.py]                                       *)
(* ===================================================================== *)

Module TopicStorage.

Local Open Scope Z_scope.

Definition STATS_HEADER : str := Eval vm_compute in u "## 📊 统计摘要".
Definition CONTENT_HEADER : str := Eval vm_compute in u "## 📰 内容列表".
Definition HOTLIST_HEADER : str := Eval vm_compute in u "### 热榜新闻".
Definition RSS_HEADER : str := Eval vm_compute in u "### RSS订阅".
Definition UNKNOWN : str := Eval vm_compute in u "未知".
Definition NOTES_MARKER : str := Eval vm_compute in u "## 🖊️ 人工备注".
Definition NOTES_PLACEHOLDER : str :=
  Eval vm_compute in u "<!-- 在此添加你的分析和思考 -->".
Definition IMPORTANCE_MARKER : str := Eval vm_compute in u "## ⭐ 重要度标记".
Definition IMPORTANCE_HINT : str :=
  Eval vm_compute in u "<!-- 1-5星，数字越大越重要 -->".
Definition IMPORTANCE_BOXES : str :=
  Eval vm_compute in u "重要度: ☐ 1星 ☐ 2星 ☐ 3星 ☐ 4星 ☐ 5星".

Definition len {A} (l : list A) : Z := Z.of_nat (length l).

(** [f"{i}. **[{title}]({url})**"] or [f"{i}. **{title}**"] *)
Definition title_line (i : Z) (t : str) (link : str) : str :=
  match link with
  | [] => str_of_Z i ++ u ". **" ++ t ++ u "**"
  | _ => str_of_Z i ++ u ". **[" ++ t ++ u "](" ++ link ++ u ")**"
  end.

Definition hotlist_entry (i : Z) (it : item) : list str :=
  let source := get (source_id it) UNKNOWN in
  let link := get (url it) [] in
  let cnt := get (count it) 1 in
  let rks := get (ranks it) [] in
  let first := get (first_time it) [] in
  let last := get (last_time it) [] in
  [title_line i (title it) link;
   u "   - 来源: " ++ source ++ u " | 出现 " ++ str_of_Z cnt ++ u " 次"]
  ++ match rks with
     | [] => []
     | _ =>
       let rank_str :=
         join (u ", ") (map (fun r => u "#" ++ str_of_Z r) (firstn 5 rks)) in
       [u "   - 排名: "
        ++ (if len rks >? 5 then rank_str ++ u "..." else rank_str)]
     end
  ++ match first with
     | [] => []
     | _ =>
       [u "   - 时间: "
        ++ (if str_eqb first last then first
            else first ++ u " ~ " ++ last)]
     end
  ++ [[]].

Definition rss_entry (i : Z) (it : item) : list str :=
  let source := get (source_id it) UNKNOWN in
  let link := get (url it) [] in
  let published := get (published_at it) [] in
  let summ := get (summary it) [] in
  let auth := get (author it) [] in
  [title_line i (title it) link;
   u "   - 来源: " ++ source]
  ++ match published with
     | [] => []
     | _ => [u "   - 发布时间: " ++ published]
     end
  ++ match auth with
     | [] => []
     | _ => [u "   - 作者: " ++ auth]
     end
  ++ match summ with
     | [] => []
     | _ =>
       let summary_short :=
         if len summ >? 200 then firstn 200 summ ++ u "..." else summ in
       [u "   - 摘要: " ++ summary_short]
     end
  ++ [[]].

(** [for i, item in enumerate(items, start)] *)
Fixpoint enumerate_from {A} (start : Z) (l : list A) : list (Z * A) :=
  match l with
  | [] => []
  | x :: l' => (start, x) :: enumerate_from (start + 1) l'
  end.

Definition section (header : str) (entry : Z -> item -> list str)
           (l : list item) : list str :=
  match l with
  | [] => []
  | _ =>
    (header ++ [NL])
      :: flat_map (fun p => entry (fst p) (snd p)) (enumerate_from 1 l)
  end.

Definition _generate_markdown (date topic_name : str) (items : list item)
  : str :=
  let hotlist_items := filter (source_is HOTLIST) items in
  let rss_items_list := filter (source_is RSS) items in
  let hotlist_count := len hotlist_items in
  let rss_count := len rss_items_list in
  let lines :=
    [u "# " ++ topic_name ++ u " - " ++ date ++ [NL];
     STATS_HEADER ++ [NL];
     u "- **总条目**: " ++ str_of_Z (len items) ++ u " 条";
     u "- **热榜来源**: " ++ str_of_Z hotlist_count ++ u " 条";
     u "- **RSS来源**: " ++ str_of_Z rss_count ++ u " 条" ++ [NL];
     CONTENT_HEADER ++ [NL]]
    ++ section HOTLIST_HEADER hotlist_entry hotlist_items
    ++ section RSS_HEADER rss_entry rss_items_list
    ++ [[NL] ++ u "---" ++ [NL];
        NOTES_MARKER ++ [NL];
        NOTES_PLACEHOLDER ++ [NL; NL];
        IMPORTANCE_MARKER ++ [NL];
        IMPORTANCE_HINT ++ [NL];
        IMPORTANCE_BOXES ++ [NL]] in
  join [NL] lines.

(** The human-notes text of an existing record, as
    [_append_to_existing] extracts it. *)
Definition extract_human_notes (existing_content : str) : str :=
  if contains NOTES_MARKER existing_content then
    match split NOTES_MARKER existing_content with
    | _ :: part1 :: _ =>
      match split IMPORTANCE_MARKER part1 with
      | notes :: _ => strip notes
      | [] => []
      end
    | _ => []
    end
  else [].

(** The importance text of an existing record, likewise. *)
Definition extract_importance (existing_content : str) : str :=
  if contains NOTES_MARKER existing_content then
    match split NOTES_MARKER existing_content with
    | _ :: part1 :: _ =>
      match split IMPORTANCE_MARKER part1 with
      | _ :: imp :: _ => strip imp
      | _ => []
      end
    | _ => []
    end
  else [].

(** The topic name for the regenerated record: the directory name
    unless the first line of the old record yields one. *)
Definition recover_topic_name (dir_name existing_content : str) : str :=
  if contains (u "# ") existing_content then
    let first_line := hd [] (split [NL] existing_content) in
    if contains (u " - ") first_line then
      strip (replace (u "#") [] (hd [] (split (u " - ") first_line)))
    else dir_name
  else dir_name.

(** The text [_append_to_existing] writes over the record
    [topic_id/date.md] whose text (as read) is [existing_content]. *)
Definition regenerate (topic_id date existing_content : str)
           (new_items : list item) : str :=
  let human_notes := extract_human_notes existing_content in
  let importance := extract_importance existing_content in
  let topic_name := recover_topic_name topic_id existing_content in
  let content := _generate_markdown date topic_name new_items in
  let content :=
    match human_notes with
    | [] => content
    | _ => replace NOTES_PLACEHOLDER human_notes content
    end in
  match importance with
  | [] => content
  | _ => replace IMPORTANCE_BOXES importance content
  end.

(** Writing [base_dir/topic_id/date.md]; [None] stands for the
    [OSError] raised when [topic_id] names a regular file. *)
Definition write_file (st : store) (topic_id date content : str)
  : option store :=
  match lookup topic_id st with
  | Some (File _) => None
  | Some (Dir files) => Some (upsert topic_id (Dir (upsert date content files)) st)
  | None => Some (upsert topic_id (Dir [(date, content)]) st)
  end.

Definition _append_to_existing (st : store) (topic_id date : str)
           (new_items : list item) : option store :=
  match file_at st topic_id date with
  | Some raw =>
    let existing_content := universal_newlines raw in
    write_file st topic_id date
               (regenerate topic_id date existing_content new_items)
  | None => None
  end.

Definition save_topic_classification (st : store)
           (date topic_id topic_name : str) (items : list item)
           (append : bool) : option store :=
  match lookup topic_id st with
  | Some (File _) => None
  | _ =>
    match file_at st topic_id date with
    | Some _ =>
      if append then _append_to_existing st topic_id date items
      else write_file st topic_id date
                      (_generate_markdown date topic_name items)
    | None =>
      write_file st topic_id date (_generate_markdown date topic_name items)
    end
  end.

(** [read_topic_file]: the text of a record, [None] when absent. *)
Definition read_topic_file (st : store) (topic_id date : str) : option str :=
  option_map universal_newlines (file_at st topic_id date).

End TopicStorage.

(* ===================================================================== *)
(** * [trendradar/topic/summarizer.py]                                    *)
(* ===================================================================== *)

Module HistorySummarizer.

Import Datetime TopicStorage.
Local Open Scope Z_scope.

Definition TRUNCATION_NOTICE : str :=
  Eval vm_compute in ([NL] ++ u "> ⚠️ 历史数据过多，已截断..." ++ [NL]).

(** [range(lo, hi)] *)
Definition range (lo hi : Z) : list Z :=
  map (fun k => lo + Z.of_nat k) (seq 0 (Z.to_nat (hi - lo))).

(** [mapM] for [option]: the first [None] (an exception) aborts. *)
Fixpoint sequence {A} (l : list (option A)) : option (list A) :=
  match l with
  | [] => Some []
  | None :: _ => None
  | Some x :: l' =>
    match sequence l' with
    | Some r => Some (x :: r)
    | None => None
    end
  end.

(** [None] stands for the [ValueError] of [strptime] or the
    [OverflowError] of the subtraction. *)
Definition _get_date_range (end_date : str) (days : Z)
           (exclude_current : bool) : option (list str) :=
  match strptime end_date with
  | None => None
  | Some end_ =>
    let start_offset := if exclude_current then 1 else 0 in
    sequence
      (map (fun i => option_map strftime (sub_days end_ i))
           (range start_offset (days + start_offset)))
  end.

Record stats := mkstats { total_items : Z; hotlist : Z; rss : Z }.

(** [int(line.split(":")[1].split("条")[0].strip().replace("**", ""))];
    [None] stands for the [IndexError] or [ValueError] the caller
    swallows. *)
Definition parse_count (line : str) : option Z :=
  match split (u ":") line with
  | _ :: field :: _ =>
    py_int (replace (u "**") [] (strip (hd [] (split (u "条") field))))
  | _ => None
  end.

Definition stats_step (st : stats) (line : str) : stats :=
  if contains (u "总条目") line then
    match parse_count line with
    | Some n => mkstats n (hotlist st) (rss st)
    | None => st
    end
  else if contains (u "热榜来源") line then
    match parse_count line with
    | Some n => mkstats (total_items st) n (rss st)
    | None => st
    end
  else if contains (u "RSS来源") line then
    match parse_count line with
    | Some n => mkstats (total_items st) (hotlist st) n
    | None => st
    end
  else st.

Definition _extract_stats (content : str) : stats :=
  fold_left stats_step (split [NL] content) (mkstats 0 0 0).

Definition _extract_human_notes (content : str) : str :=
  if negb (contains NOTES_MARKER content) then []
  else
    match split NOTES_MARKER content with
    | _ :: part1 :: _ =>
      let notes_section := hd [] (split IMPORTANCE_MARKER part1) in
      let notes :=
        strip (replace (u "-->") [] (replace (u "<!--") [] notes_section)) in
      if contains (u "在此添加你的分析和思考") notes then [] else notes
    | _ => []
    end.

Record history_item := mkhist {
  h_date : str;
  h_stats : stats;
  h_notes : str
}.

(** The qualifying days of one topic, in the order of [dates]. *)
Definition history_items (st : store) (topic_id : str) (dates : list str)
  : list history_item :=
  flat_map
    (fun date =>
       match read_topic_file st topic_id date with
       | Some ((_ :: _) as content) =>
         let s := _extract_stats content in
         if total_items s >? 0
         then [mkhist date s (_extract_human_notes content)]
         else []
       | _ => []
       end)
    dates.

Definition history_lines (h : history_item) : list str :=
  let s := h_stats h in
  (u "**" ++ h_date h ++ u "**: " ++ str_of_Z (total_items s)
     ++ u "条 (热榜" ++ str_of_Z (hotlist s) ++ u ", RSS"
     ++ str_of_Z (rss s) ++ u ")")
  :: match h_notes h with
     | [] => []
     | notes =>
       [u "  > 备注: " ++ firstn 100 notes
          ++ (if len notes >? 100 then u "..." else [])]
     end.

(** [_summarize_topic_history]: the pair (topic_name, content), [None]
    when the topic has no qualifying day. *)
Definition _summarize_topic_history (st : store) (topic_id : str)
           (dates : list str) : option (str * str) :=
  match history_items st topic_id dates with
  | [] => None
  | (first :: _) as items =>
    let topic_name :=
      match read_topic_file st topic_id (h_date first) with
      | Some ((_ :: _) as first_content) =>
        if startswith (u "#") first_content then
          let first_line := hd [] (split [NL] first_content) in
          if contains (u " - ") first_line then
            strip (replace (u "#") [] (hd [] (split (u " - ") first_line)))
          else topic_id
        else topic_id
      | _ => topic_id
      end in
    Some (topic_name, join [NL] (flat_map history_lines items))
  end.

Definition summary_text (topic_name content : str) : str :=
  u "### " ++ topic_name ++ [NL; NL] ++ content ++ [NL].

(** [int(max_tokens * 1.5)]: the product is exact in binary floating
    point for every budget below 2^52 in magnitude, and [int]
    truncates towards zero. *)
Definition max_chars_of (max_tokens : Z) : Z := Z.quot (3 * max_tokens) 2.

(** The loop over [topics_dir.iterdir()]: the list [summaries] it
    leaves behind, given the running total [total_chars]. *)
Fixpoint collect (st : store) (dates : list str) (max_chars : Z)
         (entries : store) (total_chars : Z) : list str :=
  match entries with
  | [] => []
  | (topic_id, nd) :: rest =>
    match nd with
    | File _ => collect st dates max_chars rest total_chars
    | Dir _ =>
      match _summarize_topic_history st topic_id dates with
      | None => collect st dates max_chars rest total_chars
      | Some (topic_name, content) =>
        let text := summary_text topic_name content in
        let summary_chars := len text in
        if total_chars + summary_chars >? max_chars
        then [TRUNCATION_NOTICE]
        else text :: collect st dates max_chars rest
                             (total_chars + summary_chars)
      end
    end
  end.

Definition header (dates : list str) : str :=
  u "## 📊 最近" ++ str_of_Z (len dates) ++ u "天同主题历史" ++ [NL; NL]
  ++ u "> 时间范围: " ++ last dates [] ++ u " 至 " ++ hd [] dates
  ++ [NL; NL].

(** [get_recent_summaries] with an explicit [current_date].  The
    archive root is [None] when the directory does not exist. *)
Definition get_recent_summaries (root : option store) (days : Z)
           (current_date : str) (max_tokens : Z) : option str :=
  match _get_date_range current_date days true with
  | None => None
  | Some [] => Some []
  | Some dates =>
    match root with
    | None => Some []
    | Some st =>
      match collect st dates (max_chars_of max_tokens) st 0 with
      | [] => Some []
      | summaries => Some (header dates ++ join [NL] summaries)
      end
    end
  end.

End HistorySummarizer.

(* ===================================================================== *)
(** * [trendradar/topic/classifier.py]                                    *)
(* ===================================================================== *)

Module TopicClassifier.

Local Open Scope Z_scope.

(** ** Loading the topic configuration *)

(** What [yaml.safe_load] returns: null, booleans, integers, strings,
    sequences and mappings (with string keys). *)
Inductive pyval :=
| VNone
| VBool (b : bool)
| VInt (z : Z)
| VStr (s : str)
| VList (l : list pyval)
| VDict (d : list (str * pyval)).

(** Python truthiness *)
Definition truthy (v : pyval) : bool :=
  match v with
  | VNone => false
  | VBool b => b
  | VInt z => negb (z =? 0)
  | VStr s => match s with [] => false | _ => true end
  | VList l => match l with [] => false | _ => true end
  | VDict d => match d with [] => false | _ => true end
  end.

Definition dict_get (d : list (str * pyval)) (key : str) (default : pyval)
  : pyval :=
  match lookup key d with
  | Some v => v
  | None => default
  end.

(** The state of the configuration path. *)
Inductive config_file :=
| Missing                      (* [config_path.exists()] is false *)
| Unreadable                   (* [open] or [yaml.safe_load] raises *)
| Document (data : pyval).

Inductive exn := AttributeError | TypeError | LoadError.

Inductive outcome (A : Type) :=
| Returned (v : A)
| Raised (e : exn).
Arguments Returned {A} v.
Arguments Raised {A} e.

(** What the function prints. *)
Inductive event :=
| ConfigMissing
| ConfigEmpty
| TopicIncomplete (topic : pyval)
| TopicsLoaded (n : nat)
| LoadFailed (e : exn).

(** A validated topic: the dict the loader builds. *)
Record topic_dict := mktopic {
  td_id : pyval;
  td_name : pyval;
  td_keywords : pyval;
  td_description : pyval;
  td_priority : pyval
}.

(** [for topic in topics]: the elements Python iterates over;
    [None] stands for [TypeError]. *)
Definition py_iter (v : pyval) : option (list pyval) :=
  match v with
  | VList l => Some l
  | VStr s => Some (map (fun c => VStr [c]) s)
  | VDict d => Some (map (fun kv => VStr (fst kv)) d)
  | _ => None
  end.

(** One turn of the validation loop on the accumulators
    [validated_topics] and the printed events. *)
Definition validate_step (acc : list topic_dict * list event) (topic : pyval)
  : list topic_dict * list event :=
  let (validated_topics, log) := acc in
  match topic with
  | VDict d =>
    let topic_id := dict_get d (u "id") (VStr []) in
    let name := dict_get d (u "name") (VStr []) in
    let keywords := dict_get d (u "keywords") (VList []) in
    if negb (truthy topic_id) || negb (truthy name) || negb (truthy keywords)
    then (validated_topics, log ++ [TopicIncomplete topic])
    else
      (validated_topics
         ++ [mktopic topic_id name keywords
                     (dict_get d (u "description") (VStr []))
                     (dict_get d (u "priority") (VInt 999))],
       log)
  | _ => acc
  end.

(** The body of the [try] block, after the file was read. *)
Definition load_body (data : pyval) : outcome (list topic_dict) * list event :=
  match data with
  | VDict d =>
    let topics := dict_get d (u "topics") (VList []) in
    if negb (truthy topics) then (Returned [], [ConfigEmpty])
    else
      match py_iter topics with
      | None => (Raised TypeError, [])
      | Some entries =>
        let (validated_topics, log) := fold_left validate_step entries ([], []) in
        (Returned validated_topics,
         log ++ [TopicsLoaded (length validated_topics)])
      end
  | _ => (Raised AttributeError, [])
  end.

(** [except Exception as e: print(...); return []] *)
Definition catch_all (r : outcome (list topic_dict) * list event)
  : outcome (list topic_dict) * list event :=
  match r with
  | (Raised e, log) => (Returned [], log ++ [LoadFailed e])
  | _ => r
  end.

Definition _load_topics (cfg : config_file)
  : outcome (list topic_dict) * list event :=
  match cfg with
  | Missing => (Returned [], [ConfigMissing])
  | Unreadable => catch_all (Raised LoadError, [])
  | Document data => catch_all (load_body data)
  end.

(** ** Classification *)

(** A topic as the data model types it. *)
Record TopicDefinition := mkdef {
  id : str;
  name : str;
  keywords : list str;
  description : str;
  priority : Z
}.

(** The attributes of a hotlist title and of a feed entry, as the
    dicts handed to [classify] carry them. *)
Record title_data := mktd {
  hd_url : option str;
  hd_mobileUrl : option str;
  hd_ranks : option (list Z);
  hd_count : option Z;
  hd_first_time : option str;
  hd_last_time : option str
}.

Record item_data := mkrd {
  rd_url : option str;
  rd_published_at : option str;
  rd_summary : option str;
  rd_author : option str
}.

Definition hotlist_item (source : str) (t : str) (d : title_data) : item :=
  mkitem t (Some HOTLIST) (Some source)
         (Some (get (hd_url d) []))
         (Some (get (hd_mobileUrl d) []))
         (Some (get (hd_ranks d) []))
         (Some (get (hd_count d) 1))
         (Some (get (hd_first_time d) []))
         (Some (get (hd_last_time d) []))
         None None None.

Definition rss_item (feed : str) (t : str) (d : item_data) : item :=
  mkitem t (Some RSS) (Some feed)
         (Some (get (rd_url d) []))
         None None None None None
         (Some (get (rd_published_at d) []))
         (Some (get (rd_summary d) []))
         (Some (get (rd_author d) [])).

(** [if topic_id not in results: results[topic_id] = []] followed by
    [results[topic_id].append(it)], on an insertion-ordered dict. *)
Definition bucket_append {A} (results : list (str * list A)) (topic_id : str)
           (it : A) : list (str * list A) :=
  match lookup topic_id results with
  | None => upsert topic_id [it] results
  | Some bucket => upsert topic_id (bucket ++ [it]) results
  end.

Section Classify.

(** [trendradar.core.frequency._word_matches], which is not part of
    the sources at hand, is a parameter: [_word_matches title keyword]. *)
Variable _word_matches : str -> str -> bool.

Variable topics : list TopicDefinition.

(** The inner loop: [True] when it leaves through [break]. *)
Fixpoint scan_keywords (t : str) (kws : list str) : bool :=
  match kws with
  | [] => false
  | keyword :: rest =>
    if _word_matches t keyword then true else scan_keywords t rest
  end.

Definition _match_topics (t : str) : list str :=
  fold_left
    (fun matched topic =>
       if scan_keywords t (keywords topic) then matched ++ [id topic]
       else matched)
    topics [].

Definition add_item (results : list (str * list item)) (it : item)
  : list (str * list item) :=
  fold_left (fun res topic_id => bucket_append res topic_id it)
            (_match_topics (title it)) results.

(** The items of the two inputs in iteration order. *)
Definition hotlist_candidates (news_items : list (str * list (str * title_data)))
  : list item :=
  flat_map (fun src =>
              map (fun td => hotlist_item (fst src) (fst td) (snd td)) (snd src))
           news_items.

Definition rss_candidates (rss_items : option (list (str * list (str * item_data))))
  : list item :=
  match rss_items with
  | None => []
  | Some feeds =>
    flat_map (fun feed =>
                map (fun e => rss_item (fst feed) (fst e) (snd e)) (snd feed))
             feeds
  end.

Definition classify (news_items : list (str * list (str * title_data)))
           (rss_items : option (list (str * list (str * item_data))))
  : list (str * list item) :=
  match topics with
  | [] => []
  | _ =>
    let results := fold_left add_item (hotlist_candidates news_items) [] in
    fold_left add_item (rss_candidates rss_items) results
  end.

End Classify.

End TopicClassifier.

(* ===================================================================== *)
(** * [topic-layer/router.py]                                             *)
(* ===================================================================== *)

Module TopicRouter.

Local Open Scope Z_scope.

(** ** Keyword matching *)

Section Matcher.

(** The two facts of the Unicode database the matcher depends on:
    which code points are word characters for the regular-expression
    engine ([\w]: alphanumerics and the underscore), and
    [str.lower]. *)
Variable is_word : char -> bool.
Variable lower : str -> str.

(** Is the first character of [s] a word character?  False at the end
    of the string. *)
Definition word_ahead (s : str) : bool :=
  match s with
  | [] => false
  | c :: _ => is_word c
  end.

(** Does the literal [kw] match at the head of [s], and if so is the
    position after it a [\b] boundary?  [prev] tells whether the
    character before the current position is a word character. *)
Fixpoint literal_then_boundary (prev : bool) (kw s : str) : bool :=
  match kw with
  | [] => xorb prev (word_ahead s)
  | k :: kw' =>
    match s with
    | [] => false
    | c :: s' => (k =? c)%N && literal_then_boundary (is_word c) kw' s'
    end
  end.

(** The pattern [\b kw \b] at the head of [s]. *)
Definition match_here (prev : bool) (kw s : str) : bool :=
  xorb prev (word_ahead s) && literal_then_boundary prev kw s.

(** [re.search]: every start position, left to right. *)
Fixpoint search_from (prev : bool) (kw s : str) : bool :=
  match_here prev kw s ||
  match s with
  | [] => false
  | c :: s' => search_from (is_word c) kw s'
  end.

Definition re_search_word (kw text : str) : bool := search_from false kw text.

Fixpoint match_keywords_loop (text_lower : str) (keywords : list str) : bool :=
  match keywords with
  | [] => false
  | keyword :: rest =>
    if re_search_word (lower keyword) text_lower then true
    else match_keywords_loop text_lower rest
  end.

Definition match_keywords (text : str) (keywords : list str) : bool :=
  match_keywords_loop (lower text) keywords.

End Matcher.

(** A part of the Unicode database, enough for Latin and Chinese text:
    ASCII letters and digits, the Latin-1 letters, and the CJK unified
    ideographs (with extension A) are alphanumeric. *)
Definition unicode_isalnum (c : char) : bool :=
  ((48 <=? c) && (c <=? 57) || (65 <=? c) && (c <=? 90)
   || (97 <=? c) && (c <=? 122)
   || (192 <=? c) && (c <=? 255) && negb (c =? 215) && negb (c =? 247)
   || (13312 <=? c) && (c <=? 19903)
   || (19968 <=? c) && (c <=? 40959))%N.

Definition unicode_is_word (c : char) : bool :=
  unicode_isalnum c || (c =? 95)%N.

Definition unicode_lower_char (c : char) : char :=
  if ((65 <=? c) && (c <=? 90))%N then (c + 32)%N
  else if ((192 <=? c) && (c <=? 222) && negb (c =? 215))%N then (c + 32)%N
  else c.

Definition unicode_lower (s : str) : str := map unicode_lower_char s.

(** ** The timeline *)

Record trend := mktrend {
  t_title : str;
  t_url : option str;
  t_date : str;
  t_source : str;
  t_summary : option str
}.

Definition LINK_LABEL : str := Eval vm_compute in u "**链接**：".

(** The longest prefix of characters outside [\s]. *)
Fixpoint non_space_run (s : str) : str :=
  match s with
  | [] => []
  | c :: s' => if isspace c then [] else c :: non_space_run s'
  end.

(** [https?://[^\s\n]+] at the head of [s]: the matched text. *)
Definition match_url (s : str) : option str :=
  let with_scheme scheme :=
    match non_space_run (skipn (length scheme) s) with
    | [] => None
    | body => Some (scheme ++ body)
    end in
  if startswith (u "https://") s then with_scheme (u "https://")
  else if startswith (u "http://") s then with_scheme (u "http://")
  else None.

(** [re.findall(url_pattern, content)]: the captured group of every
    non-overlapping match, left to right. *)
Fixpoint findall_urls (s : str) (skip : nat) : list str :=
  match s with
  | [] => []
  | _ :: s' =>
    match skip with
    | S k => findall_urls s' k
    | O =>
      if startswith LINK_LABEL s then
        match match_url (skipn (length LINK_LABEL) s) with
        | Some link =>
          link :: findall_urls s' (length LINK_LABEL + length link - 1)
        | None => findall_urls s' 0
        end
      else findall_urls s' 0
    end
  end.

(** [load_existing_urls]; the timeline file is [None] when it does not
    exist.  The set is kept as the list of matches. *)
Definition load_existing_urls (timeline_file : option str) : list str :=
  match timeline_file with
  | None => []
  | Some raw => findall_urls (universal_newlines raw) 0
  end.

(** [x in urls] *)
Definition url_in (x : str) (urls : list str) : bool :=
  existsb (str_eqb x) urls.

(** The dedup loop of [generate_timeline]. *)
Definition new_trends (existing_urls : list str) (trends : list trend)
  : list trend :=
  fold_left
    (fun acc t =>
       match t_url t with
       | None => acc ++ [t]
       | Some link =>
         if negb (url_in link existing_urls) then acc ++ [t] else acc
       end)
    trends [].

(** [group_by_date] on an insertion-ordered [defaultdict(list)] *)
Definition group_by_date (trends : list trend) : list (str * list trend) :=
  fold_left
    (fun grouped t => TopicClassifier.bucket_append grouped (t_date t) t)
    trends [].

(** [sorted(keys, reverse=True)] *)
Fixpoint insert_desc (k : str) (l : list str) : list str :=
  match l with
  | [] => [k]
  | x :: l' => if str_ltb k x then x :: insert_desc k l' else k :: l
  end.

Definition sorted_desc (l : list str) : list str :=
  fold_right insert_desc [] l.

Definition NO_LINK : str := Eval vm_compute in u "（无链接）".
Definition NO_SUMMARY : str := Eval vm_compute in u "（无摘要）".

(** The six pieces appended to [new_content] for one trend. *)
Definition render_trend (t : trend) : list str :=
  let link := match t_url t with
              | Some ((_ :: _) as x) => x
              | _ => NO_LINK
              end in
  let summ := match t_summary t with
              | Some ((_ :: _) as x) => x
              | _ => NO_SUMMARY
              end in
  [[NL] ++ u "**标题**：" ++ t_title t ++ u "  " ++ [NL];
   u "**来源**：" ++ t_source t ++ u "  " ++ [NL];
   u "**链接**：" ++ link ++ [NL];
   [NL] ++ u "**摘要**：  " ++ [NL] ++ summ ++ [NL];
   [NL] ++ u "**我的判断**：  " ++ [NL] ++ u "（留空，供人工补充）" ++ [NL];
   [NL] ++ u "---" ++ [NL]].

Definition render_new_content (fresh : list trend) : list str :=
  let grouped := group_by_date fresh in
  flat_map
    (fun date =>
       ([NL] ++ u "## " ++ date ++ [NL])
         :: flat_map render_trend (get (lookup date grouped) []))
    (sorted_desc (map fst grouped)).

(** The index after the first line that starts with [#], or 0. *)
Fixpoint header_end (lines : list str) (i : nat) : nat :=
  match lines with
  | [] => O
  | line :: rest =>
    if startswith (u "#") line then S i else header_end rest (S i)
  end.

(** [generate_timeline]: the timeline file afterwards, given the
    topic's display name, the file before and the matched trends. *)
Definition generate_timeline (topic_name : str) (timeline_file : option str)
           (trends : list trend) : option str :=
  let existing_urls := load_existing_urls timeline_file in
  match new_trends existing_urls trends with
  | [] => timeline_file
  | fresh =>
    let new_content := render_new_content fresh in
    match timeline_file with
    | Some raw =>
      let lines := split [NL] (universal_newlines raw) in
      let header_end_line := header_end lines 0 in
      let header_lines := firstn header_end_line lines in
      let body_lines := skipn header_end_line lines in
      Some (join [NL] header_lines ++ [NL]
            ++ concat new_content ++ join [NL] body_lines)
    | None =>
      Some (u "# " ++ topic_name ++ [NL] ++ concat new_content)
    end
  end.

End TopicRouter.

(* ===================================================================== *)
(** * Further functions of the four files                                 *)
(* ===================================================================== *)

(** ** [trendradar/topic/storage.py]: the dates of a topic *)

Module TopicDates.

(** [file_path.stem] of [<date>.md]: the name without its suffix,
    except that a name which only starts with a dot has no suffix. *)
Definition stem_of (date : str) : str :=
  match date with
  | [] => u ".md"
  | _ => date
  end.

(** [list_topic_dates]: the stems of the [*.md] files of the topic
    directory in descending order; nothing when the directory does not
    exist or is a regular file. *)
Definition list_topic_dates (st : store) (topic_id : str) : list str :=
  match lookup topic_id st with
  | Some (Dir files) =>
    TopicRouter.sorted_desc (map (fun kv => stem_of (fst kv)) files)
  | _ => []
  end.

End TopicDates.

(** ** [trendradar/topic/classifier.py]: looking a topic up *)

Module TopicInfo.

Import TopicClassifier.

(** [get_topic_info]: the first configured topic with that id. *)
Fixpoint get_topic_info (topics : list TopicDefinition) (topic_id : str)
  : option TopicDefinition :=
  match topics with
  | [] => None
  | topic :: rest =>
    if str_eqb (id topic) topic_id then Some topic
    else get_topic_info rest topic_id
  end.

End TopicInfo.

(** ** [topic-layer/router.py]: routing and the run *)

Module TopicRouting.

Import TopicRouter.

(** A topic of [topics.yaml] as the router reads it: the keys [name]
    and [keywords], either of which may be absent; [keywords] is a list
    of strings when present. *)
Record topic_config := mkconfig {
  c_name : option str;
  c_keywords : option (list str)
}.

(** [f"{title} {summary}"]: a summary that is [None] is formatted as
    the word [None]. *)
Definition search_text (t : trend) : str :=
  t_title t ++ u " "
  ++ match t_summary t with
     | Some s => s
     | None => u "None"
     end.

Section Routing.

Variable is_word : char -> bool.
Variable lower : str -> str.

(** [self.topics]: the mapping of [topics.yaml] in document order. *)
Variable topics : list (str * topic_config).

(** The inner loop of [route_trends] for one trend. *)
Definition route_trend (routed : list (str * list trend)) (t : trend)
  : list (str * list trend) :=
  fold_left
    (fun routed tp =>
       if match_keywords is_word lower (search_text t)
                         (get (c_keywords (snd tp)) [])
       then TopicClassifier.bucket_append routed (fst tp) t
       else routed)
    topics routed.

Definition route_trends (trends : list trend) : list (str * list trend) :=
  fold_left route_trend trends [].

(** [self.topics[topic_id]['name']]; [None] stands for the [KeyError]. *)
Definition topic_name (topic_id : str) : option str :=
  match lookup topic_id topics with
  | Some c => c_name c
  | None => None
  end.

(** One call of [generate_timeline] in step 4 of [run], on the index
    directory: the text of [index/<topic_id>/timeline.md] per topic
    id. *)
Definition write_timeline (index : list (str * str)) (topic_id name : str)
           (matched : list trend) : list (str * str) :=
  match generate_timeline name (lookup topic_id index) matched with
  | Some text => upsert topic_id text index
  | None => index
  end.

(** Step 4 of [run]: the loop over the routing result. *)
Definition write_all (routed : list (str * list trend))
           (index : list (str * str)) : list (str * str) :=
  fold_left
    (fun index kv =>
       write_timeline index (fst kv) (get (topic_name (fst kv)) []) (snd kv))
    routed index.

(** [run] from the trends that [get_all_trends] returned.  [None]
    stands for the exit with status 1, which the missing name of a
    routed topic causes in step 3, before anything is written. *)
Definition run (trends : list trend) (index : list (str * str))
  : option (list (str * str)) :=
  match trends with
  | [] => Some index
  | _ =>
    let routed := route_trends trends in
    if forallb (fun kv => match topic_name (fst kv) with
                          | Some _ => true
                          | None => false
                          end) routed
    then Some (write_all routed index)
    else None
  end.

End Routing.

End TopicRouting.

(* ===================================================================== *)
(** * Vocabulary of the properties                                        *)
(* ===================================================================== *)

(** Predicates and functions in which the properties are stated, and
    the concrete scenarios they are tried on. *)

(** ** The legacy timeline *)

(** A candidate survives when it has no URL or its URL is not among
    the recorded ones. *)
Definition unseen (existing_urls : list str) (t : TopicRouter.trend) : bool :=
  match TopicRouter.t_url t with
  | None => true
  | Some link => negb (TopicRouter.url_in link existing_urls)
  end.

(** The scenario of the specification: a timeline that records [u1]
    and [u2], and a batch with the URLs [u1], [u3], none, none. *)
Definition trend_of (t : string) (link : option str) (d : string)
  : TopicRouter.trend :=
  TopicRouter.mktrend (u t) link (u d) (u "weibo") None.

Definition timeline_u1_u2 : str :=
  Eval vm_compute in
    get (TopicRouter.generate_timeline (u "AI")
           None
           [trend_of "first" (Some (u "http://example.com/u1")) "2026-01-19";
            trend_of "second" (Some (u "https://example.com/u2")) "2026-01-20"])
        [].

Definition batch_u1_u3 : list TopicRouter.trend :=
  [trend_of "first" (Some (u "http://example.com/u1")) "2026-01-19";
   trend_of "third" (Some (u "http://example.com/u3")) "2026-01-21";
   trend_of "fourth" None "2026-01-21";
   trend_of "fifth" None "2026-01-19"].

(** ** The matcher of the router *)

Section Boundaries.

Variable is_word : char -> bool.

(** Is the last character of [l] a word character?  [prev] answers
    for the empty [l]. *)
Definition word_behind_from (prev : bool) (l : str) : bool :=
  fold_left (fun _ c => is_word c) l prev.

(** The same at the start of the string, where nothing precedes. *)
Definition word_behind (l : str) : bool := word_behind_from false l.

(** The regular-expression boundary [\b] between [l] and [r]: exactly
    one of the two adjacent characters is a word character. *)
Definition boundary (l r : str) : bool :=
  xorb (word_behind l) (TopicRouter.word_ahead is_word r).

End Boundaries.

(** The ideographs of the CJK unified block. *)
Definition is_cjk (c : char) : bool := ((19968 <=? c) && (c <=? 40959))%N.

(** ** The classifier *)

(** The bucket of a topic id: empty when the id is not a key. *)
Definition bucket_of {A} (k : str) (results : list (str * list A)) : list A :=
  get (lookup k results) [].

(** How often the id [k] is among the topics matched by an item. *)
Definition hits (_word_matches : str -> str -> bool)
           (topics : list TopicClassifier.TopicDefinition)
           (k : str) (it : item) : list str :=
  filter (str_eqb k)
         (TopicClassifier._match_topics _word_matches topics (title it)).

(** The end-to-end scenario of the specification, with a second topic
    that the same title also matches.  The matcher plugged in for the
    absent [_word_matches] is plain containment. *)
Definition demo_matcher (t keyword : str) : bool := contains keyword t.

Definition demo_topics : list TopicClassifier.TopicDefinition :=
  [TopicClassifier.mkdef (u "ai-tech") (u "AI") [u "AI"; u "人工智能"] [] 999;
   TopicClassifier.mkdef (u "models") (u "Models") [u "模型"] [] 999].

Definition demo_title_data : TopicClassifier.title_data :=
  TopicClassifier.mktd (Some (u "http://x/1")) None (Some [1%Z]) (Some 2%Z)
                       (Some (u "09:00")) (Some (u "10:00")).

Definition demo_news : list (str * list (str * TopicClassifier.title_data)) :=
  [(u "src1", [(u "OpenAI发布新模型", demo_title_data)])].

Definition demo_feed_data : TopicClassifier.item_data :=
  TopicClassifier.mkrd (Some (u "http://y/2")) None None None.

Definition demo_rss
  : option (list (str * list (str * TopicClassifier.item_data))) :=
  Some [(u "feed1", [(u "AI weekly", demo_feed_data)])].

Definition demo_item : item :=
  TopicClassifier.hotlist_item (u "src1") (u "OpenAI发布新模型") demo_title_data.

Definition demo_feed_item : item :=
  TopicClassifier.rss_item (u "feed1") (u "AI weekly") demo_feed_data.

(** ** The topic configuration *)

Section Configuration.

Import TopicClassifier.

(** The entries of the configured [topics] sequence; none when the file
    is missing or unreadable, the document is not a mapping, or
    [topics] is not something Python can iterate over. *)
Definition configured_entries (cfg : config_file) : list pyval :=
  match cfg with
  | Document (VDict d) => get (py_iter (dict_get d (u "topics") (VList []))) []
  | _ => []
  end.

(** The entries that are mappings. *)
Definition dicts_of (entries : list pyval) : list (list (str * pyval)) :=
  flat_map (fun e => match e with VDict d => [d] | _ => [] end) entries.

(** An entry has an id, a name and at least one keyword. *)
Definition has_required (d : list (str * pyval)) : bool :=
  truthy (dict_get d (u "id") (VStr []))
  && truthy (dict_get d (u "name") (VStr []))
  && truthy (dict_get d (u "keywords") (VList [])).

(** The normalised topic of an entry. *)
Definition to_topic (d : list (str * pyval)) : topic_dict :=
  mktopic (dict_get d (u "id") (VStr []))
          (dict_get d (u "name") (VStr []))
          (dict_get d (u "keywords") (VList []))
          (dict_get d (u "description") (VStr []))
          (dict_get d (u "priority") (VInt 999)).

(** The warnings due for a list of entries. *)
Definition warnings_of (entries : list pyval) : list event :=
  flat_map (fun e => match e with
                     | VDict d =>
                       if has_required d then [] else [TopicIncomplete e]
                     | _ => []
                     end) entries.

End Configuration.

(** ** The calendar *)

Section CalendarTables.

Import Datetime.
Local Open Scope Z_scope.

(** [month_day] returns a month and a day of that month, and they
    denote the [n]-th day of the year. *)
Definition month_day_ok (leap : bool) (n : Z) : bool :=
  let (m, d) := month_day leap n in
  (1 <=? m) && (m <=? 12) && (1 <=? d)
  && (d <=? DAYS_IN_MONTH m + (if (m =? 2) && leap then 1 else 0))
  && (DAYS_BEFORE_MONTH m + (if (m >? 2) && leap then 1 else 0) + d =? n + 1).

(** A two-digit day parses back to itself. *)
Definition parse_day_ok (k : nat) : bool :=
  match parse_day (fmt2 (Z.of_nat k)) with
  | Some d => d =? Z.of_nat k
  | None => false
  end.

End CalendarTables.

(** ** The archive and the digest *)

Section ArchiveVocabulary.

Import TopicStorage.
Local Open Scope Z_scope.

(** The total length of a list of strings. *)
Definition total_len (l : list str) : Z :=
  fold_right (fun s acc => len s + acc) 0 l.

(** What every generated record ends with: the part between the
    content list and the placeholder of the notes, and the part
    between that placeholder and the check-box line. *)
Definition RECORD_TAIL_BEFORE_NOTES : str :=
  Eval vm_compute in ([NL] ++ u "---" ++ [NL; NL] ++ NOTES_MARKER ++ [NL]).

Definition RECORD_TAIL_BETWEEN : str :=
  Eval vm_compute in
    ([NL; NL] ++ IMPORTANCE_MARKER ++ [NL; NL] ++ IMPORTANCE_HINT ++ [NL]).

(** The text after the first replacement of [_append_to_existing],
    which is skipped for empty notes. *)
Definition spliced_notes (p notes fresh : str) : str :=
  match notes with
  | [] => fresh
  | _ => replace p notes fresh
  end.

(** The text after the second replacement, skipped likewise. *)
Definition spliced_importance (b importance spliced : str) : str :=
  match importance with
  | [] => spliced
  | _ => replace b importance spliced
  end.

(** The archive after the record of the end-to-end scenario was saved
    for 19 January 2026. *)
Definition demo_archive : store :=
  Eval vm_compute in
    get (save_topic_classification [] (u "2026-01-19") (u "ai-tech")
                                   (u "AI科技") [demo_item] true) [].

(** The dates of the week before 20 January 2026. *)
Definition demo_week : list str :=
  [u "2026-01-19"; u "2026-01-18"; u "2026-01-17"; u "2026-01-16";
   u "2026-01-15"; u "2026-01-14"; u "2026-01-13"].

(** A record whose notes quote the check-box line of the template, and
    whose importance section was filled in. *)
Definition annotated_record : str :=
  Eval vm_compute in
    u "# AI科技 - 2026-01-20

## 🖊️ 人工备注

重要度: ☐ 1星 ☐ 2星 ☐ 3星 ☐ 4星 ☐ 5星 is too coarse a scale

## ⭐ 重要度标记

重要度: ☑ 5星
".

Definition annotated_archive : store :=
  [(u "ai-tech", Dir [(u "2026-01-20", annotated_record)])].

(** A record with ordinary notes and a filled-in importance section. *)
Definition noted_record : str :=
  Eval vm_compute in
    u "# AI科技 - 2026-01-20

## 🖊️ 人工备注

Watch the follow-up release next week.

## ⭐ 重要度标记

重要度: ☑ 4星
".

End ArchiveVocabulary.

(** ** The link lines of a timeline *)

(** The URL pattern matches the whole of [link]: an http(s) URL
    without white space. *)
Definition http_link (link : str) : bool :=
  match TopicRouter.match_url link with
  | Some m => str_eqb m link
  | None => false
  end.

Definition no_space (s : str) : bool := forallb (fun c => negb (isspace c)) s.

Definition CR : char := 13%N.

Definition ends_with_newline (s : str) : Prop := exists x, s = x ++ [NL].

(** The text of a file as the program reads it; empty when the file
    does not exist. *)
Definition text_read (file : option str) : str :=
  get (option_map universal_newlines file) [].

(** A batch in which every trend has an http(s) URL. *)
Definition batch_links : list TopicRouter.trend :=
  [trend_of "first" (Some (u "http://example.com/u1")) "2026-01-19";
   trend_of "third" (Some (u "http://example.com/u3")) "2026-01-21"].

(** ** Buckets *)

(** Buckets are filled under distinct keys and never left empty. *)
Definition buckets_ok {A} (r : list (str * list A)) : Prop :=
  NoDup (map fst r) /\ Forall (fun kv => snd kv <> []) r.

(** ** Routing *)

(** The keywords of a topic match the search text of a trend. *)
Definition routes_to (is_word : char -> bool) (lower : str -> str)
           (c : TopicRouting.topic_config) (t : TopicRouter.trend) : bool :=
  TopicRouter.match_keywords is_word lower (TopicRouting.search_text t)
                             (get (TopicRouting.c_keywords c) []).

(** Two topics, the second of which lists the keyword [none]. *)
Definition demo_router_topics : list (str * TopicRouting.topic_config) :=
  [(u "ai", TopicRouting.mkconfig (Some (u "AI")) (Some [u "AI"; u "OpenAI"]));
   (u "misc", TopicRouting.mkconfig (Some (u "Misc")) (Some [u "None"]))].

Definition demo_trends : list TopicRouter.trend :=
  [trend_of "OpenAI ships" (Some (u "http://example.com/u1")) "2026-01-19";
   trend_of "Weather" (Some (u "https://example.com/u2")) "2026-01-20"].

(** The index directory after a first run over these trends. *)
Definition demo_index : list (str * str) :=
  Eval vm_compute in
    get (TopicRouting.run TopicRouter.unicode_is_word TopicRouter.unicode_lower
                          demo_router_topics demo_trends []) [].

(** ** The classifier, continued *)

(** A topic matches an item when one of its keywords matches the
    title. *)
Definition topic_matches (_word_matches : str -> str -> bool)
           (topic : TopicClassifier.TopicDefinition) (it : item) : bool :=
  existsb (_word_matches (title it)) (TopicClassifier.keywords topic).

(** ** The archive, continued *)

(** Descending order: no element is less than a later one. *)
Fixpoint descending (l : list str) : Prop :=
  match l with
  | [] => True
  | x :: l' => Forall (fun y => str_ltb x y = false) l' /\ descending l'
  end.

(** The record of a day counts for the digest when it is not empty and
    the total it states is positive. *)
Definition qualifies (st : store) (topic_id date : str) : bool :=
  match TopicStorage.read_topic_file st topic_id date with
  | Some ((_ :: _) as content) =>
    (HistorySummarizer.total_items (HistorySummarizer._extract_stats content)
     >? 0)%Z
  | _ => false
  end.

(** The archive of the end-to-end scenario after a record for the next
    day was saved as well. *)
Definition demo_archive_two_days : store :=
  Eval vm_compute in
    get (TopicStorage.save_topic_classification
           demo_archive (u "2026-01-20") (u "ai-tech") (u "AI科技")
           [demo_feed_item] true) [].

(** An archive that holds the record with ordinary notes. *)
Definition noted_archive : store :=
  [(u "ai-tech", Dir [(u "2026-01-20", noted_record)])].

(** ** The statistics of a record *)

(** The code points of a decimal numeral. *)
Fixpoint digits_of (d : Decimal.uint) : str :=
  match d with
  | Decimal.Nil => []
  | Decimal.D0 d' => 48%N :: digits_of d'
  | Decimal.D1 d' => 49%N :: digits_of d'
  | Decimal.D2 d' => 50%N :: digits_of d'
  | Decimal.D3 d' => 51%N :: digits_of d'
  | Decimal.D4 d' => 52%N :: digits_of d'
  | Decimal.D5 d' => 53%N :: digits_of d'
  | Decimal.D6 d' => 54%N :: digits_of d'
  | Decimal.D7 d' => 55%N :: digits_of d'
  | Decimal.D8 d' => 56%N :: digits_of d'
  | Decimal.D9 d' => 57%N :: digits_of d'
  end.

Definition is_digit (c : char) : bool := ((48 <=? c) && (c <=? 57))%N.

Definition LABEL_TOTAL : str := Eval vm_compute in u "总条目".
Definition LABEL_HOTLIST : str := Eval vm_compute in u "热榜来源".
Definition LABEL_RSS : str := Eval vm_compute in u "RSS来源".

(** A text mentions one of the labels [_extract_stats] looks for. *)
Definition mentions_label (s : str) : bool :=
  contains LABEL_TOTAL s || contains LABEL_HOTLIST s || contains LABEL_RSS s.

(** The heading line of a record and the lines of its content list. *)
Definition heading_of (date topic_name : str) : str :=
  u "# " ++ topic_name ++ u " - " ++ date.

(** A heading from which the name can be read back: one line, no [#]
    in the name, no [ - ] before the one that precedes the date, and no
    white space around the name. *)
Definition plain_heading (date topic_name : str) : bool :=
  negb (existsb (N.eqb NL) (heading_of date topic_name))
  && negb (existsb (N.eqb 35%N) topic_name)
  && negb (contains (u " - ") (u "# " ++ topic_name ++ u " -"))
  && str_eqb (strip topic_name) topic_name.

Definition content_list (items : list item) : list str :=
  TopicStorage.section TopicStorage.HOTLIST_HEADER TopicStorage.hotlist_entry
                       (filter (source_is HOTLIST) items)
  ++ TopicStorage.section TopicStorage.RSS_HEADER TopicStorage.rss_entry
                          (filter (source_is RSS) items).

(** What follows the content list in every record; its first line, the
    rule, and what follows the line of the notes marker. *)
Definition RECORD_TAIL : str :=
  Eval vm_compute in
    join [NL]
         [[NL] ++ u "---" ++ [NL];
          TopicStorage.NOTES_MARKER ++ [NL];
          TopicStorage.NOTES_PLACEHOLDER ++ [NL; NL];
          TopicStorage.IMPORTANCE_MARKER ++ [NL];
          TopicStorage.IMPORTANCE_HINT ++ [NL];
          TopicStorage.IMPORTANCE_BOXES ++ [NL]].

Definition TAIL_RULE : str := Eval vm_compute in ([NL] ++ u "---" ++ [NL]).

Definition AFTER_NOTES_LINE : str :=
  Eval vm_compute in
    ([NL] ++ TopicStorage.NOTES_PLACEHOLDER ++ [NL; NL; NL]
     ++ TopicStorage.IMPORTANCE_MARKER ++ [NL; NL]
     ++ TopicStorage.IMPORTANCE_HINT ++ [NL; NL]
     ++ TopicStorage.IMPORTANCE_BOXES ++ [NL]).

Definition STAT_TOTAL : str := Eval vm_compute in u "- **总条目**".
Definition STAT_HOTLIST : str := Eval vm_compute in u "- **热榜来源**".
Definition STAT_RSS : str := Eval vm_compute in u "- **RSS来源**".

(** A line of the statistics: [f"{label}: {n} 条"]. *)
Definition stat_line (label : str) (n : Z) : str :=
  label ++ u ": " ++ str_of_Z n ++ u " 条".

(** The statistics are read line by line. *)
Definition scan (s : str) (st : HistorySummarizer.stats)
  : HistorySummarizer.stats :=
  fold_left HistorySummarizer.stats_step (split [NL] s) st.

(** What the statistics of a record say about a list of items. *)
Definition stats_of (items : list item) : HistorySummarizer.stats :=
  HistorySummarizer.mkstats
    (TopicStorage.len items)
    (TopicStorage.len (filter (source_is HOTLIST) items))
    (TopicStorage.len (filter (source_is RSS) items)).

(** Gluing the pieces of two texts that were split on their own: the
    last piece of the first and the first piece of the second are one
    piece, with the character between them. *)
Definition glue (x : char) (l1 l2 : list str) : list str :=
  removelast l1 ++ [last l1 [] ++ x :: hd [] l2] ++ tl l2.

(* ===================================================================== *)
(** * Properties                                                          *)
(* ===================================================================== *)

(** ** Strings and association lists *)

Lemma str_eqb_eq (a b : str) : str_eqb a b = true <-> a = b.
Proof.
  revert b; induction a as [|x a IH]; intros [|y b]; simpl;
    try (split; [discriminate | discriminate]); try tauto.
  rewrite andb_true_iff, N.eqb_eq, IH.
  split; [intros [-> ->]; reflexivity | intros H; inversion H; auto].
Qed.

Lemma str_eqb_refl (a : str) : str_eqb a a = true.
Proof. apply str_eqb_eq; reflexivity. Qed.

Lemma str_eqb_neq (a b : str) : str_eqb a b = false <-> a <> b.
Proof.
  rewrite <- str_eqb_eq. destruct (str_eqb a b); split; congruence.
Qed.

Lemma lookup_upsert_same {A} (k : str) (v : A) (l : list (str * A)) :
  lookup k (upsert k v l) = Some v.
Proof.
  induction l as [|[k' v'] l IH]; simpl.
  - now rewrite str_eqb_refl.
  - destruct (str_eqb k k') eqn:E; simpl; rewrite ?str_eqb_refl, ?E; auto.
Qed.

Lemma lookup_upsert_other {A} (k k' : str) (v : A) (l : list (str * A)) :
  k' <> k -> lookup k' (upsert k v l) = lookup k' l.
Proof.
  intros Hne. induction l as [|[k0 v0] l IH]; simpl.
  - apply str_eqb_neq in Hne. now rewrite Hne.
  - destruct (str_eqb k k0) eqn:E; simpl.
    + apply str_eqb_eq in E; subst k0.
      apply str_eqb_neq in Hne. now rewrite Hne.
    + destruct (str_eqb k' k0); auto.
Qed.

(** A loop that appends the elements passing a test is a filter. *)
Lemma fold_left_append_filter {A} (p : A -> bool) (l init : list A) :
  fold_left (fun acc x => if p x then acc ++ [x] else acc) l init
  = init ++ filter p l.
Proof.
  revert init; induction l as [|x l IH]; intros init; simpl.
  - now rewrite app_nil_r.
  - rewrite IH. destruct (p x); simpl; auto. now rewrite <- app_assoc.
Qed.

Lemma fold_left_ext {A B} (f g : A -> B -> A) (l : list B) (a : A) :
  (forall x y, f x y = g x y) -> fold_left f l a = fold_left g l a.
Proof.
  intros H; revert a; induction l as [|y l IH]; intros a; simpl; auto.
  now rewrite H, IH.
Qed.

Lemma filter_none {A} (p : A -> bool) (l : list A) :
  (forall x, In x l -> p x = false) -> filter p l = [].
Proof.
  induction l as [|x l IH]; intros H; simpl; auto.
  rewrite (H x (or_introl eq_refl)). apply IH.
  intros y Hy. apply H. now right.
Qed.

(** ** The legacy timeline: deduplication by URL *)

Section TimelineDedup.

Import TopicRouter.

Lemma url_in_In (x : str) (urls : list str) :
  url_in x urls = true <-> In x urls.
Proof.
  unfold url_in. rewrite existsb_exists. split.
  - intros [y [Hy E]]. apply str_eqb_eq in E. now subst.
  - intros H. exists x. split; auto using str_eqb_refl.
Qed.

Lemma new_trends_filter (existing_urls : list str) (trends : list trend) :
  new_trends existing_urls trends = filter (unseen existing_urls) trends.
Proof.
  unfold new_trends.
  rewrite (fold_left_ext _
             (fun acc t => if unseen existing_urls t then acc ++ [t] else acc)).
  - now rewrite fold_left_append_filter.
  - intros acc t. unfold unseen. destruct (t_url t); reflexivity.
Qed.


Example timeline_u1_u2_urls :
  load_existing_urls (Some timeline_u1_u2)
  = [u "https://example.com/u2"; u "http://example.com/u1"].
Proof. vm_compute. reflexivity. Qed.

Example timeline_dedup_example :
  new_trends (load_existing_urls (Some timeline_u1_u2)) batch_u1_u3
  = [trend_of "third" (Some (u "http://example.com/u3")) "2026-01-21";
     trend_of "fourth" None "2026-01-21";
     trend_of "fifth" None "2026-01-19"].
Proof. vm_compute. reflexivity. Qed.

(** C9.  When every candidate carries a URL that is already recorded
    in the existing timeline file, [generate_timeline] returns before
    the write: the file is left as it was. *)
Theorem generate_timeline_all_seen_no_write
        (topic_name raw : str) (trends : list trend) :
  (forall t, In t trends ->
     exists link, t_url t = Some link
                  /\ In link (load_existing_urls (Some raw))) ->
  generate_timeline topic_name (Some raw) trends = Some raw.
Proof.
  intros Hall. unfold generate_timeline.
  rewrite new_trends_filter.
  rewrite (filter_none (unseen (load_existing_urls (Some raw))) trends);
    [reflexivity|].
  intros t Ht. destruct (Hall t Ht) as [link [Hl Hin]].
  unfold unseen. rewrite Hl.
  apply url_in_In in Hin. now rewrite Hin.
Qed.

Lemma generate_timeline_all_seen_no_write_witness :
  generate_timeline (u "AI") (Some timeline_u1_u2)
    [trend_of "first" (Some (u "http://example.com/u1")) "2026-01-19"]
  = Some timeline_u1_u2.
Proof.
  apply generate_timeline_all_seen_no_write.
  intros t [<- | []].
  exists (u "http://example.com/u1"). split; [reflexivity|].
  vm_compute. right. left. reflexivity.
Defined.

End TimelineDedup.

(** ** The classifier: buckets *)

Section Buckets.

Import TopicClassifier.

Lemma bucket_of_append {A} (results : list (str * list A)) (k k' : str) (x : A) :
  bucket_of k (bucket_append results k' x)
  = bucket_of k results ++ (if str_eqb k k' then [x] else []).
Proof.
  unfold bucket_of, bucket_append.
  destruct (str_eqb k k') eqn:E.
  - apply str_eqb_eq in E; subst k'.
    destruct (lookup k results); now rewrite lookup_upsert_same.
  - apply str_eqb_neq in E.
    destruct (lookup k' results);
      rewrite lookup_upsert_other by assumption; now rewrite app_nil_r.
Qed.

Lemma bucket_of_appends {A} (ids : list str) (results : list (str * list A))
      (k : str) (x : A) :
  bucket_of k (fold_left (fun res topic_id => bucket_append res topic_id x)
                         ids results)
  = bucket_of k results ++ map (fun _ => x) (filter (str_eqb k) ids).
Proof.
  revert results; induction ids as [|i ids IH]; intros results; simpl.
  - now rewrite app_nil_r.
  - rewrite IH, bucket_of_append, <- app_assoc. f_equal.
    destruct (str_eqb k i); reflexivity.
Qed.

Lemma lookup_of_bucket {A} (k : str) (results : list (str * list A)) (x : A) :
  In x (bucket_of k results) ->
  exists bucket, lookup k results = Some bucket /\ In x bucket.
Proof.
  unfold bucket_of. destruct (lookup k results) as [b|]; simpl.
  - intros H. now exists b.
  - intros [].
Qed.

Variable _word_matches : str -> str -> bool.
Variable topics : list TopicDefinition.

Lemma scan_keywords_existsb (t : str) (kws : list str) :
  scan_keywords _word_matches t kws = existsb (_word_matches t) kws.
Proof.
  induction kws as [|k kws IH]; simpl; auto.
  destruct (_word_matches t k); auto.
Qed.

(** The ids [_match_topics] returns: one per topic with a matching
    keyword, in the order of the topics. *)
Lemma match_topics_filter (t : str) :
  _match_topics _word_matches topics t
  = map id (filter (fun topic => existsb (_word_matches t) (keywords topic))
                   topics).
Proof.
  unfold _match_topics.
  assert (G : forall l init,
             fold_left
               (fun matched topic =>
                  if scan_keywords _word_matches t (keywords topic)
                  then matched ++ [id topic] else matched) l init
             = init ++ map id
                 (filter (fun topic => existsb (_word_matches t) (keywords topic))
                         l)).
  { induction l as [|x l IH]; intros init; simpl.
    - now rewrite app_nil_r.
    - rewrite IH, scan_keywords_existsb.
      destruct (existsb (_word_matches t) (keywords x)); simpl; auto.
      now rewrite <- app_assoc. }
  apply G.
Qed.

Lemma bucket_of_add_items (items : list item) (results : list (str * list item))
      (k : str) :
  bucket_of k (fold_left (add_item _word_matches topics) items results)
  = bucket_of k results
    ++ flat_map (fun it => map (fun _ => it) (hits _word_matches topics k it)) items.
Proof.
  revert results; induction items as [|it items IH]; intros results; simpl.
  - now rewrite app_nil_r.
  - rewrite IH. unfold add_item. rewrite bucket_of_appends.
    now rewrite <- app_assoc.
Qed.

(** Every bucket of [classify]: the hotlist candidates that hit the
    topic, then the feed candidates that hit it. *)
Lemma classify_bucket news_items rss_items (k : str) :
  bucket_of k (classify _word_matches topics news_items rss_items)
  = flat_map (fun it => map (fun _ => it) (hits _word_matches topics k it))
             (hotlist_candidates news_items)
    ++ flat_map (fun it => map (fun _ => it) (hits _word_matches topics k it))
                (rss_candidates rss_items).
Proof.
  unfold classify. destruct topics as [|t0 ts] eqn:Et.
  - unfold hits, _match_topics. simpl.
    assert (Z : forall l : list item,
               flat_map (fun it => map (fun _ : str => it) (@nil str)) l = [])
      by (induction l; simpl; auto).
    now rewrite !Z.
  - rewrite <- Et. rewrite !bucket_of_add_items. reflexivity.
Qed.

Lemma in_hits_flat_map (k : str) (it : item) (items : list item) :
  In it items -> hits _word_matches topics k it <> [] ->
  In it (flat_map (fun it => map (fun _ => it) (hits _word_matches topics k it)) items).
Proof.
  intros Hin Hne. apply in_flat_map. exists it. split; auto.
  destruct (hits _word_matches topics k it); [congruence | now left].
Qed.

Lemma flat_map_hits_subset (k : str) (it : item) (items : list item) :
  In it (flat_map (fun it => map (fun _ => it) (hits _word_matches topics k it)) items) ->
  In it items.
Proof.
  intros H. apply in_flat_map in H. destruct H as [x [Hx Hm]].
  apply in_map_iff in Hm. destruct Hm as [_ [<- _]]. assumption.
Qed.

End Buckets.



Example classify_demo_fan_out :
  map (fun kv => (fst kv, map title (snd kv)))
      (TopicClassifier.classify demo_matcher demo_topics demo_news demo_rss)
  = [(u "ai-tech", [u "OpenAI发布新模型"; u "AI weekly"]);
     (u "models", [u "OpenAI发布新模型"])].
Proof. vm_compute. reflexivity. Qed.

Lemma hotlist_candidates_source news_items (it : item) :
  In it (TopicClassifier.hotlist_candidates news_items) ->
  source_type it = Some HOTLIST.
Proof.
  unfold TopicClassifier.hotlist_candidates. intros H.
  apply in_flat_map in H. destruct H as [src [_ H]].
  apply in_map_iff in H. destruct H as [td [<- _]]. reflexivity.
Qed.

Lemma rss_candidates_source rss_items (it : item) :
  In it (TopicClassifier.rss_candidates rss_items) ->
  source_type it = Some RSS.
Proof.
  unfold TopicClassifier.rss_candidates. destruct rss_items as [feeds|];
    [|intros []].
  intros H. apply in_flat_map in H. destruct H as [feed [_ H]].
  apply in_map_iff in H. destruct H as [e [<- _]]. reflexivity.
Qed.

(** C10.  In every bucket of the mapping [classify] returns, the items
    from the hotlist come first and the items from the feeds after
    them: the bucket splits into a hotlist part followed by a feed
    part, so a hotlist item is always at a smaller index than a feed
    item, however the inputs are laid out. *)
Theorem classify_bucket_hotlist_before_rss
        (_word_matches : str -> str -> bool)
        (topics : list TopicClassifier.TopicDefinition)
        (news_items : list (str * list (str * TopicClassifier.title_data)))
        (rss_items : option (list (str * list (str * TopicClassifier.item_data))))
        (k : str) (bucket : list item) :
  lookup k (TopicClassifier.classify _word_matches topics news_items rss_items)
  = Some bucket ->
  (exists hot feed,
      bucket = hot ++ feed
      /\ Forall (fun it => source_type it = Some HOTLIST) hot
      /\ Forall (fun it => source_type it = Some RSS) feed)
  /\ forall i j a b,
      nth_error bucket i = Some a -> nth_error bucket j = Some b ->
      source_type a = Some HOTLIST -> source_type b = Some RSS ->
      (i < j)%nat.
Proof.
  intros Hk.
  assert (Hb : bucket
               = bucket_of k (TopicClassifier.classify _word_matches topics
                                                       news_items rss_items))
    by (unfold bucket_of; now rewrite Hk).
  rewrite classify_bucket in Hb.
  set (hot := flat_map (fun it => map (fun _ => it)
                                      (hits _word_matches topics k it))
                       (TopicClassifier.hotlist_candidates news_items)) in *.
  set (feed := flat_map (fun it => map (fun _ => it)
                                       (hits _word_matches topics k it))
                        (TopicClassifier.rss_candidates rss_items)) in *.
  assert (Hhot : Forall (fun it => source_type it = Some HOTLIST) hot).
  { apply Forall_forall. intros it Hit.
    apply flat_map_hits_subset in Hit.
    now apply hotlist_candidates_source in Hit. }
  assert (Hfeed : Forall (fun it => source_type it = Some RSS) feed).
  { apply Forall_forall. intros it Hit.
    apply flat_map_hits_subset in Hit.
    now apply rss_candidates_source in Hit. }
  split; [now exists hot, feed|].
  intros i j a b Ha Hb' Sa Sb. subst bucket.
  rewrite Forall_forall in Hhot, Hfeed.
  destruct (Nat.lt_ge_cases i (length hot)) as [Hi | Hi].
  - destruct (Nat.lt_ge_cases j (length hot)) as [Hj | Hj]; [|lia].
    rewrite nth_error_app1 in Hb' by assumption.
    apply nth_error_In in Hb'. apply Hhot in Hb'.
    rewrite Hb' in Sb. discriminate Sb.
  - rewrite nth_error_app2 in Ha by assumption.
    apply nth_error_In in Ha. apply Hfeed in Ha.
    rewrite Ha in Sa. discriminate Sa.
Qed.

Lemma classify_bucket_hotlist_before_rss_witness :
  (exists hot feed,
      [demo_item; demo_feed_item]
      = hot ++ feed
      /\ Forall (fun it => source_type it = Some HOTLIST) hot
      /\ Forall (fun it => source_type it = Some RSS) feed)
  /\ forall i j a b,
      nth_error
        [demo_item; demo_feed_item]
        i = Some a ->
      nth_error
        [demo_item; demo_feed_item]
        j = Some b ->
      source_type a = Some HOTLIST -> source_type b = Some RSS ->
      (i < j)%nat.
Proof.
  apply (classify_bucket_hotlist_before_rss
           demo_matcher demo_topics demo_news demo_rss (u "ai-tech")).
  vm_compute. reflexivity.
Defined.

(** ** Loading the topic configuration *)

Section LoadTopics.

Import TopicClassifier.

Lemma validate_step_spec (acc : list topic_dict * list event) (e : pyval) :
  validate_step acc e
  = (fst acc ++ map to_topic (filter has_required (dicts_of [e])),
     snd acc ++ match e with
                | VDict d => if has_required d then [] else [TopicIncomplete e]
                | _ => []
                end).
Proof.
  destruct acc as [v l]. destruct e; simpl; rewrite ?app_nil_r; auto.
  unfold has_required.
  destruct (truthy (dict_get d (u "id") (VStr [])));
    destruct (truthy (dict_get d (u "name") (VStr [])));
    destruct (truthy (dict_get d (u "keywords") (VList [])));
    simpl; rewrite ?app_nil_r; reflexivity.
Qed.

Lemma validate_loop_spec (entries : list pyval)
      (acc : list topic_dict * list event) :
  fold_left validate_step entries acc
  = (fst acc ++ map to_topic (filter has_required (dicts_of entries)),
     snd acc ++ warnings_of entries).
Proof.
  revert acc; induction entries as [|e entries IH]; intros acc.
  - simpl. rewrite !app_nil_r. now destruct acc.
  - cbn [fold_left]. rewrite IH, validate_step_spec. cbn [fst snd].
    rewrite <- !app_assoc.
    replace (dicts_of (e :: entries)) with (dicts_of [e] ++ dicts_of entries)
      by (unfold dicts_of; cbn [flat_map]; now rewrite app_nil_r).
    rewrite filter_app, map_app. reflexivity.
Qed.

Lemma in_warnings_of (entries : list pyval) (e : pyval) :
  In (TopicIncomplete e) (warnings_of entries) <->
  exists d, e = VDict d /\ In e entries /\ has_required d = false.
Proof.
  unfold warnings_of. rewrite in_flat_map. split.
  - intros [x [Hx Hin]]. destruct x; try destruct Hin.
    destruct (has_required d) eqn:E; [destruct Hin|].
    destruct Hin as [H | []]. inversion H; subst. now exists d.
  - intros [d [-> [Hin Hreq]]]. exists (VDict d). split; auto.
    rewrite Hreq. now left.
Qed.


End LoadTopics.

(** ** The router's keyword matcher *)

Section MatcherProperties.

Import TopicRouter.

Variable is_word : char -> bool.
Variable lower : str -> str.

Lemma startswith_app (p s : str) :
  startswith p s = true <-> exists r, s = p ++ r.
Proof.
  revert s; induction p as [|x p IH]; intros s; simpl.
  - split; [intros _; now exists s | auto].
  - destruct s as [|y s].
    + split; [discriminate | intros [r H]; discriminate].
    + rewrite andb_true_iff, N.eqb_eq, IH. split.
      * intros [-> [r ->]]. now exists r.
      * intros [r H]. inversion H; subst. split; auto. now exists r.
Qed.

Lemma literal_then_boundary_spec (prev : bool) (kw s : str) :
  literal_then_boundary is_word prev kw s = true <->
  exists b, s = kw ++ b
            /\ xorb (word_behind_from is_word prev kw) (word_ahead is_word b) = true.
Proof.
  revert prev s; induction kw as [|k kw IH]; intros prev s; simpl.
  - split; [intros H; now exists s | intros [b [-> H]]; exact H].
  - destruct s as [|c s].
    + split; [discriminate | intros [b [H _]]; discriminate].
    + rewrite andb_true_iff, N.eqb_eq, IH. split.
      * intros [-> [b [-> H]]]. exists b. split; auto.
      * intros [b [H1 H2]]. inversion H1; subst. split; auto.
        exists b. split; auto.
Qed.

Lemma search_from_spec (prev : bool) (kw s : str) :
  search_from is_word prev kw s = true <->
  exists a b,
    s = a ++ kw ++ b
    /\ xorb (word_behind_from is_word prev a) (word_ahead is_word (kw ++ b)) = true
    /\ xorb (word_behind_from is_word prev (a ++ kw)) (word_ahead is_word b) = true.
Proof.
  assert (Here : forall prev s,
             match_here is_word prev kw s = true <->
             exists b, s = [] ++ kw ++ b
                       /\ xorb (word_behind_from is_word prev [])
                               (word_ahead is_word (kw ++ b)) = true
                       /\ xorb (word_behind_from is_word prev ([] ++ kw))
                               (word_ahead is_word b) = true).
  { intros p t. unfold match_here.
    rewrite andb_true_iff, literal_then_boundary_spec. cbn [app].
    split.
    - intros [H1 [b [H2 H3]]]. exists b. subst t. auto.
    - intros [b [H1 [H2 H3]]]. subst t. split; auto. now exists b. }
  revert prev; induction s as [|c s IH]; intros prev;
    cbn [search_from]; rewrite orb_true_iff, Here.
  - split.
    + intros [[b H] | H]; [|discriminate]. now exists [], b.
    + intros [a [b [H1 H23]]]. left.
      destruct a as [|c a]; [|discriminate]. now exists b.
  - rewrite IH. split.
    + intros [[b H] | [a [b [H1 [H2 H3]]]]].
      * now exists [], b.
      * exists (c :: a), b. subst s. auto.
    + intros [a [b [H1 [H2 H3]]]]. destruct a as [|c' a].
      * left. now exists b.
      * right. cbn [app] in H1. inversion H1; subst.
        exists a, b. auto.
Qed.

Lemma word_behind_from_app (prev : bool) (a b : str) :
  word_behind_from is_word prev (a ++ b) = word_behind_from is_word (word_behind_from is_word prev a) b.
Proof. unfold word_behind_from. apply fold_left_app. Qed.

Lemma match_keywords_loop_spec (text_lower : str) (keywords : list str) :
  match_keywords_loop is_word lower text_lower keywords = true <->
  exists k, In k keywords /\ re_search_word is_word (lower k) text_lower = true.
Proof.
  induction keywords as [|k ks IH]; simpl.
  - split; [discriminate | intros [k [[] _]]].
  - destruct (re_search_word is_word (lower k) text_lower) eqn:E.
    + split; auto. intros _. exists k. auto.
    + rewrite IH. split.
      * intros [k' [Hin H]]. exists k'. auto.
      * intros [k' [[<- | Hin] H]]; [congruence | exists k'; auto].
Qed.

(** C4, as the code has it.  Whatever the Unicode tables, the matcher
    answers true exactly when some keyword, lowercased, occurs in the
    lowercased text at a place where the regular-expression boundary
    [\b] holds at both its ends, that is where on each side exactly one
    of the two neighbouring characters is a word character (a string
    edge counting as a non-word character). *)
Theorem match_keywords_iff_regex_word_boundaries
        (text : str) (keywords : list str) :
  match_keywords is_word lower text keywords = true <->
  exists k pre post,
    In k keywords
    /\ lower text = pre ++ lower k ++ post
    /\ boundary is_word pre (lower k ++ post) = true
    /\ boundary is_word (pre ++ lower k) post = true.
Proof.
  unfold match_keywords. rewrite match_keywords_loop_spec.
  unfold re_search_word, boundary, word_behind. split.
  - intros [k [Hin H]]. apply search_from_spec in H.
    destruct H as [a [b [H1 [H2 H3]]]]. exists k, a, b. auto.
  - intros [k [a [b [Hin [H1 [H2 H3]]]]]]. exists k. split; auto.
    apply search_from_spec. exists a, b. auto.
Qed.

End MatcherProperties.

(** C4 as the specification words it fails on the code: a CJK keyword
    inside CJK text is not matched, and neither is a Latin keyword that
    starts at the string edge and is followed directly by an ideograph,
    although the second is bounded by a script-class transition. *)
Lemma match_keywords_misses_cjk_boundaries :
  (u "今天人工智能发展" = u "今天" ++ u "人工智能" ++ u "发展"
   /\ forallb is_cjk (u "今天人工智能发展") = true
   /\ TopicRouter.match_keywords TopicRouter.unicode_is_word
        TopicRouter.unicode_lower (u "今天人工智能发展") [u "人工智能"] = false)
  /\ (u "OpenAI发布新模型" = u "OpenAI" ++ u "发布新模型"
      /\ forallb is_cjk (u "OpenAI") = false
      /\ forallb is_cjk (u "发布新模型") = true
      /\ TopicRouter.match_keywords TopicRouter.unicode_is_word
           TopicRouter.unicode_lower (u "OpenAI发布新模型") [u "OpenAI"] = false).
Proof. vm_compute. repeat split. Qed.

Example match_keywords_whole_word :
  TopicRouter.match_keywords TopicRouter.unicode_is_word
    TopicRouter.unicode_lower (u "Open AI 发布") [u "ai"] = true
  /\ TopicRouter.match_keywords TopicRouter.unicode_is_word
       TopicRouter.unicode_lower (u "WAIT") [u "AI"] = false.
Proof. vm_compute. split; reflexivity. Qed.

(** ** The calendar *)

Section Calendar.

Import Datetime.
Local Open Scope Z_scope.

Lemma month_day_table :
  forallb (fun k => month_day_ok false (Z.of_nat k)) (seq 0 365)
  && forallb (fun k => month_day_ok true (Z.of_nat k)) (seq 0 366) = true.
Proof. vm_compute. reflexivity. Qed.

Lemma month_day_spec (leap : bool) (n : Z) :
  0 <= n < 365 + (if leap then 1 else 0) -> month_day_ok leap n = true.
Proof.
  intros H. pose proof month_day_table as T.
  apply andb_true_iff in T. destruct T as [T0 T1].
  rewrite forallb_forall in T0, T1.
  rewrite <- (Z2Nat.id n) by lia.
  destruct leap; [apply T1 | apply T0]; apply in_seq; lia.
Qed.

Lemma year_decompose (n : Z) :
  0 <= n ->
  let a := n / 146097 in let r1 := n mod 146097 in
  let b := r1 / 36524 in let r2 := r1 mod 36524 in
  let c := r2 / 1461 in let r3 := r2 mod 1461 in
  let d := r3 / 365 in let r4 := r3 mod 365 in
  0 <= a /\ 0 <= b <= 4 /\ 0 <= c <= 24 /\ 0 <= d <= 4 /\ 0 <= r4 < 365
  /\ n = 146097 * a + 36524 * b + 1461 * c + 365 * d + r4
  /\ (b = 4 -> c = 0 /\ d = 0 /\ r4 = 0)
  /\ (d = 4 -> r4 = 0).
Proof.
  intros H. cbv zeta.
  (Z.div_mod_to_equations; lia).
Qed.

Lemma days_before_year_decomposed (a b c d : Z) :
  0 <= a -> 0 <= b <= 3 -> 0 <= c <= 24 -> 0 <= d <= 3 ->
  days_before_year (400 * a + 100 * b + 4 * c + d + 1)
  = 146097 * a + 36524 * b + 1461 * c + 365 * d.
Proof.
  intros. unfold days_before_year.
  (Z.div_mod_to_equations; lia).
Qed.

Lemma is_leap_decomposed (a b c d : Z) :
  0 <= a -> 0 <= b <= 3 -> 0 <= c <= 24 -> 0 <= d <= 3 ->
  is_leap (400 * a + 100 * b + 4 * c + d + 1)
  = (d =? 3) && (negb (c =? 24) || (b =? 3)).
Proof.
  intros. unfold is_leap.
  (destruct (Z.eqb_spec ((400 * a + 100 * b + 4 * c + d + 1) mod 4) 0);
  destruct (Z.eqb_spec ((400 * a + 100 * b + 4 * c + d + 1) mod 100) 0);
  destruct (Z.eqb_spec ((400 * a + 100 * b + 4 * c + d + 1) mod 400) 0);
  destruct (Z.eqb_spec d 3); destruct (Z.eqb_spec c 24);
  destruct (Z.eqb_spec b 3); cbn [andb orb negb]; try reflexivity;
  exfalso; Z.div_mod_to_equations; lia).
Qed.

Lemma days_in_month_table (y m : Z) :
  days_in_month y m
  = DAYS_IN_MONTH m + (if (m =? 2) && is_leap y then 1 else 0).
Proof.
  unfold days_in_month, DAYS_IN_MONTH.
  destruct (m =? 2); [destruct (is_leap y); reflexivity|].
  cbn [andb]. lia.
Qed.

Lemma toordinal_ord2ymd (n : Z) :
  1 <= n -> toordinal (ord2ymd n) = n.
Proof.
  intros Hn.
  pose proof (@year_decompose (n - 1) ltac:(lia)) as D. cbv zeta in D.
  unfold ord2ymd, DI400Y, DI100Y, DI4Y.
  set (a := (n - 1) / 146097) in *.
  set (r1 := (n - 1) mod 146097) in *.
  set (b := r1 / 36524) in *. set (r2 := r1 mod 36524) in *.
  set (c := r2 / 1461) in *. set (r3 := r2 mod 1461) in *.
  set (d := r3 / 365) in *. set (r4 := r3 mod 365) in *.
  destruct D as (Ha & Hb & Hc & Hd & Hr & Hsum & Hb4 & Hd4).
  destruct (Z.eqb_spec d 4) as [Ed|Ed]; [|destruct (Z.eqb_spec b 4) as [Eb|Eb]];
    cbn [orb].
  - (* the last day of a leap year that ends a 4-year cycle *)
    assert (Hc' : c <= 23).
    { subst a b c d r4 r3 r2 r1. clear - Hn Ed. Z.div_mod_to_equations. lia. }
    assert (Hb' : b <= 3).
    { subst a b c d r4 r3 r2 r1. clear - Hn Ed. Z.div_mod_to_equations. lia. }
    unfold toordinal, ymd2ord, days_before_month. cbn [year month day].
    replace (a * 400 + 1 + b * 100 + c * 4 + d - 1)
      with (400 * a + 100 * b + 4 * c + 3 + 1) by lia.
    rewrite days_before_year_decomposed, is_leap_decomposed by lia.
    replace (c =? 24) with false by (symmetry; apply Z.eqb_neq; lia).
    change (DAYS_BEFORE_MONTH 12) with 334.
    change (12 >? 2) with true. change (3 =? 3) with true.
    cbn [andb orb negb]. specialize (Hd4 Ed). lia.
  - (* the last day of a 400-year cycle *)
    destruct (Hb4 Eb) as (C0 & D0 & R0).
    unfold toordinal, ymd2ord, days_before_month. cbn [year month day].
    replace (a * 400 + 1 + b * 100 + c * 4 + d - 1)
      with (400 * a + 100 * 3 + 4 * 24 + 3 + 1) by lia.
    rewrite days_before_year_decomposed, is_leap_decomposed by lia.
    change (DAYS_BEFORE_MONTH 12) with 334.
    change (12 >? 2) with true. change (3 =? 3) with true.
    change (24 =? 24) with true.
    cbn [andb orb negb]. lia.
  - set (leap := (d =? 3) && (negb (c =? 24) || (b =? 3))).
    pose proof (@month_day_spec leap r4 ltac:(destruct leap; lia)) as M.
    unfold month_day_ok in M.
    destruct (month_day leap r4) as [m dd].
    unfold toordinal, ymd2ord, days_before_month. cbn [year month day].
    replace (a * 400 + 1 + b * 100 + c * 4 + d)
      with (400 * a + 100 * b + 4 * c + d + 1) by lia.
    rewrite days_before_year_decomposed, is_leap_decomposed by lia.
    fold leap.
    rewrite !andb_true_iff in M. destruct M as [_ M].
    apply Z.eqb_eq in M. lia.
Qed.

Lemma valid_ord2ymd (n : Z) :
  1 <= n <= MAXORDINAL -> valid_date (ord2ymd n) = true.
Proof.
  intros Hn. unfold MAXORDINAL in Hn.
  pose proof (@year_decompose (n - 1) ltac:(lia)) as D. cbv zeta in D.
  unfold ord2ymd, DI400Y, DI100Y, DI4Y.
  set (a := (n - 1) / 146097) in *.
  set (r1 := (n - 1) mod 146097) in *.
  set (b := r1 / 36524) in *. set (r2 := r1 mod 36524) in *.
  set (c := r2 / 1461) in *. set (r3 := r2 mod 1461) in *.
  set (d := r3 / 365) in *. set (r4 := r3 mod 365) in *.
  destruct D as (Ha & Hb & Hc & Hd & Hr & Hsum & Hb4 & Hd4).
  unfold valid_date, MINYEAR, MAXYEAR.
  destruct (Z.eqb_spec d 4) as [Ed|Ed]; [|destruct (Z.eqb_spec b 4) as [Eb|Eb]];
    cbn [orb year month day].
  - specialize (Hd4 Ed).
    unfold days_in_month. change (12 =? 2) with false.
    change ((12 =? 4) || (12 =? 6) || (12 =? 9) || (12 =? 11)) with false.
    cbn iota. change (1 <=? 12) with true. change (12 <=? 12) with true.
    change (1 <=? 31) with true. change (31 <=? 31) with true.
    rewrite !andb_true_r. apply andb_true_iff; split; apply Z.leb_le; lia.
  - destruct (Hb4 Eb) as (C0 & D0 & R0).
    unfold days_in_month. change (12 =? 2) with false.
    change ((12 =? 4) || (12 =? 6) || (12 =? 9) || (12 =? 11)) with false.
    cbn iota. change (1 <=? 12) with true. change (12 <=? 12) with true.
    change (1 <=? 31) with true. change (31 <=? 31) with true.
    rewrite !andb_true_r. apply andb_true_iff; split; apply Z.leb_le; lia.
  - set (leap := (d =? 3) && (negb (c =? 24) || (b =? 3))).
    pose proof (@month_day_spec leap r4 ltac:(destruct leap; lia)) as M.
    unfold month_day_ok in M.
    destruct (month_day leap r4) as [m dd]. cbn [year month day].
    rewrite days_in_month_table.
    replace (a * 400 + 1 + b * 100 + c * 4 + d)
      with (400 * a + 100 * b + 4 * c + d + 1) by lia.
    rewrite is_leap_decomposed by lia. fold leap.
    rewrite !andb_true_iff in M. destruct M as [[[[M1 M2] M3] M4] _].
    rewrite M1, M2, M3, M4, !andb_true_r.
    apply andb_true_iff; split; apply Z.leb_le; lia.
Qed.

Lemma days_before_year_succ (y : Z) :
  1 <= y ->
  days_before_year (y + 1)
  = days_before_year y + 365 + (if is_leap y then 1 else 0).
Proof.
  intros Hy. unfold days_before_year, is_leap.
  replace (y + 1 - 1) with y by lia.
  destruct (Z.eqb_spec (y mod 4) 0); destruct (Z.eqb_spec (y mod 100) 0);
    destruct (Z.eqb_spec (y mod 400) 0); cbn [andb orb negb];
    Z.div_mod_to_equations; lia.
Qed.

Lemma days_before_year_mono (y y' : Z) :
  1 <= y <= y' -> days_before_year y <= days_before_year y'.
Proof.
  intros H. unfold days_before_year. Z.div_mod_to_equations. lia.
Qed.

Lemma day_of_year_bound (y m d : Z) :
  1 <= m <= 12 -> 1 <= d <= days_in_month y m ->
  1 <= days_before_month y m + d <= 365 + (if is_leap y then 1 else 0).
Proof.
  intros Hm Hd. unfold days_before_month. rewrite days_in_month_table in Hd.
  assert (Cases : m = 1 \/ m = 2 \/ m = 3 \/ m = 4 \/ m = 5 \/ m = 6 \/ m = 7
                  \/ m = 8 \/ m = 9 \/ m = 10 \/ m = 11 \/ m = 12) by lia.
  destruct (is_leap y);
    repeat (destruct Cases as [-> | Cases]); try subst m;
    cbv beta iota delta [DAYS_BEFORE_MONTH DAYS_IN_MONTH Z.eqb Z.leb Z.gtb
                         Z.compare Pos.compare Pos.compare_cont Pos.eqb
                         andb orb] in Hd |- *;
    lia.
Qed.

Lemma toordinal_range (d : datetime) :
  valid_date d = true -> 1 <= toordinal d <= MAXORDINAL.
Proof.
  unfold valid_date, MINYEAR, MAXYEAR, MAXORDINAL.
  rewrite !andb_true_iff, !Z.leb_le.
  intros [[[[[Y1 Y2] M1] M2] D1] D2].
  unfold toordinal, ymd2ord.
  pose proof (@day_of_year_bound (year d) (month d) (day d)
                                 (conj M1 M2) (conj D1 D2)) as B.
  pose proof (@days_before_year_succ (year d) Y1) as S.
  pose proof (@days_before_year_mono (year d + 1) 10000 ltac:(lia)) as U.
  pose proof (@days_before_year_mono 1 (year d) ltac:(lia)) as L.
  change (days_before_year 10000) with 3652059 in U.
  change (days_before_year 1) with 0 in L.
  lia.
Qed.

Lemma dig_digit (n : Z) : dig (digit n) = Some (n mod 10).
Proof.
  unfold dig, digit.
  pose proof (Z.mod_pos_bound n 10 ltac:(lia)) as B.
  replace ((48 <=? Z.to_N (48 + n mod 10))%N
           && (Z.to_N (48 + n mod 10) <=? 57)%N) with true.
  - f_equal. lia.
  - symmetry. apply andb_true_iff. split; apply N.leb_le; lia.
Qed.

Lemma digit_not_dash (n : Z) : (digit n =? DASH)%N = false.
Proof.
  unfold digit, DASH. apply N.eqb_neq.
  pose proof (Z.mod_pos_bound n 10 ltac:(lia)). lia.
Qed.

Lemma parse_month_fmt2 (m : Z) (rest : str) :
  1 <= m <= 12 -> parse_month (fmt2 m ++ DASH :: rest) = Some (m, rest).
Proof.
  intros Hm.
  assert (Cases : m = 1 \/ m = 2 \/ m = 3 \/ m = 4 \/ m = 5 \/ m = 6 \/ m = 7
                  \/ m = 8 \/ m = 9 \/ m = 10 \/ m = 11 \/ m = 12) by lia.
  repeat (destruct Cases as [-> | Cases]); try subst m; reflexivity.
Qed.

Lemma parse_day_fmt2 (d : Z) :
  1 <= d <= 31 -> parse_day (fmt2 d) = Some d.
Proof.
  intros Hd.
  assert (T : forallb parse_day_ok (seq 1 31) = true) by (vm_compute; reflexivity).
  rewrite forallb_forall in T.
  specialize (T (Z.to_nat d) ltac:(apply in_seq; lia)).
  unfold parse_day_ok in T. rewrite Z2Nat.id in T by lia.
  destruct (parse_day (fmt2 d)) as [x|]; [|discriminate].
  apply Z.eqb_eq in T. now subst.
Qed.

Lemma year_digits (y : Z) :
  0 <= y <= 9999 ->
  (((y / 1000) mod 10 * 10 + (y / 100) mod 10) * 10 + (y / 10) mod 10) * 10
  + y mod 10 = y.
Proof. intros H. Z.div_mod_to_equations. lia. Qed.

Lemma strptime_strftime (d : datetime) :
  valid_date d = true -> 1000 <= year d -> strptime (strftime d) = Some d.
Proof.
  intros V Hy. pose proof V as V'.
  unfold valid_date, MINYEAR, MAXYEAR in V'.
  rewrite !andb_true_iff, !Z.leb_le in V'.
  destruct V' as [[[[[Y1 Y2] M1] M2] D1] D2].
  assert (D3 : day d <= 31).
  { unfold days_in_month in D2.
    destruct (month d =? 2); [destruct (is_leap (year d)); lia|].
    destruct ((month d =? 4) || (month d =? 6) || (month d =? 9)
              || (month d =? 11)); lia. }
  unfold strftime, strptime, fmt_year.
  replace (year d <? 10) with false by (symmetry; apply Z.ltb_ge; lia).
  replace (year d <? 100) with false by (symmetry; apply Z.ltb_ge; lia).
  replace (year d <? 1000) with false by (symmetry; apply Z.ltb_ge; lia).
  unfold fmt4 at 1. cbn [app].
  rewrite !dig_digit.
  change (DASH =? DASH)%N with true. cbv iota.
  rewrite parse_month_fmt2 by lia.
  rewrite parse_day_fmt2 by lia.
  rewrite year_digits by lia.
  destruct d as [y m dd]. cbn [year month day] in *. now rewrite V.
Qed.

(** A date on or after 1 January 1000 has a four-digit year. *)
Lemma year_from_ordinal (d : datetime) :
  valid_date d = true -> toordinal (mkdate 1000 1 1) <= toordinal d ->
  1000 <= year d.
Proof.
  intros V H. change (toordinal (mkdate 1000 1 1)) with 364878 in H.
  pose proof V as V'.
  unfold valid_date, MINYEAR, MAXYEAR in V'.
  rewrite !andb_true_iff, !Z.leb_le in V'.
  destruct V' as [[[[[Y1 Y2] M1] M2] D1] D2].
  destruct (Z.le_gt_cases 1000 (year d)) as [|Hlt]; [assumption|].
  exfalso. unfold toordinal, ymd2ord in H.
  pose proof (@day_of_year_bound (year d) (month d) (day d)
                                 (conj M1 M2) (conj D1 D2)) as B.
  pose proof (@days_before_year_succ (year d) Y1) as S.
  pose proof (@days_before_year_mono (year d + 1) 1000 ltac:(lia)) as U.
  change (days_before_year 1000) with 364877 in U.
  lia.
Qed.

Import HistorySummarizer.

Lemma sequence_map_some {A B} (f : A -> option B) (g : A -> B) (l : list A) :
  (forall x, In x l -> f x = Some (g x)) ->
  sequence (map f l) = Some (map g l).
Proof.
  induction l as [|x l IH]; intros H; simpl; auto.
  rewrite (H x (or_introl eq_refl)), IH; auto.
  intros y Hy. apply H. now right.
Qed.

Lemma in_range (lo hi i : Z) : In i (range lo hi) <-> lo <= i < hi.
Proof.
  unfold range. rewrite in_map_iff. split.
  - intros [k [<- Hk]]. apply in_seq in Hk. lia.
  - intros H. exists (Z.to_nat (i - lo)). split; [lia|]. apply in_seq. lia.
Qed.

Lemma nth_error_range (lo hi k : Z) :
  0 <= k < hi - lo -> nth_error (range lo hi) (Z.to_nat k) = Some (lo + k).
Proof.
  intros H. unfold range.
  rewrite nth_error_map, nth_error_seq.
  replace (Z.to_nat k <? Z.to_nat (hi - lo))%nat with true
    by (symmetry; apply Nat.ltb_lt; lia).
  cbn. f_equal. lia.
Qed.

(** C7.  For a current date that parses and a number of days that is
    at least one (and does not reach back before the first day of the
    calendar), the window is a list of exactly [days] date strings; the
    entry at position [k] is the formatted calendar date [k + 1] days
    before the current date, so the entries are the [days] dates
    strictly before the current date, each one day earlier than the
    one before it.  From the year 1000 on an entry reads back as that
    date, and the current date is not among the entries. *)
Theorem get_date_range_is_trailing_window
        (current_date : str) (today : datetime) (days : Z) :
  strptime current_date = Some today ->
  1 <= days < toordinal today ->
  exists window,
    _get_date_range current_date days true = Some window
    /\ length window = Z.to_nat days
    /\ (forall k, 0 <= k < days ->
          exists d,
            nth_error window (Z.to_nat k) = Some (strftime d)
            /\ valid_date d = true
            /\ toordinal d = toordinal today - (k + 1)
            /\ (1000 <= year d -> strptime (strftime d) = Some d))
    /\ (toordinal (mkdate 1000 1 1) + days <= toordinal today ->
        ~ In (strftime today) window).
Proof.
  intros Hp Hd.
  assert (V : valid_date today = true).
  { unfold strptime in Hp.
    repeat match type of Hp with
           | (if ?x then _ else _) = _ => destruct x eqn:?; try discriminate
           | match ?x with _ => _ end = _ => destruct x; try discriminate
           end.
    inversion Hp; subst. assumption. }
  pose proof (@toordinal_range today V) as R.
  set (g := fun i => strftime (ord2ymd (toordinal today - i))).
  assert (W : _get_date_range current_date days true
              = Some (map g (range 1 (days + 1)))).
  { unfold _get_date_range. rewrite Hp. apply sequence_map_some.
    intros i Hi. apply in_range in Hi. unfold sub_days.
    replace ((1 <=? toordinal today - i) && (toordinal today - i <=? MAXORDINAL))
      with true; [reflexivity|].
    symmetry. apply andb_true_iff. split; apply Z.leb_le; lia. }
  assert (K : forall i, 1 <= i <= days ->
                valid_date (ord2ymd (toordinal today - i)) = true
                /\ toordinal (ord2ymd (toordinal today - i))
                   = toordinal today - i).
  { intros i Hi. split.
    - apply valid_ord2ymd. lia.
    - apply toordinal_ord2ymd. lia. }
  exists (map g (range 1 (days + 1))). split; [exact W|]. split; [|split].
  - unfold range. rewrite !length_map, length_seq. f_equal. lia.
  - intros k Hk. exists (ord2ymd (toordinal today - (1 + k))).
    destruct (K (1 + k) ltac:(lia)) as [K1 K2]. split; [|split; [|split]].
    + rewrite nth_error_map, nth_error_range by lia. reflexivity.
    + exact K1.
    + rewrite K2. lia.
    + intros Hy. now apply strptime_strftime.
  - intros Hlate Hin. apply in_map_iff in Hin. destruct Hin as [i [Hg Hi]].
    apply in_range in Hi. destruct (K i ltac:(lia)) as [K1 K2].
    assert (Y1 : 1000 <= year (ord2ymd (toordinal today - i)))
      by (apply year_from_ordinal; [exact K1 | lia]).
    assert (Y2 : 1000 <= year today)
      by (apply year_from_ordinal; [exact V | lia]).
    pose proof (@strptime_strftime _ K1 Y1) as P1.
    fold (g i) in P1. rewrite Hg, (@strptime_strftime today V Y2) in P1.
    inversion P1 as [E]. rewrite <- E in K2. lia.
Qed.

Lemma get_date_range_is_trailing_window_witness :
  exists window,
    _get_date_range (u "2026-01-03") 7 true = Some window
    /\ length window = Z.to_nat 7
    /\ (forall k, 0 <= k < 7 ->
          exists d,
            nth_error window (Z.to_nat k) = Some (strftime d)
            /\ valid_date d = true
            /\ toordinal d = toordinal (mkdate 2026 1 3) - (k + 1)
            /\ (1000 <= year d -> strptime (strftime d) = Some d))
    /\ (toordinal (mkdate 1000 1 1) + 7 <= toordinal (mkdate 2026 1 3) ->
        ~ In (strftime (mkdate 2026 1 3)) window).
Proof.
  apply (@get_date_range_is_trailing_window
           (u "2026-01-03") (mkdate 2026 1 3) 7).
  - vm_compute. reflexivity.
  - split; [lia | vm_compute; reflexivity].
Defined.

(** At the start of the calendar the years are written as the C library
    writes them, and before its first day there is no window. *)
Example get_date_range_first_days :
  _get_date_range (u "0001-01-03") 2 true = Some [u "1-01-02"; u "1-01-01"]
  /\ _get_date_range (u "0001-01-03") 3 true = None.
Proof. vm_compute. split; reflexivity. Qed.

Example get_date_range_across_new_year :
  _get_date_range (u "2026-01-02") 3 true
  = Some [u "2026-01-01"; u "2025-12-31"; u "2025-12-30"].
Proof. vm_compute. reflexivity. Qed.

End Calendar.

(** ** The history digest *)

Section Digest.

Import TopicStorage HistorySummarizer.
Local Open Scope Z_scope.

Lemma total_len_app (a b : list str) :
  total_len (a ++ b) = total_len a + total_len b.
Proof. induction a as [|x a IH]; simpl; lia. Qed.

Lemma len_app (a b : str) : len (a ++ b) = len a + len b.
Proof. unfold len. rewrite length_app. lia. Qed.

Lemma len_join_newline (l : list str) :
  l <> [] -> len (join [NL] l) = total_len l + Z.of_nat (length l) - 1.
Proof.
  induction l as [|x l IH]; [congruence|]. intros _.
  destruct l as [|y l].
  - simpl. lia.
  - change (join [NL] (x :: y :: l)) with (x ++ [NL] ++ join [NL] (y :: l)).
    rewrite !len_app, IH by discriminate.
    change (len [NL]) with 1. cbn [total_len fold_right length].
    fold (total_len l). lia.
Qed.

(** The loop: the subsections it keeps fit the budget together with
    what was already counted, and at most one notice follows them. *)
Lemma collect_budget (st : store) (dates : list str) (max_chars : Z)
      (entries : store) (total_chars : Z) :
  exists parts tail,
    collect st dates max_chars entries total_chars = parts ++ tail
    /\ (tail = [] \/ tail = [TRUNCATION_NOTICE])
    /\ total_chars + total_len parts <= Z.max total_chars max_chars
    /\ (length parts <= length entries)%nat.
Proof.
  revert total_chars; induction entries as [|[topic_id nd] rest IH];
    intros total_chars.
  - exists [], []. simpl. repeat split; auto; lia.
  - cbn [collect]. destruct nd as [content|files].
    + destruct (IH total_chars) as (parts & tail & E & T & B & L).
      exists parts, tail. cbn [length]. repeat split; auto.
    + destruct (_summarize_topic_history st topic_id dates)
        as [[topic_name content]|].
      * destruct (Z.gtb_spec (total_chars
                              + len (summary_text topic_name content))
                             max_chars) as [G|G].
        -- exists [], [TRUNCATION_NOTICE]. cbn [app total_len fold_right length].
           repeat split; auto; lia.
        -- destruct (IH (total_chars + len (summary_text topic_name content)))
             as (parts & tail & E & T & B & L).
           exists (summary_text topic_name content :: parts), tail.
           rewrite E. cbn [app total_len fold_right length].
           fold (total_len parts).
           assert (0 <= len (summary_text topic_name content))
             by (unfold len; lia).
           repeat split; auto; lia.
      * destruct (IH total_chars) as (parts & tail & E & T & B & L).
        exists parts, tail. cbn [length]. repeat split; auto.
Qed.

(** C3, as the code has it.  When the call returns (the current date
    parses and the window stays inside the calendar), the digest is
    empty or consists of the two-line header followed by the kept topic
    subsections and at most one truncation notice, joined by single
    line feeds.  The budget [int(max_tokens * 1.5)] bounds the total
    length of the kept subsections only; the digest as a whole is
    longer by at most the header, one line feed per kept subsection
    and one truncation notice. *)
Theorem digest_length_budget
        (root : option store) (days : Z) (current_date : str) (max_tokens : Z)
        (dates : list str) :
  _get_date_range current_date days true = Some dates ->
  exists digest parts,
    get_recent_summaries root days current_date max_tokens = Some digest
    /\ total_len parts <= Z.max 0 (max_chars_of max_tokens)
    /\ (length parts <= length (get root []))%nat
    /\ (digest = []
        \/ digest = header dates ++ join [NL] parts
        \/ digest = header dates ++ join [NL] (parts ++ [TRUNCATION_NOTICE]))
    /\ len digest
       <= Z.max 0 (max_chars_of max_tokens) + len (header dates)
          + Z.of_nat (length parts) + len TRUNCATION_NOTICE.
Proof.
  intros Hd. unfold get_recent_summaries. rewrite Hd.
  assert (Hn : 0 <= len TRUNCATION_NOTICE) by (unfold len; lia).
  assert (Hh : 0 <= len (header dates)) by (unfold len; lia).
  destruct dates as [|d0 dates'].
  { exists [], []. cbn. repeat split; auto; lia. }
  set (dates := d0 :: dates') in *.
  destruct root as [st|].
  2:{ exists [], []. cbn [total_len fold_right length get].
      change (len []) with 0. repeat split; auto; lia. }
  cbn [get].
  destruct (collect_budget st dates (max_chars_of max_tokens) st 0)
    as (parts & tail & E & T & B & L).
  rewrite E. exists
    (match parts ++ tail with [] => [] | _ => header dates ++ join [NL] (parts ++ tail) end),
    parts.
  assert (Hj : parts ++ tail <> [] ->
               len (join [NL] (parts ++ tail))
               <= total_len parts + Z.of_nat (length parts)
                  + len TRUNCATION_NOTICE).
  { intros Hne. rewrite len_join_newline by assumption.
    rewrite total_len_app, length_app.
    destruct T as [-> | ->]; cbn [total_len fold_right length]; lia. }
  split; [destruct (parts ++ tail); reflexivity|].
  split; [lia|]. split; [assumption|]. split.
  - destruct (parts ++ tail) eqn:Ep; [now left|]. rewrite <- Ep.
    destruct T as [-> | ->]; [rewrite app_nil_r; right; now left
                             | right; now right].
  - destruct (parts ++ tail) eqn:Ep.
    + change (len []) with 0. lia.
    + rewrite <- Ep in *. rewrite len_app.
      specialize (Hj ltac:(rewrite Ep; discriminate)). lia.
Qed.

Lemma digest_length_budget_witness :
  exists digest parts,
    HistorySummarizer.get_recent_summaries
      (Some demo_archive) 7 (u "2026-01-20") 3000 = Some digest
    /\ total_len parts <= Z.max 0 (HistorySummarizer.max_chars_of 3000)
    /\ (length parts <= length (get (Some demo_archive) []))%nat
    /\ (digest = []
        \/ digest
           = HistorySummarizer.header
               demo_week
             ++ join [NL] parts
        \/ digest
           = HistorySummarizer.header
               demo_week
             ++ join [NL] (parts ++ [HistorySummarizer.TRUNCATION_NOTICE]))
    /\ TopicStorage.len digest
       <= Z.max 0 (HistorySummarizer.max_chars_of 3000)
          + TopicStorage.len
              (HistorySummarizer.header
                 demo_week)
          + Z.of_nat (length parts)
          + TopicStorage.len HistorySummarizer.TRUNCATION_NOTICE.
Proof.
  apply (@digest_length_budget (Some demo_archive) 7 (u "2026-01-20") 3000).
  vm_compute. reflexivity.
Defined.

(** C3 as the specification words it fails on the code: with a budget
    of 10 tokens the one topic is cut and the digest, header plus
    notice, has 69 characters against the claimed bound of 15 + 20;
    with a budget of 30 tokens nothing is cut and the digest has 90
    characters against the claimed 45 + 20. *)
Lemma digest_exceeds_claimed_bound :
  (exists digest,
      HistorySummarizer.get_recent_summaries
        (Some demo_archive) 7 (u "2026-01-20") 10 = Some digest
      /\ 3 * 10 + 2 * TopicStorage.len HistorySummarizer.TRUNCATION_NOTICE
         < 2 * TopicStorage.len digest)
  /\ (exists digest,
        HistorySummarizer.get_recent_summaries
          (Some demo_archive) 7 (u "2026-01-20") 30 = Some digest
        /\ 3 * 30 + 2 * TopicStorage.len HistorySummarizer.TRUNCATION_NOTICE
           < 2 * TopicStorage.len digest).
Proof.
  split; eexists; (split; [vm_compute; reflexivity | vm_compute; reflexivity]).
Qed.

(** The scenario of the specification: only the record of 19 January
    qualifies, and the digest has exactly one date line. *)
Example digest_single_day :
  HistorySummarizer.get_recent_summaries
    (Some demo_archive) 7 (u "2026-01-20") 3000
  = Some (HistorySummarizer.header
            demo_week
          ++ u "### AI科技" ++ [NL; NL]
          ++ u "**2026-01-19**: 1条 (热榜1, RSS0)" ++ [NL]).
Proof. vm_compute. reflexivity. Qed.

End Digest.

(** ** Replacing lines of a record *)

Section Splicing.

Import TopicStorage.

Lemma startswith_length (p s : str) :
  startswith p s = true -> (length p <= length s)%nat.
Proof.
  intros H. apply startswith_app in H. destruct H as [r ->].
  rewrite length_app. lia.
Qed.

(** A pattern without the character [x] cannot match across an [x]. *)
Lemma startswith_before (x : char) (old a b : str) :
  ~ In x old -> old <> [] ->
  startswith old (a ++ x :: b) = startswith old a.
Proof.
  intros Hx Hne. revert a; induction old as [|o old IH]; [congruence|].
  intros a. destruct a as [|c a]; cbn [app startswith].
  - replace (o =? x)%N with false; [reflexivity|].
    symmetry. apply N.eqb_neq. intros ->. apply Hx. now left.
  - destruct old as [|o' old].
    + reflexivity.
    + rewrite IH; auto; [|discriminate].
      intros Hin. apply Hx. now right.
Qed.

Lemma replace_scan_skip_all (old new s : str) (k : nat) :
  (length s <= k)%nat -> replace_scan old new s k = [].
Proof.
  revert k; induction s as [|c s IH]; intros k Hk; cbn [replace_scan]; auto.
  destruct k as [|k]; [cbn in Hk; lia|]. apply IH. cbn in Hk. lia.
Qed.

(** Replacement works on the two sides of such an [x] independently. *)
Lemma replace_scan_split (x : char) (old new a b : str) (k : nat) :
  ~ In x old -> old <> [] -> (k <= length a)%nat ->
  replace_scan old new (a ++ x :: b) k
  = replace_scan old new a k ++ x :: replace_scan old new b 0.
Proof.
  intros Hx Hne. revert k; induction a as [|c a IH]; intros k Hk.
  - assert (k = 0)%nat by (cbn in Hk; lia). subst k.
    cbn [app replace_scan].
    pose proof (@startswith_before x old [] b Hx Hne) as E.
    cbn [app] in E. rewrite E.
    destruct old; [congruence | reflexivity].
  - cbn [app replace_scan]. destruct k as [|k].
    + change (c :: a ++ x :: b) with ((c :: a) ++ x :: b).
      rewrite startswith_before by assumption.
      destruct (startswith old (c :: a)) eqn:E.
      * apply startswith_length in E. cbn [length] in E.
        rewrite IH by lia. now rewrite app_assoc.
      * rewrite IH by lia. reflexivity.
    + apply IH. cbn in Hk. lia.
Qed.

Lemma replace_scan_absent (old new s : str) :
  contains old s = false -> replace_scan old new s 0 = s.
Proof.
  induction s as [|c s IH]; cbn [contains replace_scan]; auto.
  intros H. apply orb_false_iff in H. destruct H as [H1 H2].
  rewrite H1, IH; auto.
Qed.

Lemma replace_scan_whole (x : char) (old new b : str) :
  ~ In x old -> old <> [] ->
  replace_scan old new (old ++ x :: b) 0 = new ++ x :: replace_scan old new b 0.
Proof.
  intros Hx Hne. rewrite replace_scan_split by (auto; lia). f_equal.
  destruct old as [|o old]; [congruence|].
  cbn [replace_scan].
  replace (startswith (o :: old) (o :: old)) with true
    by (symmetry; apply startswith_app; exists []; now rewrite app_nil_r).
  rewrite replace_scan_skip_all by (cbn; lia). apply app_nil_r.
Qed.

Lemma contains_infix (sub a b : str) : contains sub (a ++ sub ++ b) = true.
Proof.
  induction a as [|c a IH].
  - cbn [app]. destruct (sub ++ b) eqn:E; cbn [contains];
      replace (startswith sub _) with true; auto;
      symmetry; apply startswith_app; exists b; auto.
  - cbn [app contains]. rewrite IH. apply orb_true_r.
Qed.

Lemma join_app (sep : str) (l1 l2 : list str) :
  l1 <> [] -> l2 <> [] ->
  join sep (l1 ++ l2) = join sep l1 ++ sep ++ join sep l2.
Proof.
  intros H1 H2. induction l1 as [|x l1 IH]; [congruence|].
  destruct l1 as [|y l1].
  - cbn [app]. destruct l2; [congruence|]. reflexivity.
  - change (join sep ((x :: y :: l1) ++ l2))
      with (x ++ sep ++ join sep ((y :: l1) ++ l2)).
    rewrite IH by discriminate.
    change (join sep (x :: y :: l1)) with (x ++ sep ++ join sep (y :: l1)).
    now rewrite <- !app_assoc.
Qed.

Lemma generate_markdown_shape (date topic_name : str) (items : list item) :
  exists head,
    _generate_markdown date topic_name items
    = head ++ NL :: RECORD_TAIL_BEFORE_NOTES
           ++ NL :: NOTES_PLACEHOLDER
           ++ NL :: RECORD_TAIL_BETWEEN
           ++ NL :: IMPORTANCE_BOXES ++ [NL].
Proof.
  unfold _generate_markdown. cbv zeta.
  match goal with
  | |- exists _, join _ (?a ++ ?s1 ++ ?s2 ++ ?t) = _ =>
    exists (join [NL] (a ++ s1 ++ s2));
      replace (a ++ s1 ++ s2 ++ t) with ((a ++ s1 ++ s2) ++ t)
      by (now rewrite <- !app_assoc);
      rewrite join_app by (try discriminate; cbn; discriminate)
  end.
  cbn [app]. f_equal.
Qed.

Lemma newline_not_in_placeholder : ~ In NL NOTES_PLACEHOLDER.
Proof. vm_compute. intuition discriminate. Qed.

Lemma newline_not_in_boxes : ~ In NL IMPORTANCE_BOXES.
Proof. vm_compute. intuition discriminate. Qed.

Lemma replace_nonempty (old new s : str) :
  old <> [] -> replace old new s = replace_scan old new s 0.
Proof. destruct old; [congruence | reflexivity]. Qed.

Lemma contains_nil (s : str) : contains [] s = true.
Proof. destruct s; reflexivity. Qed.

(** A replacement keeps a line [keep] that does not contain the
    pattern, and puts [new] in the place of a line that is the pattern. *)
Lemma replace_keeps_line (old new a keep b : str) :
  ~ In NL old -> old <> [] -> contains old keep = false ->
  replace old new (a ++ NL :: keep ++ NL :: b)
  = replace old new a ++ NL :: keep ++ NL :: replace old new b.
Proof.
  intros HN H0 Hk. rewrite !replace_nonempty by assumption.
  rewrite (@replace_scan_split NL old new a _ 0 HN H0) by lia.
  rewrite (@replace_scan_split NL old new keep _ 0 HN H0) by lia.
  now rewrite (@replace_scan_absent old new keep Hk).
Qed.

Lemma replace_fills_line (old new a b : str) :
  ~ In NL old -> old <> [] ->
  replace old new (a ++ NL :: old ++ NL :: b)
  = replace old new a ++ NL :: new ++ NL :: replace old new b.
Proof.
  intros HN H0. rewrite !replace_nonempty by assumption.
  rewrite (@replace_scan_split NL old new a _ 0 HN H0) by lia.
  now rewrite (@replace_scan_whole NL old new _ HN H0).
Qed.

Lemma replace_nil (old new : str) : old <> [] -> replace old new [] = [].
Proof. destruct old; [congruence | reflexivity]. Qed.

Lemma replace_fills_first (old new b : str) :
  ~ In NL old -> old <> [] ->
  replace old new (old ++ NL :: b) = new ++ NL :: replace old new b.
Proof.
  intros HN H0. rewrite !replace_nonempty by assumption.
  apply replace_scan_whole; assumption.
Qed.

Lemma replace_absent (old new s : str) :
  old <> [] -> contains old s = false -> replace old new s = s.
Proof.
  intros H0 H. rewrite replace_nonempty by assumption.
  now apply replace_scan_absent.
Qed.

Lemma contains_iff (sub s : str) :
  contains sub s = true <-> exists a b, s = a ++ sub ++ b.
Proof.
  split.
  - induction s as [|c s IH]; cbn [contains]; rewrite orb_true_iff.
    + intros [H | H]; [|discriminate].
      apply startswith_app in H. destruct H as [r H]. now exists [], r.
    + intros [H | H].
      * apply startswith_app in H. destruct H as [r H]. now exists [], r.
      * destruct (IH H) as [a [b ->]]. now exists (c :: a), b.
  - intros [a [b ->]]. apply contains_infix.
Qed.

Lemma contains_inside (sub x mid y : str) :
  contains sub mid = true -> contains sub (x ++ mid ++ y) = true.
Proof.
  intros H. apply contains_iff in H. destruct H as [a [b ->]].
  apply contains_iff. exists (x ++ a), (b ++ y).
  now rewrite <- !app_assoc.
Qed.

(** The two replacements of [_append_to_existing] on a text in which
    the first pattern [p] and the second pattern [b] each stand on a
    line of their own, [b] on the last one. *)
Lemma splice_keeps_both (p b head t1 t2 notes importance : str) :
  ~ In NL p -> p <> [] -> ~ In NL b -> b <> [] ->
  contains p t1 = false ->
  contains p (t2 ++ NL :: b ++ [NL]) = false ->
  contains b p = false ->
  contains b notes = false ->
  let out :=
    spliced_importance b importance
      (spliced_notes p notes
         (head ++ NL :: t1 ++ NL :: p ++ NL :: t2 ++ NL :: b ++ [NL])) in
  contains notes out = true /\ contains importance out = true.
Proof.
  intros PN P0 BN B0 Pt1 Pt2 Bp Bn out. subst out.
  set (fresh := head ++ NL :: t1 ++ NL :: p ++ NL :: t2 ++ NL :: b ++ [NL]).
  assert (S1 : exists a filled,
             spliced_notes p notes fresh
             = a ++ NL :: filled ++ NL :: t2 ++ NL :: b ++ NL :: []
             /\ contains b filled = false
             /\ contains notes filled = true).
  { subst fresh. unfold spliced_notes. destruct notes as [|c notes'] eqn:En.
    - exists (head ++ NL :: t1), p. rewrite <- app_assoc.
      split; [reflexivity|]. split; [assumption | apply contains_nil].
    - rewrite <- En in *. exists (replace p notes head ++ NL :: t1), notes.
      rewrite (@replace_keeps_line p notes head t1 _ PN P0 Pt1).
      rewrite (@replace_fills_first p notes _ PN P0).
      rewrite (@replace_absent p notes _ P0 Pt2).
      rewrite <- app_assoc. split; [reflexivity|]. split; [assumption|].
      apply contains_iff. exists [], []. now rewrite app_nil_r. }
  destruct S1 as (a & filled & E & Bf & Nf). rewrite E.
  unfold spliced_importance.
  destruct importance as [|c imp'] eqn:Ei.
  - split; [|apply contains_nil].
    change (a ++ NL :: filled ++ NL :: t2 ++ NL :: b ++ [NL])
      with (a ++ [NL] ++ filled ++ (NL :: t2 ++ NL :: b ++ [NL])).
    rewrite app_assoc. now apply contains_inside.
  - rewrite <- Ei in *.
    rewrite (@replace_keeps_line b importance a filled _ BN B0 Bf).
    rewrite (@replace_fills_line b importance t2 [] BN B0).
    rewrite (@replace_nil b importance B0).
    split.
    + change (replace b importance a ++ NL :: filled
                ++ NL :: replace b importance t2 ++ NL :: importance ++ [NL])
        with (replace b importance a ++ [NL] ++ filled
                ++ (NL :: replace b importance t2 ++ NL :: importance ++ [NL])).
      rewrite app_assoc. now apply contains_inside.
    + apply contains_iff.
      exists (replace b importance a ++ NL :: filled
              ++ NL :: replace b importance t2 ++ [NL]), [NL].
      repeat (rewrite <- app_assoc; cbn [app]). reflexivity.
Qed.

Lemma regenerate_splices (topic_id date existing_content : str)
      (new_items : list item) :
  regenerate topic_id date existing_content new_items
  = spliced_importance IMPORTANCE_BOXES (extract_importance existing_content)
      (spliced_notes NOTES_PLACEHOLDER (extract_human_notes existing_content)
         (_generate_markdown date
            (recover_topic_name topic_id existing_content) new_items)).
Proof. reflexivity. Qed.

(** The human regions of the old record survive the rewrite, unless
    the notes contain the check-box line of the template. *)
Lemma regenerate_keeps_human_regions (topic_id date existing_content : str)
      (new_items : list item) :
  contains IMPORTANCE_BOXES (extract_human_notes existing_content) = false ->
  contains (extract_human_notes existing_content)
           (regenerate topic_id date existing_content new_items) = true
  /\ contains (extract_importance existing_content)
              (regenerate topic_id date existing_content new_items) = true.
Proof.
  intros Hn. rewrite regenerate_splices.
  destruct (generate_markdown_shape
              date (recover_topic_name topic_id existing_content) new_items)
    as [head ->].
  apply (@splice_keeps_both NOTES_PLACEHOLDER IMPORTANCE_BOXES head
           RECORD_TAIL_BEFORE_NOTES RECORD_TAIL_BETWEEN
           (extract_human_notes existing_content)
           (extract_importance existing_content)).
  - apply newline_not_in_placeholder.
  - discriminate.
  - apply newline_not_in_boxes.
  - discriminate.
  - vm_compute. reflexivity.
  - vm_compute. reflexivity.
  - vm_compute. reflexivity.
  - exact Hn.
Qed.

End Splicing.

(** ** Writing a record *)

Section Writing.

Import TopicStorage.

Lemma file_at_write_file (st st' : store) (topic_id date content : str) :
  write_file st topic_id date content = Some st' ->
  file_at st' topic_id date = Some content.
Proof.
  unfold write_file, file_at.
  destruct (lookup topic_id st) as [[c|files]|];
    intros H; inversion H; subst; clear H;
    rewrite lookup_upsert_same.
  - apply lookup_upsert_same.
  - cbn [lookup]. now rewrite str_eqb_refl.
Qed.

(** Saving in append mode over an existing record writes the text
    [regenerate] computes from the record as read. *)
Lemma save_over_existing (st : store) (date topic_id topic_name raw : str)
      (items : list item) :
  file_at st topic_id date = Some raw ->
  exists st',
    save_topic_classification st date topic_id topic_name items true = Some st'
    /\ file_at st' topic_id date
       = Some (regenerate topic_id date (universal_newlines raw) items).
Proof.
  intros Hf. unfold save_topic_classification, _append_to_existing.
  rewrite Hf. unfold file_at in Hf.
  destruct (lookup topic_id st) as [[c|files]|] eqn:El; try discriminate.
  unfold write_file. rewrite El. eexists. split; [reflexivity|].
  unfold file_at. rewrite lookup_upsert_same. apply lookup_upsert_same.
Qed.

(** Saving where no record exists writes the generated text. *)
Lemma save_fresh (st : store) (date topic_id topic_name : str)
      (items : list item) (append : bool) :
  lookup topic_id st = None ->
  exists st',
    save_topic_classification st date topic_id topic_name items append
    = Some st'
    /\ file_at st' topic_id date
       = Some (_generate_markdown date topic_name items).
Proof.
  intros Hl. unfold save_topic_classification, file_at. rewrite Hl.
  unfold write_file. rewrite Hl. eexists. split; [reflexivity|].
  unfold file_at. rewrite lookup_upsert_same. cbn [lookup].
  now rewrite str_eqb_refl.
Qed.

(** X20.  The human regions of an existing record are in the file
    after a save in append mode, whatever the new items, provided the
    notes do not contain the check-box line of the template. *)
Lemma save_keeps_human_regions (st : store)
      (date topic_id topic_name raw : str) (items : list item) :
  file_at st topic_id date = Some raw ->
  contains IMPORTANCE_BOXES
           (extract_human_notes (universal_newlines raw)) = false ->
  exists st' out,
    save_topic_classification st date topic_id topic_name items true = Some st'
    /\ file_at st' topic_id date = Some out
    /\ contains (extract_human_notes (universal_newlines raw)) out = true
    /\ contains (extract_importance (universal_newlines raw)) out = true.
Proof.
  intros Hf Hn.
  destruct (@save_over_existing st date topic_id topic_name raw items Hf)
    as [st' [Hs Ho]].
  exists st', (regenerate topic_id date (universal_newlines raw) items).
  split; [exact Hs|]. split; [exact Ho|].
  now apply regenerate_keeps_human_regions.
Qed.

End Writing.

(** ** The archive store: saving over an existing record *)

Section SaveTwice.

Import TopicStorage.
Local Open Scope Z_scope.

(** C1 at a concrete input.  Saving the item of the end-to-end
    scenario into an empty archive and saving the same list again, in
    append mode, leaves a different file: the second output is the
    first with the hint comment of the importance section written a
    second time in front of the check-box line.  Every further save
    adds one more copy. *)
Theorem save_twice_duplicates_importance_hint :
  exists st1 st2 st3 out1 out2 out3,
    save_topic_classification [] (u "2026-01-20") (u "ai-tech") (u "AI科技")
                              [demo_item] true = Some st1
    /\ file_at st1 (u "ai-tech") (u "2026-01-20") = Some out1
    /\ save_topic_classification st1 (u "2026-01-20") (u "ai-tech")
                                 (u "AI科技") [demo_item] true = Some st2
    /\ file_at st2 (u "ai-tech") (u "2026-01-20") = Some out2
    /\ save_topic_classification st2 (u "2026-01-20") (u "ai-tech")
                                 (u "AI科技") [demo_item] true = Some st3
    /\ file_at st3 (u "ai-tech") (u "2026-01-20") = Some out3
    /\ out2 <> out1
    /\ out2 = replace IMPORTANCE_BOXES
                      (IMPORTANCE_HINT ++ [NL; NL] ++ IMPORTANCE_BOXES) out1
    /\ len out2 = len out1 + len IMPORTANCE_HINT + 2
    /\ len out3 = len out2 + len IMPORTANCE_HINT + 2.
Proof.
  do 6 eexists.
  split; [vm_compute; reflexivity|].
  split; [vm_compute; reflexivity|].
  split; [vm_compute; reflexivity|].
  split; [vm_compute; reflexivity|].
  split; [vm_compute; reflexivity|].
  split; [vm_compute; reflexivity|].
  split.
  - intros E. apply (f_equal (@length char)) in E. vm_compute in E.
    discriminate E.
  - split; [vm_compute; reflexivity|].
    split; vm_compute; reflexivity.
Qed.

(** The same with an empty item list. *)
Example save_twice_empty_list :
  exists st1 st2 out1 out2,
    save_topic_classification [] (u "2026-01-20") (u "ai-tech") (u "AI")
                              [] true = Some st1
    /\ file_at st1 (u "ai-tech") (u "2026-01-20") = Some out1
    /\ save_topic_classification st1 (u "2026-01-20") (u "ai-tech")
                                 (u "AI") [] true = Some st2
    /\ file_at st2 (u "ai-tech") (u "2026-01-20") = Some out2
    /\ len out2 = len out1 + len IMPORTANCE_HINT + 2.
Proof.
  do 4 eexists. repeat (split; [vm_compute; reflexivity|]).
  vm_compute. reflexivity.
Qed.

(** C2 at a concrete input.  The notes of the old record are not in
    the new file: the second replacement, which puts the importance
    text in place of the check-box line, also rewrites the copy of
    that line inside the notes just spliced in.  The importance text
    is kept, and the derived sections are those of the new list. *)
Theorem append_rewrites_notes_quoting_the_boxes :
  exists st out,
    extract_human_notes annotated_record
    = u "重要度: ☐ 1星 ☐ 2星 ☐ 3星 ☐ 4星 ☐ 5星 is too coarse a scale"
    /\ extract_importance annotated_record = u "重要度: ☑ 5星"
    /\ save_topic_classification annotated_archive (u "2026-01-20")
         (u "ai-tech") (u "AI科技") [demo_item] true = Some st
    /\ file_at st (u "ai-tech") (u "2026-01-20") = Some out
    /\ contains (extract_human_notes annotated_record) out = false
    /\ contains (u "重要度: ☑ 5星 is too coarse a scale") out = true
    /\ contains (extract_importance annotated_record) out = true
    /\ contains (u "- **总条目**: 1 条") out = true.
Proof.
  do 2 eexists. repeat (split; [vm_compute; reflexivity|]).
  vm_compute. reflexivity.
Qed.

(** With ordinary notes both human regions are carried over. *)
Example append_keeps_ordinary_notes :
  extract_human_notes noted_record
  = u "Watch the follow-up release next week."
  /\ extract_importance noted_record = u "重要度: ☑ 4星"
  /\ contains (u "Watch the follow-up release next week.")
              (regenerate (u "ai-tech") (u "2026-01-20") noted_record
                          [demo_item]) = true
  /\ contains (u "重要度: ☑ 4星")
              (regenerate (u "ai-tech") (u "2026-01-20") noted_record
                          [demo_item]) = true.
Proof. vm_compute. repeat split. Qed.

End SaveTwice.

(* ===================================================================== *)
(** * Further properties                                                  *)
(* ===================================================================== *)

(** ** Association lists and buckets *)

Lemma lookup_in {A} (k : str) (l : list (str * A)) (v : A) :
  lookup k l = Some v -> In (k, v) l.
Proof.
  induction l as [|[k' v'] l IH]; cbn [lookup]; [discriminate|].
  destruct (str_eqb k k') eqn:E.
  - apply str_eqb_eq in E. subst. intros H; inversion H. now left.
  - intros H. right. auto.
Qed.

Lemma in_lookup {A} (k : str) (l : list (str * A)) (v : A) :
  NoDup (map fst l) -> In (k, v) l -> lookup k l = Some v.
Proof.
  induction l as [|[k' v'] l IH]; cbn [lookup map fst]; [intros _ []|].
  intros Hnd Hin. inversion Hnd as [|? ? Hnot Hnd']; subst.
  destruct Hin as [H | H].
  - inversion H; subst. now rewrite str_eqb_refl.
  - destruct (str_eqb k k') eqn:E; [|auto].
    apply str_eqb_eq in E. subst k'. exfalso. apply Hnot.
    apply in_map_iff. now exists (k, v).
Qed.

Lemma lookup_in_keys {A} (k : str) (l : list (str * A)) (v : A) :
  lookup k l = Some v -> In k (map fst l).
Proof.
  intros H. apply lookup_in in H. apply in_map_iff. now exists (k, v).
Qed.

Lemma lookup_none_keys {A} (k : str) (l : list (str * A)) :
  lookup k l = None <-> ~ In k (map fst l).
Proof.
  induction l as [|[k' v'] l IH]; cbn [lookup map fst In]; [tauto|].
  destruct (str_eqb k k') eqn:E.
  - apply str_eqb_eq in E. subst. split; [discriminate | tauto].
  - apply str_eqb_neq in E. rewrite IH. split.
    + intros H [H' | H']; [congruence | tauto].
    + tauto.
Qed.

Lemma lookup_some_keys {A} (k : str) (l : list (str * A)) :
  In k (map fst l) <-> exists v, lookup k l = Some v.
Proof.
  pose proof (lookup_none_keys k l) as H.
  destruct (lookup k l) as [v|]; split.
  - intros _. now exists v.
  - intros _. destruct (in_dec (list_eq_dec N.eq_dec) k (map fst l)) as [i|n];
      [assumption|]. apply H in n. discriminate.
  - intros Hin. exfalso. now apply (proj1 H).
  - intros [v Hv]. discriminate.
Qed.

Lemma upsert_keys {A} (k : str) (v : A) (l : list (str * A)) :
  map fst (upsert k v l)
  = match lookup k l with
    | Some _ => map fst l
    | None => map fst l ++ [k]
    end.
Proof.
  induction l as [|[k' v'] l IH]; cbn [upsert lookup map fst app];
    [reflexivity|].
  destruct (str_eqb k k') eqn:E.
  - apply str_eqb_eq in E. now subst.
  - cbn [map fst]. rewrite IH. destruct (lookup k l); reflexivity.
Qed.

Lemma upsert_forall {A} (P : str * A -> Prop) (k : str) (v : A)
      (l : list (str * A)) :
  Forall P l -> P (k, v) -> Forall P (upsert k v l).
Proof.
  intros Hl Hk. induction l as [|[k' v'] l IH]; cbn [upsert].
  - now constructor.
  - inversion Hl; subst. destruct (str_eqb k k'); constructor; auto.
Qed.

Lemma upsert_same {A} (k : str) (v : A) (l : list (str * A)) :
  lookup k l = Some v -> upsert k v l = l.
Proof.
  induction l as [|[k' v'] l IH]; cbn [lookup upsert]; [discriminate|].
  destruct (str_eqb k k') eqn:E.
  - apply str_eqb_eq in E. subst. intros H; now inversion H.
  - intros H. now rewrite IH.
Qed.

Lemma fold_left_fixed {A B} (f : A -> B -> A) (l : list B) (x : A) :
  (forall y, In y l -> f x y = x) -> fold_left f l x = x.
Proof.
  induction l as [|y l IH]; intros H; cbn [fold_left]; [reflexivity|].
  rewrite (H y) by now left. apply IH. intros z Hz. apply H. now right.
Qed.

Lemma flat_map_filter_if {A} (p : A -> bool) (y : A -> list A) (l : list A) :
  (forall t, y t = if p t then [t] else []) ->
  flat_map y l = filter p l.
Proof.
  intros H. induction l as [|t l IH]; cbn [flat_map filter]; [reflexivity|].
  rewrite H, IH. destruct (p t); reflexivity.
Qed.

(** In a mapping the key [k] selects one entry. *)
Lemma filter_key_unique {A} (p : A -> bool) (l : list (str * A)) (k : str)
      (v : A) :
  NoDup (map fst l) -> lookup k l = Some v ->
  filter (fun kv => str_eqb k (fst kv) && p (snd kv)) l
  = if p v then [(k, v)] else [].
Proof.
  induction l as [|[k' v'] l IH]; cbn [map fst lookup filter snd];
    [discriminate|].
  intros Hnd Hl. inversion Hnd as [|? ? Hnot Hnd']; subst.
  destruct (str_eqb k k') eqn:E.
  - apply str_eqb_eq in E. subst k'. inversion Hl; subst v'. cbn [andb].
    assert (R : filter (fun kv => str_eqb k (fst kv) && p (snd kv)) l = []).
    { apply filter_none. intros [k2 v2] Hin. cbn [fst snd].
      destruct (str_eqb k k2) eqn:E2; [|reflexivity].
      apply str_eqb_eq in E2. subst k2. exfalso. apply Hnot.
      apply in_map_iff. now exists (k, v2). }
    rewrite R. destruct (p v); reflexivity.
  - cbn [andb]. now apply IH.
Qed.

Lemma bucket_append_ok {A} (r : list (str * list A)) (k : str) (x : A) :
  buckets_ok r -> buckets_ok (TopicClassifier.bucket_append r k x).
Proof.
  intros [Hnd Hne]. unfold TopicClassifier.bucket_append.
  destruct (lookup k r) as [b|] eqn:E; split.
  - now rewrite upsert_keys, E.
  - apply upsert_forall; auto. cbn. destruct b; discriminate.
  - rewrite upsert_keys, E. apply NoDup_app; auto.
    + constructor; [intros []|constructor].
    + intros y Hy [<- | []]. now apply lookup_none_keys in E.
  - apply upsert_forall; auto. cbn. discriminate.
Qed.

Lemma buckets_ok_nil {A} : buckets_ok (@nil (str * list A)).
Proof. split; constructor. Qed.

Lemma not_in_existsb (c : char) (l : str) :
  existsb (N.eqb c) l = false -> ~ In c l.
Proof.
  intros H Hin. assert (E : existsb (N.eqb c) l = true).
  { apply existsb_exists. exists c. split; [assumption | apply N.eqb_refl]. }
  congruence.
Qed.

(** ** Link lines *)

Section LinkLines.

Import TopicRouter.

Lemma non_space_run_no_space (s : str) : no_space (non_space_run s) = true.
Proof.
  induction s as [|c s IH]; cbn [non_space_run]; auto.
  destruct (isspace c) eqn:E; auto.
  unfold no_space in *. cbn [forallb]. now rewrite E, IH.
Qed.

Lemma non_space_run_prefix (s : str) : startswith (non_space_run s) s = true.
Proof.
  induction s as [|c s IH]; cbn [non_space_run]; auto.
  destruct (isspace c); auto. cbn. now rewrite N.eqb_refl, IH.
Qed.

(** The run ends at a whitespace character. *)
Lemma non_space_run_stop (a b : str) (w : char) :
  isspace w = true -> non_space_run (a ++ w :: b) = non_space_run a.
Proof.
  intros Hw. induction a as [|c a IH]; cbn [app non_space_run].
  - now rewrite Hw.
  - destruct (isspace c); auto. now rewrite IH.
Qed.

Lemma non_space_run_all (a : str) :
  no_space a = true -> non_space_run a = a.
Proof.
  unfold no_space. induction a as [|c a IH]; cbn [forallb non_space_run]; auto.
  intros H. apply andb_true_iff in H. destruct H as [H1 H2].
  apply negb_true_iff in H1. now rewrite H1, IH.
Qed.

Lemma no_space_not_in (w : char) (s : str) :
  isspace w = true -> no_space s = true -> ~ In w s.
Proof.
  intros Hw Hs Hin. unfold no_space in Hs. rewrite forallb_forall in Hs.
  specialize (Hs w Hin). now rewrite Hw in Hs.
Qed.

Lemma no_space_app (a b : str) :
  no_space (a ++ b) = no_space a && no_space b.
Proof. apply forallb_app. Qed.

Lemma skipn_prefix (p r : str) : skipn (length p) (p ++ r) = r.
Proof. induction p; auto. Qed.

(** What [match_url] returns is a prefix of the text without whitespace
    and not empty. *)
Lemma match_url_some (s m : str) :
  match_url s = Some m ->
  no_space m = true /\ (exists r, s = m ++ r) /\ m <> [].
Proof.
  unfold match_url.
  assert (G : forall scheme,
             no_space scheme = true -> startswith scheme s = true ->
             match non_space_run (skipn (length scheme) s) with
             | [] => None
             | c :: l => Some (scheme ++ c :: l)
             end = Some m ->
             no_space m = true /\ (exists r, s = m ++ r) /\ m <> []).
  { intros scheme Hs Hp H. apply startswith_app in Hp. destruct Hp as [r ->].
    rewrite skipn_prefix in H.
    destruct (non_space_run r) as [|c body] eqn:E; [discriminate|].
    inversion H; subst m; clear H. rewrite <- E. split; [|split].
    - rewrite no_space_app, Hs. apply non_space_run_no_space.
    - pose proof (non_space_run_prefix r) as P.
      apply startswith_app in P. destruct P as [r' P].
      exists r'. rewrite <- app_assoc. now rewrite <- P.
    - rewrite E. destruct scheme; discriminate. }
  destruct (startswith (u "https://") s) eqn:E1.
  - apply G; auto.
  - destruct (startswith (u "http://") s) eqn:E2; [|discriminate].
    apply G; auto.
Qed.

(** [match_url] looks no further than the first whitespace. *)
Lemma match_url_stop (a b : str) (w : char) :
  isspace w = true -> match_url (a ++ w :: b) = match_url a.
Proof.
  intros Hw. unfold match_url.
  assert (S : forall scheme,
             no_space scheme = true -> scheme <> [] ->
             startswith scheme (a ++ w :: b) = startswith scheme a).
  { intros scheme Hs Hne. apply startswith_before; auto.
    now apply no_space_not_in. }
  assert (R : forall scheme,
             startswith scheme a = true ->
             non_space_run (skipn (length scheme) (a ++ w :: b))
             = non_space_run (skipn (length scheme) a)).
  { intros scheme Hp. apply startswith_app in Hp. destruct Hp as [r ->].
    rewrite <- app_assoc, !skipn_prefix. now apply non_space_run_stop. }
  rewrite !S by (auto; discriminate).
  destruct (startswith (u "https://") a) eqn:E1.
  - now rewrite R.
  - destruct (startswith (u "http://") a) eqn:E2; auto. now rewrite R.
Qed.

Lemma findall_urls_skip_all (s : str) (k : nat) :
  (length s <= k)%nat -> findall_urls s k = [].
Proof.
  revert k; induction s as [|c s IH]; intros k Hk; cbn [findall_urls]; auto.
  destruct k as [|k]; [cbn in Hk; lia|]. apply IH. cbn in Hk. lia.
Qed.

Lemma label_no_space : no_space LINK_LABEL = true.
Proof. vm_compute. reflexivity. Qed.

(** No match of the URL pattern extends across a whitespace character:
    the matches of a text are those before it followed by those after
    it. *)
Lemma findall_urls_split (a b : str) (w : char) (k : nat) :
  isspace w = true -> (k <= length a)%nat ->
  findall_urls (a ++ w :: b) k = findall_urls a k ++ findall_urls b 0.
Proof.
  intros Hw. revert k; induction a as [|c a IH]; intros k Hk.
  - assert (k = 0)%nat by (cbn in Hk; lia). subst k.
    cbn [app findall_urls].
    replace (startswith LINK_LABEL (w :: b)) with false; [reflexivity|].
    symmetry. pose proof (@startswith_before w LINK_LABEL [] b) as E.
    cbn [app] in E. rewrite E; [reflexivity | | discriminate].
    apply no_space_not_in; auto using label_no_space.
  - cbn [app findall_urls]. destruct k as [|k].
    + change (c :: a ++ w :: b) with ((c :: a) ++ w :: b).
      rewrite startswith_before;
        [| apply no_space_not_in; auto using label_no_space | discriminate].
      destruct (startswith LINK_LABEL (c :: a)) eqn:E.
      * apply startswith_app in E. destruct E as [r E]. rewrite E.
        rewrite <- app_assoc, !skipn_prefix, match_url_stop by assumption.
        destruct (match_url r) as [link|] eqn:M.
        -- apply match_url_some in M. destruct M as (_ & [r' ->] & _).
           assert (L : (length LINK_LABEL + length link - 1 <= length a)%nat).
           { apply (f_equal (@length char)) in E.
             rewrite !length_app in E. cbn [length] in E. lia. }
           rewrite IH by exact L. reflexivity.
        -- apply IH. lia.
      * apply IH. lia.
    + apply IH. cbn in Hk. lia.
Qed.

(** A link line is found. *)
Lemma findall_urls_link_line (pre link post : str) (w1 w2 : char) :
  isspace w1 = true -> isspace w2 = true -> http_link link = true ->
  In link (findall_urls (pre ++ w1 :: LINK_LABEL ++ link ++ w2 :: post) 0).
Proof.
  intros H1 H2 Hl.
  rewrite findall_urls_split by (auto; lia).
  apply in_or_app. right.
  rewrite app_assoc, findall_urls_split by (auto; lia).
  apply in_or_app. left.
  unfold http_link in Hl.
  destruct (match_url link) as [m|] eqn:M; [|discriminate].
  apply str_eqb_eq in Hl. subst m.
  destruct (LINK_LABEL ++ link) as [|c rest] eqn:E; [discriminate|].
  cbn [findall_urls]. rewrite <- E.
  replace (startswith LINK_LABEL (LINK_LABEL ++ link)) with true
    by (symmetry; apply startswith_app; now exists link).
  rewrite skipn_prefix, M. now left.
Qed.


(** *** Reading back what was written *)

Lemma universal_newlines_keep (w r : str) :
  ~ In CR w -> universal_newlines (w ++ r) = w ++ universal_newlines r.
Proof.
  induction w as [|c w IH]; intros H; cbn [app]; auto.
  cbn [universal_newlines].
  replace (c =? 13)%N with false.
  - rewrite IH; auto. intros Hin. apply H. now right.
  - symmetry. apply N.eqb_neq. intros ->. apply H. now left.
Qed.

(** Whatever precedes a line feed, the text from the line feed on is
    translated on its own. *)
Lemma universal_newlines_at_newline (x r : str) :
  exists x', universal_newlines (x ++ NL :: r) = x' ++ NL :: universal_newlines r.
Proof.
  remember (length x) as n eqn:Hn. revert x Hn.
  induction n as [n IH] using lt_wf_ind. intros x Hn.
  destruct x as [|c x].
  - exists []. reflexivity.
  - cbn [app universal_newlines]. destruct (c =? 13)%N eqn:Ec.
    + destruct x as [|c' x]; cbn [app].
      * exists []. reflexivity.
      * destruct (c' =? 10)%N eqn:Ec'.
        -- destruct (IH (length x) ltac:(subst n; cbn; lia) x eq_refl)
             as [x' E].
           exists (NL :: x'). now rewrite E.
        -- destruct (IH (length (c' :: x)) ltac:(subst n; cbn; lia)
                        (c' :: x) eq_refl) as [x' E].
           exists (NL :: x'). cbn [app] in E. now rewrite E.
    + destruct (IH (length x) ltac:(subst n; cbn; lia) x eq_refl) as [x' E].
      exists (c :: x'). now rewrite E.
Qed.

Lemma universal_newlines_no_cr (s : str) : ~ In CR (universal_newlines s).
Proof.
  remember (length s) as n eqn:Hn. revert s Hn.
  induction n as [n IH] using lt_wf_ind. intros s Hn.
  destruct s as [|c s]; [intros []|].
  cbn [universal_newlines]. destruct (c =? 13)%N eqn:Ec.
  - destruct s as [|c' s].
    + intros [H | []]. discriminate H.
    + destruct (c' =? 10)%N.
      * intros [H | H]; [discriminate H|].
        revert H. apply (IH (length s)); [subst n; cbn; lia | reflexivity].
      * intros [H | H]; [discriminate H|].
        revert H. apply (IH (length (c' :: s))); [subst n; cbn; lia | reflexivity].
  - intros [H | H].
    + subst c. discriminate Ec.
    + revert H. apply (IH (length s)); [subst n; cbn; lia | reflexivity].
Qed.

Lemma universal_newlines_fixed (s : str) :
  ~ In CR s -> universal_newlines s = s.
Proof.
  intros H. rewrite <- (app_nil_r s) at 1.
  rewrite universal_newlines_keep by assumption. cbn. apply app_nil_r.
Qed.

Lemma no_space_no_cr (s : str) : no_space s = true -> ~ In CR s.
Proof. apply no_space_not_in. reflexivity. Qed.

(** A link line in the written text is found when the text is read. *)
Lemma link_line_read_back (x link y : str) :
  http_link link = true ->
  In link (findall_urls
             (universal_newlines (x ++ NL :: LINK_LABEL ++ link ++ NL :: y)) 0).
Proof.
  intros Hl.
  destruct (universal_newlines_at_newline x (LINK_LABEL ++ link ++ NL :: y))
    as [x' ->].
  assert (Hs : no_space (LINK_LABEL ++ link) = true).
  { rewrite no_space_app, label_no_space. unfold http_link in Hl.
    destruct (match_url link) as [m|] eqn:M; [|discriminate].
    apply str_eqb_eq in Hl. subst m.
    now apply match_url_some in M. }
  rewrite app_assoc, universal_newlines_keep by now apply no_space_no_cr.
  cbn [universal_newlines]. change (NL =? 13)%N with false. cbv iota.
  rewrite <- app_assoc.
  now apply findall_urls_link_line.
Qed.

End LinkLines.

(** ** Runs of [generate_timeline] *)

Section TimelineRuns.

Import TopicRouter.

Lemma concat_flat_map_in {A B} (f : A -> list (list B)) (l : list A) (x : A) :
  In x l -> exists a b, concat (flat_map f l) = a ++ concat (f x) ++ b.
Proof.
  induction l as [|y l IH]; [intros []|].
  intros [-> | Hin]; cbn [flat_map]; rewrite concat_app.
  - now exists [], (concat (flat_map f l)).
  - destruct (IH Hin) as [a [b E]]. rewrite E.
    exists (concat (f y) ++ a), b. now rewrite <- app_assoc.
Qed.

(** The rendering of a trend with a URL contains its link line. *)
Lemma render_trend_link_line (t : trend) (link : str) :
  t_url t = Some link -> link <> [] ->
  exists x y,
    concat (render_trend t) = x ++ NL :: LINK_LABEL ++ link ++ NL :: y.
Proof.
  intros Hu Hne. unfold render_trend. rewrite Hu.
  destruct link as [|c link]; [congruence|].
  cbn [concat].
  eexists ([NL] ++ u "**标题**：" ++ t_title t ++ u "  " ++ [NL]
           ++ u "**来源**：" ++ t_source t ++ u "  "), _.
  change (u "**链接**：") with LINK_LABEL.
  rewrite <- !app_assoc. cbn [app]. reflexivity.
Qed.

Lemma group_by_date_bucket (l : list trend) (g0 : list (str * list trend))
      (k : str) :
  bucket_of k (fold_left
                 (fun grouped t =>
                    TopicClassifier.bucket_append grouped (t_date t) t) l g0)
  = bucket_of k g0 ++ filter (fun t => str_eqb k (t_date t)) l.
Proof.
  revert g0; induction l as [|t l IH]; intros g0; cbn [fold_left filter].
  - now rewrite app_nil_r.
  - rewrite IH, bucket_of_append, <- app_assoc. f_equal.
    destruct (str_eqb k (t_date t)); reflexivity.
Qed.

Lemma in_insert_desc (x k : str) (l : list str) :
  In x (insert_desc k l) <-> x = k \/ In x l.
Proof.
  induction l as [|y l IH]; cbn [insert_desc].
  - cbn. intuition.
  - destruct (str_ltb k y); cbn [In]; [rewrite IH|]; intuition.
Qed.

Lemma in_sorted_desc (x : str) (l : list str) :
  In x (sorted_desc l) <-> In x l.
Proof.
  unfold sorted_desc. induction l as [|y l IH]; cbn [fold_right]; [tauto|].
  rewrite in_insert_desc, IH. cbn. intuition.
Qed.

(** The new content contains the link line of every fresh trend with a
    URL. *)
Lemma new_content_link_line (fresh : list trend) (t : trend) (link : str) :
  In t fresh -> t_url t = Some link -> link <> [] ->
  exists x y,
    concat (render_new_content fresh)
    = x ++ NL :: LINK_LABEL ++ link ++ NL :: y.
Proof.
  intros Hin Hu Hne. unfold render_new_content. cbv zeta.
  set (grouped := group_by_date fresh).
  assert (Hb : In t (bucket_of (t_date t) grouped)).
  { unfold grouped, group_by_date. rewrite group_by_date_bucket.
    cbn [app]. apply filter_In. split; auto. apply str_eqb_refl. }
  assert (Hk : In (t_date t) (sorted_desc (map fst grouped))).
  { apply in_sorted_desc. pose proof Hb as Hb'. unfold bucket_of in Hb'.
    rename Hb' into Hbk. revert Hbk.
    destruct (lookup (t_date t) grouped) as [b|] eqn:El; [|intros []].
    intros _. eapply lookup_in_keys; eauto. }
  match goal with
  | |- exists x y, concat (flat_map ?f ?l) = _ =>
    destruct (concat_flat_map_in f l _ Hk) as [a [b E]]
  end.
  rewrite E. cbn [concat].
  unfold bucket_of in Hb.
  destruct (concat_flat_map_in render_trend _ _ Hb) as [a' [b' E']].
  unfold str in *. rewrite E'.
  destruct (render_trend_link_line t Hu Hne) as [x [y E'']]. rewrite E''.
  exists (a ++ ([NL] ++ u "## " ++ t_date t ++ [NL]) ++ a' ++ x), (y ++ b' ++ b).
  rewrite <- !app_assoc. cbn [app]. rewrite <- !app_assoc. cbn [app].
  reflexivity.
Qed.

Lemma ends_with_newline_app (a b : str) :
  ends_with_newline b -> ends_with_newline (a ++ b).
Proof. intros [x ->]. exists (a ++ x). now rewrite app_assoc. Qed.

Lemma concat_ends_with_newline (l : list str) :
  l <> [] -> Forall ends_with_newline l -> ends_with_newline (concat l).
Proof.
  induction l as [|p l IH]; [congruence|]. intros _ H.
  inversion H as [|? ? Hp Hl]; subst. cbn [concat].
  destruct l as [|q l].
  - cbn [concat]. now rewrite app_nil_r.
  - apply ends_with_newline_app. apply IH; [discriminate | assumption].
Qed.

Lemma ends_with_newline_snoc (x : str) : ends_with_newline (x ++ [NL]).
Proof. now exists x. Qed.

Lemma render_trend_pieces (t : trend) : Forall ends_with_newline (render_trend t).
Proof.
  unfold render_trend. cbv zeta.
  apply Forall_cons; [|apply Forall_cons; [|apply Forall_cons;
    [|apply Forall_cons; [|apply Forall_cons; [|apply Forall_cons;
      [|apply Forall_nil]]]]]].
  - do 3 apply ends_with_newline_app. apply ends_with_newline_snoc.
  - do 2 apply ends_with_newline_app. apply ends_with_newline_snoc.
  - apply ends_with_newline_app. apply ends_with_newline_snoc.
  - do 3 apply ends_with_newline_app. apply ends_with_newline_snoc.
  - do 3 apply ends_with_newline_app. apply ends_with_newline_snoc.
  - apply ends_with_newline_app. apply ends_with_newline_snoc.
Qed.

Lemma render_new_content_pieces (fresh : list trend) :
  Forall ends_with_newline (render_new_content fresh).
Proof.
  unfold render_new_content. cbv zeta.
  apply Forall_flat_map. apply Forall_forall. intros date _.
  apply Forall_cons.
  - do 2 apply ends_with_newline_app. apply ends_with_newline_snoc.
  - apply Forall_flat_map. apply Forall_forall. intros t _.
    apply render_trend_pieces.
Qed.

Lemma group_by_date_keys (fresh : list trend) :
  fresh <> [] -> map fst (group_by_date fresh) <> [].
Proof.
  intros Hne. destruct fresh as [|t fresh]; [congruence|].
  assert (Hb : In t (bucket_of (t_date t) (group_by_date (t :: fresh)))).
  { unfold group_by_date. rewrite group_by_date_bucket.
    cbn [app]. apply filter_In. split; [now left | apply str_eqb_refl]. }
  unfold bucket_of in Hb.
  destruct (lookup (t_date t) (group_by_date (t :: fresh))) as [b|] eqn:El;
    [|destruct Hb].
  apply lookup_in_keys in El. intros E. rewrite E in El. destruct El.
Qed.

(** The new content of a non-empty batch ends with a line feed. *)
Lemma new_content_ends_with_newline (fresh : list trend) :
  fresh <> [] -> ends_with_newline (concat (render_new_content fresh)).
Proof.
  intros Hne. apply concat_ends_with_newline;
    [|apply render_new_content_pieces].
  unfold render_new_content. cbv zeta.
  pose proof (group_by_date_keys Hne) as Hk.
  destruct (sorted_desc (map fst (group_by_date fresh))) as [|d ds] eqn:Es.
  - exfalso. destruct (map fst (group_by_date fresh)) as [|k ks] eqn:Ek;
      [congruence|].
    assert (In k (sorted_desc (k :: ks))) by (apply in_sorted_desc; now left).
    rewrite Es in H. destruct H.
  - cbn [flat_map]. discriminate.
Qed.


Lemma split_scan_nonempty (sep s : str) (k : nat) : split_scan sep s k <> [].
Proof.
  revert k; induction s as [|c s IH]; intros k; cbn [split_scan];
    [discriminate|].
  destruct k; [|apply IH].
  destruct (startswith sep (c :: s)); [discriminate|].
  destruct (split_scan sep s 0); discriminate.
Qed.

(** Splitting at line feeds and joining with line feeds gives the text
    back. *)
Lemma join_split_newline (s : str) : join [NL] (split [NL] s) = s.
Proof.
  unfold split. induction s as [|c s IH]; [reflexivity|].
  cbn [split_scan startswith length Nat.sub].
  pose proof (split_scan_nonempty [NL] s 0) as Hne.
  destruct (split_scan [NL] s 0) as [|h t] eqn:E; [congruence|].
  destruct (N.eqb_spec NL c) as [<-|Hc]; cbn [andb].
  - change (join [NL] ([] :: h :: t)) with ([] ++ [NL] ++ join [NL] (h :: t)).
    now rewrite IH.
  - destruct t as [|h' t].
    + cbn [join] in *. now rewrite IH.
    + change (join [NL] ((c :: h) :: h' :: t))
        with (c :: join [NL] (h :: h' :: t)).
      now rewrite IH.
Qed.

Lemma join_firstn_skipn (n : nat) (l : list str) :
  exists sep,
    join [NL] l = join [NL] (firstn n l) ++ sep ++ join [NL] (skipn n l)
    /\ (sep = [NL]
        \/ sep = [] /\ (join [NL] (firstn n l) = []
                        \/ join [NL] (skipn n l) = [])).
Proof.
  pose proof (firstn_skipn n l) as Hfs.
  destruct (firstn n l) as [|a l1] eqn:E1.
  - cbn [app] in Hfs. exists []. rewrite Hfs. cbn [join app]. auto.
  - destruct (skipn n l) as [|b l2] eqn:E2.
    + exists []. rewrite app_nil_r in Hfs. rewrite <- Hfs.
      change (join [NL] []) with (@nil char). rewrite !app_nil_r. auto.
    + exists [NL]. rewrite <- Hfs. split; [|now left].
      apply join_app; discriminate.
Qed.

(** What [generate_timeline] writes over an existing file when there is
    something new: the text read, with the new block (and one line
    feed) inserted after the heading. *)
Lemma generate_timeline_inserts (name raw : str) (trends : list trend) :
  new_trends (load_existing_urls (Some raw)) trends <> [] ->
  exists head sep body,
    universal_newlines raw = head ++ sep ++ body
    /\ (sep = [NL] \/ sep = [] /\ (head = [] \/ body = []))
    /\ generate_timeline name (Some raw) trends
       = Some (head ++ NL :: concat (render_new_content
                 (new_trends (load_existing_urls (Some raw)) trends))
                 ++ body).
Proof.
  intros Hne. unfold generate_timeline. cbv zeta.
  destruct (new_trends (load_existing_urls (Some raw)) trends)
    as [|t fresh] eqn:E; [congruence|].
  set (lines := split [NL] (universal_newlines raw)).
  destruct (join_firstn_skipn (header_end lines 0) lines) as [sep [Hj Hs]].
  exists (join [NL] (firstn (header_end lines 0) lines)), sep,
         (join [NL] (skipn (header_end lines 0) lines)).
  split; [|split].
  - rewrite <- Hj. unfold lines. now rewrite join_split_newline.
  - exact Hs.
  - reflexivity.
Qed.

Lemma no_cr_app_l (a b : str) : ~ In CR (a ++ b) -> ~ In CR a.
Proof. intros H Ha. apply H, in_or_app. now left. Qed.

Lemma no_cr_app_r (a b : str) : ~ In CR (a ++ b) -> ~ In CR b.
Proof. intros H Hb. apply H, in_or_app. now right. Qed.

(** The URLs found after the insertion: the old ones, with those of
    the new block between the heading's and the body's. *)
Lemma findall_after_insert (head sep body block : str) :
  ~ In CR (head ++ sep ++ body) ->
  (sep = [NL] \/ sep = [] /\ (head = [] \/ body = [])) ->
  ends_with_newline block ->
  exists mid,
    findall_urls (head ++ sep ++ body) 0
    = findall_urls head 0 ++ findall_urls body 0
    /\ findall_urls (universal_newlines (head ++ NL :: block ++ body)) 0
       = findall_urls head 0 ++ mid ++ findall_urls body 0.
Proof.
  intros Hcr Hs [x ->].
  assert (Hh : ~ In CR head) by (eapply no_cr_app_l; eauto).
  assert (Hb : ~ In CR body).
  { eapply no_cr_app_r. eapply no_cr_app_r. eauto. }
  destruct (universal_newlines_at_newline x body) as [x' Ex].
  exists (findall_urls x' 0). split.
  - destruct Hs as [-> | [-> [-> | ->]]].
    + cbn [app]. apply findall_urls_split; [reflexivity | apply Nat.le_0_l].
    + reflexivity.
    + cbn [app]. now rewrite !app_nil_r.
  - rewrite universal_newlines_keep by assumption.
    change (NL :: (x ++ [NL]) ++ body) with ([NL] ++ (x ++ [NL]) ++ body).
    rewrite universal_newlines_keep by (intros [H|[]]; discriminate).
    rewrite <- app_assoc. cbn [app]. rewrite Ex.
    rewrite (@universal_newlines_fixed body Hb).
    rewrite findall_urls_split by (reflexivity || apply Nat.le_0_l).
    rewrite findall_urls_split by (reflexivity || apply Nat.le_0_l).
    reflexivity.
Qed.


(** What the URL pattern matched, it matches again as a whole. *)
Lemma match_url_fixed (s m : str) : match_url s = Some m -> match_url m = Some m.
Proof.
  intros H. pose proof (@match_url_some s m H) as (Hm & _ & _). revert H.
  unfold match_url.
  assert (G : forall scheme,
             startswith scheme s = true ->
             match non_space_run (skipn (length scheme) s) with
             | [] => None
             | c :: l => Some (scheme ++ c :: l)
             end = Some m ->
             exists body, m = scheme ++ body /\ body <> []
                          /\ non_space_run body = body).
  { intros scheme Hp H. apply startswith_app in Hp. destruct Hp as [r ->].
    rewrite skipn_prefix in H.
    destruct (non_space_run r) as [|c body] eqn:E; [discriminate|].
    inversion H; subst m; clear H. exists (c :: body).
    split; [reflexivity | split; [discriminate|]].
    rewrite <- E. apply non_space_run_all, non_space_run_no_space. }
  assert (F : forall scheme body,
             body <> [] -> non_space_run body = body ->
             match non_space_run (skipn (length scheme) (scheme ++ body)) with
             | [] => None
             | c :: l => Some (scheme ++ c :: l)
             end = Some (scheme ++ body)).
  { intros scheme body Hne Hb. rewrite skipn_prefix, Hb.
    destruct body; [congruence | reflexivity]. }
  destruct (startswith (u "https://") s) eqn:E1.
  - intros H. destruct (G _ E1 H) as (body & -> & Hne & Hb).
    replace (startswith (u "https://") (u "https://" ++ body)) with true
      by (symmetry; apply startswith_app; now exists body).
    now apply F.
  - destruct (startswith (u "http://") s) eqn:E2; [|discriminate].
    intros H. destruct (G _ E2 H) as (body & -> & Hne & Hb).
    change (startswith (u "https://") (u "http://" ++ body)) with false.
    replace (startswith (u "http://") (u "http://" ++ body)) with true
      by (symmetry; apply startswith_app; now exists body).
    now apply F.
Qed.

Lemma findall_urls_http (s : str) (k : nat) (x : str) :
  In x (findall_urls s k) -> http_link x = true.
Proof.
  revert k; induction s as [|c s IH]; intros k; cbn [findall_urls];
    [intros []|].
  destruct k as [|k]; [|apply IH].
  destruct (startswith LINK_LABEL (c :: s)); [|apply IH].
  destruct (match_url (skipn (length LINK_LABEL) (c :: s))) as [link|] eqn:M;
    [|apply IH].
  intros [<- | H]; [|eapply IH; eauto].
  unfold http_link. rewrite (@match_url_fixed _ _ M). apply str_eqb_refl.
Qed.

Lemma no_cr_universal_newlines_split (raw head sep body : str) :
  universal_newlines raw = head ++ sep ++ body -> ~ In CR (head ++ sep ++ body).
Proof. intros <-. apply universal_newlines_no_cr. Qed.

(** The URLs recorded before a run are recorded after it. *)
Lemma recorded_urls_kept (name : str) (file : option str) (trends : list trend)
      (x : str) :
  In x (load_existing_urls file) ->
  In x (load_existing_urls (generate_timeline name file trends)).
Proof.
  destruct file as [raw|]; [|intros []]. intros Hx.
  assert (D : new_trends (load_existing_urls (Some raw)) trends = []
              \/ new_trends (load_existing_urls (Some raw)) trends <> []).
  { destruct (new_trends (load_existing_urls (Some raw)) trends);
      [now left | right; discriminate]. }
  destruct D as [E | Hne].
  - unfold generate_timeline. cbv zeta. now rewrite E.
  - 
    destruct (@generate_timeline_inserts name raw trends Hne)
      as (head & sep & body & Hr & Hs & ->).
    assert (Hblock : ends_with_newline
              (concat (render_new_content
                         (new_trends (load_existing_urls (Some raw)) trends))))
      by now apply new_content_ends_with_newline.
    destruct (@findall_after_insert head sep body _
                (@no_cr_universal_newlines_split raw head sep body Hr)
                Hs Hblock) as (mid & Hold & Hnew).
    unfold load_existing_urls in Hx. rewrite Hr, Hold in Hx.
    match goal with
    | |- In x (load_existing_urls (Some ?z)) =>
      change (In x (findall_urls (universal_newlines z) 0))
    end.
    rewrite Hnew. rewrite !in_app_iff in *. tauto.
Qed.

Lemma read_back_within (a b x link y : str) :
  http_link link = true ->
  In link (findall_urls
             (universal_newlines
                (a ++ (x ++ NL :: LINK_LABEL ++ link ++ NL :: y) ++ b)) 0).
Proof.
  intros Hl.
  replace (a ++ (x ++ NL :: LINK_LABEL ++ link ++ NL :: y) ++ b)
    with ((a ++ x) ++ NL :: LINK_LABEL ++ link ++ NL :: (y ++ b)).
  - now apply link_line_read_back.
  - rewrite <- !app_assoc. cbn [app]. rewrite <- !app_assoc. cbn [app].
    reflexivity.
Qed.

(** After a run, the URL of every trend of the batch that has an
    http(s) URL is recorded. *)
Lemma batch_urls_recorded (name : str) (file : option str)
      (trends : list trend) (t : trend) (link : str) :
  In t trends -> t_url t = Some link -> http_link link = true ->
  In link (load_existing_urls (generate_timeline name file trends)).
Proof.
  intros Hin Hu Hl.
  destruct (unseen (load_existing_urls file) t) eqn:Eu.
  - assert (Hf : In t (new_trends (load_existing_urls file) trends)).
    { rewrite new_trends_filter. apply filter_In. now split. }
    assert (Hlne : link <> []).
    { intros ->. discriminate Hl. }
    destruct (@new_content_link_line _ t link Hf Hu Hlne) as (x & y & Hx).
    unfold generate_timeline. cbv zeta.
    destruct (new_trends (load_existing_urls file) trends) as [|t0 l] eqn:E;
      [destruct Hf|].
    destruct file as [raw|]; unfold load_existing_urls; unfold str in *;
      rewrite Hx.
    + rewrite (app_assoc _ [NL]). now apply read_back_within.
    + rewrite (app_assoc _ [NL]), (app_assoc _ (_ ++ [NL])).
      rewrite <- (app_nil_r (x ++ _)). now apply read_back_within.
  - apply recorded_urls_kept. unfold unseen in Eu. rewrite Hu in Eu.
    apply negb_false_iff in Eu. now apply url_in_In.
Qed.

(** A second run with the same batch finds nothing new when every
    trend of the batch carries an http(s) URL. *)
Lemma second_run_adds_nothing (name : str) (file : option str)
      (trends : list trend) :
  (forall t, In t trends ->
     exists link, t_url t = Some link /\ http_link link = true) ->
  generate_timeline name (generate_timeline name file trends) trends
  = generate_timeline name file trends.
Proof.
  intros H.
  set (after := generate_timeline name file trends).
  assert (E : new_trends (load_existing_urls after) trends = []).
  { rewrite new_trends_filter. apply filter_none. intros t Hin.
    destruct (H t Hin) as (link & Hu & Hl).
    unfold unseen. rewrite Hu. apply negb_false_iff. apply url_in_In.
    now apply (@batch_urls_recorded name file trends t link). }
  unfold generate_timeline at 1. cbv zeta. now rewrite E.
Qed.


Lemma ends_with_newline_length (s : str) :
  ends_with_newline s -> (1 <= length s)%nat.
Proof. intros [x ->]. rewrite length_app. cbn. lia. Qed.

(** A run that finds something new leaves a text longer than the one
    it read. *)
Lemma new_trends_grow (name : str) (file : option str) (trends : list trend) :
  new_trends (load_existing_urls file) trends <> [] ->
  exists out,
    generate_timeline name file trends = Some out
    /\ (length (text_read file) < length out)%nat.
Proof.
  intros Hne. destruct file as [raw|].
  - destruct (@generate_timeline_inserts name raw trends Hne)
      as (head & sep & body & Hr & Hs & ->).
    eexists. split; [reflexivity|].
    unfold text_read. cbn [option_map get]. rewrite Hr.
    pose proof (ends_with_newline_length
                  (@new_content_ends_with_newline _ Hne)) as Hb.
    rewrite !length_app. cbn [length]. rewrite !length_app.
    assert (length sep <= 1)%nat by (destruct Hs as [-> | [-> _]]; cbn; lia).
    lia.
  - unfold generate_timeline. cbv zeta.
    destruct (new_trends (load_existing_urls None) trends) as [|t l];
      [congruence|].
    eexists. split; [reflexivity|].
    unfold text_read. cbn [option_map get length]. rewrite length_app.
    cbn. lia.
Qed.

(** A trend that has no URL, or one the pattern does not match as a
    whole, is new on every run. *)
Lemma never_recorded (file : option str) (t : trend) :
  (forall link, t_url t = Some link -> http_link link = false) ->
  unseen (load_existing_urls file) t = true.
Proof.
  intros H. unfold unseen. destruct (t_url t) as [link|] eqn:Hu; [|reflexivity].
  apply negb_true_iff. destruct (url_in link (load_existing_urls file)) eqn:E;
    [|reflexivity].
  apply url_in_In in E. destruct file as [raw|]; [|destruct E].
  apply findall_urls_http in E. rewrite (H link eq_refl) in E. discriminate.
Qed.


(** Where the heading ends: either no line starts with [#], or the
    lines up to the first one that does. *)
Lemma header_end_spec (lines : list str) (i : nat) :
  (header_end lines i = 0%nat
   /\ Forall (fun l => startswith (u "#") l = false) lines)
  \/ exists before heading after,
       lines = before ++ heading :: after
       /\ Forall (fun l => startswith (u "#") l = false) before
       /\ startswith (u "#") heading = true
       /\ header_end lines i = (i + length before + 1)%nat.
Proof.
  revert i; induction lines as [|l lines IH]; intros i; cbn [header_end].
  - left. split; [reflexivity | constructor].
  - destruct (startswith (u "#") l) eqn:E.
    + right. exists [], l, lines. cbn [app length].
      repeat split; [constructor | assumption | lia].
    + destruct (IH (S i)) as [[H0 Hall] | (before & heading & after & Hl & Hb & Hh & He)].
      * left. split; [assumption | now constructor].
      * right. exists (l :: before), heading, after. cbn [app length].
        repeat split; [now rewrite Hl | now constructor | assumption | lia].
Qed.

Lemma header_lines_spec (lines : list str) :
  (firstn (header_end lines 0) lines = []
   /\ Forall (fun l => startswith (u "#") l = false) lines)
  \/ exists before heading,
       firstn (header_end lines 0) lines = before ++ [heading]
       /\ Forall (fun l => startswith (u "#") l = false) before
       /\ startswith (u "#") heading = true.
Proof.
  destruct (header_end_spec lines 0)
    as [[H0 Hall] | (before & heading & after & Hl & Hb & Hh & He)].
  - left. rewrite H0. split; [reflexivity | assumption].
  - right. exists before, heading. split; [|split; assumption].
    rewrite He, Hl. cbn [Nat.add].
    replace (length before + 1)%nat with (length (before ++ [heading]))
      by (rewrite length_app; reflexivity).
    change (before ++ heading :: after) with (before ++ [heading] ++ after).
    rewrite app_assoc. rewrite firstn_app, firstn_all, Nat.sub_diag.
    cbn [firstn]. apply app_nil_r.
Qed.

(** X1.  [load_existing_urls] finds the URL of every link line: a line
    that consists of the label [**链接**：] and an http(s) URL without
    white space. *)
Theorem load_existing_urls_finds_link_lines (x link y : str) :
  http_link link = true ->
  In link (load_existing_urls
             (Some (x ++ NL :: LINK_LABEL ++ link ++ NL :: y))).
Proof.
  intros H. unfold load_existing_urls. now apply link_line_read_back.
Qed.

(** X2.  Whatever the file holds, every URL [load_existing_urls]
    returns is an http(s) URL without white space, which the pattern
    matches as a whole. *)
Theorem load_existing_urls_only_http_links (file : option str) (x : str) :
  In x (load_existing_urls file) -> http_link x = true.
Proof.
  destruct file as [raw|]; [|intros []].
  unfold load_existing_urls. apply findall_urls_http.
Qed.

(** X3.  [generate_timeline] never loses a recorded URL: the URLs
    [load_existing_urls] finds before the call, it finds afterwards. *)
Theorem generate_timeline_keeps_recorded_urls
        (name : str) (file : option str) (trends : list trend) :
  incl (load_existing_urls file)
       (load_existing_urls (generate_timeline name file trends)).
Proof. intros x Hx. now apply recorded_urls_kept. Qed.

(** X4.  When every trend of the batch carries an http(s) URL without
    white space, a second call of [generate_timeline] with the same
    batch finds nothing new and leaves the file as the first call
    wrote it. *)
Theorem generate_timeline_second_run_adds_nothing
        (name : str) (file : option str) (trends : list trend) :
  (forall t, In t trends ->
     exists link, t_url t = Some link /\ http_link link = true) ->
  generate_timeline name (generate_timeline name file trends) trends
  = generate_timeline name file trends.
Proof. apply second_run_adds_nothing. Qed.

(** X5.  When there is something new, [generate_timeline] writes the
    text it read with one block inserted and nothing removed: the block
    follows the first line that starts with [#], or stands at the top
    when no line does, and it ends with a line feed. *)
Theorem generate_timeline_inserts_after_heading
        (name raw : str) (trends : list trend) :
  new_trends (load_existing_urls (Some raw)) trends <> [] ->
  exists head sep body block,
    generate_timeline name (Some raw) trends
    = Some (head ++ NL :: block ++ body)
    /\ block = concat (render_new_content
                         (new_trends (load_existing_urls (Some raw)) trends))
    /\ ends_with_newline block
    /\ text_read (Some raw) = head ++ sep ++ body
    /\ (sep = [NL] \/ sep = [] /\ (head = [] \/ body = []))
    /\ ((head = []
         /\ Forall (fun l => startswith (u "#") l = false)
                   (split [NL] (text_read (Some raw))))
        \/ exists before heading,
             head = join [NL] (before ++ [heading])
             /\ Forall (fun l => startswith (u "#") l = false) before
             /\ startswith (u "#") heading = true).
Proof.
  intros Hne. unfold text_read. cbn [option_map get].
  set (lines := split [NL] (universal_newlines raw)).
  destruct (join_firstn_skipn (header_end lines 0) lines) as [sep [Hj Hs]].
  exists (join [NL] (firstn (header_end lines 0) lines)), sep,
         (join [NL] (skipn (header_end lines 0) lines)),
         (concat (render_new_content
                    (new_trends (load_existing_urls (Some raw)) trends))).
  split; [|split; [reflexivity|split; [|split; [|split]]]].
  - unfold generate_timeline. cbv zeta.
    destruct (new_trends (load_existing_urls (Some raw)) trends);
      [congruence | reflexivity].
  - now apply new_content_ends_with_newline.
  - rewrite <- Hj. unfold lines. now rewrite join_split_newline.
  - exact Hs.
  - destruct (header_lines_spec lines)
      as [[H0 Hall] | (before & heading & Hf & Hb & Hh)].
    + left. rewrite H0. split; [reflexivity | exact Hall].
    + right. exists before, heading. rewrite Hf. auto.
Qed.

(** X6.  A trend without a URL, or with one the pattern does not match
    as a whole, is added on every call: the file afterwards is longer
    than the text that was read. *)
Theorem generate_timeline_readds_trends_without_http_url
        (name : str) (file : option str) (trends : list trend) (t : trend) :
  In t trends ->
  (forall link, t_url t = Some link -> http_link link = false) ->
  exists out,
    generate_timeline name file trends = Some out
    /\ (length (text_read file) < length out)%nat.
Proof.
  intros Hin Hu. apply new_trends_grow.
  rewrite new_trends_filter. intros E.
  assert (Hf : In t (filter (unseen (load_existing_urls file)) trends)).
  { apply filter_In. split; [assumption | now apply never_recorded]. }
  rewrite E in Hf. destruct Hf.
Qed.

(** X7.  [group_by_date] files every trend under its date and keeps the
    order: the group of a date is the sublist of the trends of that
    date. *)
Theorem group_by_date_group_is_filter (trends : list trend) (d : str) :
  bucket_of d (group_by_date trends)
  = filter (fun t => str_eqb d (t_date t)) trends.
Proof. unfold group_by_date. now rewrite group_by_date_bucket. Qed.

End TimelineRuns.

Lemma load_existing_urls_finds_link_lines_witness :
  In (u "http://example.com/u1")
     (TopicRouter.load_existing_urls
        (Some (u "# AI" ++ NL :: TopicRouter.LINK_LABEL
                 ++ u "http://example.com/u1" ++ NL :: []))).
Proof.
  apply (@load_existing_urls_finds_link_lines
           (u "# AI") (u "http://example.com/u1") []).
  vm_compute. reflexivity.
Defined.

Lemma load_existing_urls_only_http_links_witness :
  http_link (u "https://example.com/u2") = true.
Proof.
  apply (@load_existing_urls_only_http_links (Some timeline_u1_u2)).
  vm_compute. left. reflexivity.
Defined.

Lemma generate_timeline_second_run_adds_nothing_witness :
  TopicRouter.generate_timeline
    (u "AI") (TopicRouter.generate_timeline (u "AI") None batch_links)
    batch_links
  = TopicRouter.generate_timeline (u "AI") None batch_links.
Proof.
  apply generate_timeline_second_run_adds_nothing.
  intros t [<- | [<- | []]]; eexists; split; reflexivity.
Defined.

Lemma generate_timeline_inserts_after_heading_witness :
  exists head sep body block,
    TopicRouter.generate_timeline (u "AI") (Some timeline_u1_u2) batch_u1_u3
    = Some (head ++ NL :: block ++ body)
    /\ block = concat (TopicRouter.render_new_content
                         (TopicRouter.new_trends
                            (TopicRouter.load_existing_urls
                               (Some timeline_u1_u2)) batch_u1_u3))
    /\ ends_with_newline block
    /\ text_read (Some timeline_u1_u2) = head ++ sep ++ body
    /\ (sep = [NL] \/ sep = [] /\ (head = [] \/ body = []))
    /\ ((head = []
         /\ Forall (fun l => startswith (u "#") l = false)
                   (split [NL] (text_read (Some timeline_u1_u2))))
        \/ exists before heading,
             head = join [NL] (before ++ [heading])
             /\ Forall (fun l => startswith (u "#") l = false) before
             /\ startswith (u "#") heading = true).
Proof.
  apply generate_timeline_inserts_after_heading.
  vm_compute. discriminate.
Defined.

Lemma generate_timeline_readds_trends_without_http_url_witness :
  exists out,
    TopicRouter.generate_timeline (u "AI") (Some timeline_u1_u2) batch_u1_u3
    = Some out
    /\ (length (text_read (Some timeline_u1_u2)) < length out)%nat.
Proof.
  apply (@generate_timeline_readds_trends_without_http_url
           (u "AI") (Some timeline_u1_u2) batch_u1_u3
           (trend_of "fourth" None "2026-01-21")).
  - right. right. left. reflexivity.
  - intros link H. discriminate H.
Defined.

(** ** Routing *)

Section RoutingProperties.

Import TopicRouter TopicRouting TopicClassifier.

Variable is_word : char -> bool.
Variable lower : str -> str.
Variable topics : list (str * topic_config).

Lemma bucket_of_route_loop (l : list (str * topic_config))
      (routed : list (str * list trend)) (t : trend) (k : str) :
  bucket_of k
    (fold_left
       (fun routed tp =>
          if match_keywords is_word lower (search_text t)
                            (get (c_keywords (snd tp)) [])
          then bucket_append routed (fst tp) t
          else routed) l routed)
  = bucket_of k routed
    ++ map (fun _ => t)
           (filter (fun tp => str_eqb k (fst tp)
                              && routes_to is_word lower (snd tp) t) l).
Proof.
  revert routed; induction l as [|tp l IH]; intros routed;
    cbn [fold_left filter map].
  - now rewrite app_nil_r.
  - rewrite IH. unfold routes_to at 2.
    destruct (match_keywords is_word lower (search_text t)
                             (get (c_keywords (snd tp)) [])).
    + rewrite bucket_of_append, andb_true_r, <- app_assoc.
      destruct (str_eqb k (fst tp)); reflexivity.
    + now rewrite andb_false_r.
Qed.

Lemma bucket_of_route_trends (trends : list trend)
      (routed : list (str * list trend)) (k : str) :
  bucket_of k (fold_left (route_trend is_word lower topics) trends routed)
  = bucket_of k routed
    ++ flat_map
         (fun t =>
            map (fun _ => t)
                (filter (fun tp => str_eqb k (fst tp)
                                   && routes_to is_word lower (snd tp) t)
                        topics))
         trends.
Proof.
  revert routed; induction trends as [|t trends IH]; intros routed;
    cbn [fold_left flat_map].
  - now rewrite app_nil_r.
  - rewrite IH. unfold route_trend. rewrite bucket_of_route_loop.
    now rewrite <- app_assoc.
Qed.

Lemma route_loop_ok (l : list (str * topic_config)) (t : trend)
      (routed : list (str * list trend)) :
  buckets_ok routed ->
  buckets_ok
    (fold_left
       (fun routed tp =>
          if match_keywords is_word lower (search_text t)
                            (get (c_keywords (snd tp)) [])
          then bucket_append routed (fst tp) t
          else routed) l routed).
Proof.
  revert routed; induction l as [|tp l IH]; intros routed Hr;
    cbn [fold_left]; [exact Hr|].
  apply IH.
  destruct (match_keywords is_word lower (search_text t)
                           (get (c_keywords (snd tp)) [])); auto.
  now apply bucket_append_ok.
Qed.

Lemma route_trends_ok (trends : list trend) :
  buckets_ok (route_trends is_word lower topics trends).
Proof.
  unfold route_trends.
  assert (G : forall routed,
             buckets_ok routed ->
             buckets_ok (fold_left (route_trend is_word lower topics)
                                   trends routed)).
  { induction trends as [|t trends IH]; intros routed Hr; cbn [fold_left];
      [exact Hr|].
    apply IH. unfold route_trend. now apply route_loop_ok. }
  apply G. apply buckets_ok_nil.
Qed.

(** What is in a bucket was routed there by a keyword. *)
Lemma routed_bucket_sound (trends : list trend) (k : str)
      (bucket : list trend) (t : trend) :
  lookup k (route_trends is_word lower topics trends) = Some bucket ->
  In t bucket ->
  In t trends
  /\ exists c, In (k, c) topics /\ routes_to is_word lower c t = true.
Proof.
  intros Hl Hin.
  assert (Hb : In t (bucket_of k (route_trends is_word lower topics trends)))
    by (unfold bucket_of; now rewrite Hl).
  unfold route_trends in Hb. rewrite bucket_of_route_trends in Hb.
  cbn [bucket_of lookup get app] in Hb.
  apply in_flat_map in Hb. destruct Hb as (t' & Ht' & Hm).
  apply in_map_iff in Hm. destruct Hm as ([k' c] & <- & Hf).
  apply filter_In in Hf. destruct Hf as [Hin' Hp]. cbn [fst snd] in Hp.
  apply andb_true_iff in Hp. destruct Hp as [Hk Hr].
  apply str_eqb_eq in Hk. subst k'. split; [assumption|].
  now exists c.
Qed.

(** X8.  With the topics keyed by distinct ids, the bucket
    [route_trends] returns for a configured topic holds exactly the
    trends whose search text one of its keywords matches, in the order
    of the input. *)
Theorem route_trends_bucket_is_filter (trends : list trend) (k : str)
        (c : topic_config) :
  NoDup (map fst topics) -> lookup k topics = Some c ->
  bucket_of k (route_trends is_word lower topics trends)
  = filter (routes_to is_word lower c) trends.
Proof.
  intros Hnd Hl. unfold route_trends. rewrite bucket_of_route_trends.
  cbn [bucket_of lookup get app].
  apply flat_map_filter_if. intros t.
  rewrite (@filter_key_unique _ (fun c => routes_to is_word lower c t)
                              topics k c Hnd Hl).
  destruct (routes_to is_word lower c t); reflexivity.
Qed.

(** X9.  Every key of the result of [route_trends] is a configured
    topic with at least one trend: its bucket is not empty, and each
    trend in it is a trend of the input that a keyword of the topic
    matches. *)
Theorem route_trends_keys_have_matches (trends : list trend) (k : str)
        (bucket : list trend) :
  lookup k (route_trends is_word lower topics trends) = Some bucket ->
  bucket <> []
  /\ (forall t, In t bucket ->
        In t trends
        /\ exists c, In (k, c) topics /\ routes_to is_word lower c t = true).
Proof.
  intros Hl. split.
  - destruct (route_trends_ok trends) as [_ Hne].
    rewrite Forall_forall in Hne. apply (Hne (k, bucket)).
    now apply lookup_in.
  - intros t Hin. now apply (@routed_bucket_sound trends k bucket t).
Qed.

Lemma generate_timeline_none (name : str) (file : option str)
      (matched : list trend) :
  generate_timeline name file matched = None -> file = None.
Proof.
  unfold generate_timeline. cbv zeta.
  destruct (new_trends (load_existing_urls file) matched); [auto|].
  destruct file; [discriminate | reflexivity].
Qed.

Lemma lookup_write_same (index : list (str * str)) (k name : str)
      (matched : list trend) :
  lookup k (write_timeline index k name matched)
  = generate_timeline name (lookup k index) matched.
Proof.
  unfold write_timeline.
  destruct (generate_timeline name (lookup k index) matched) as [text|] eqn:E.
  - apply lookup_upsert_same.
  - now apply generate_timeline_none in E.
Qed.

Lemma lookup_write_other (index : list (str * str)) (k k' name : str)
      (matched : list trend) :
  k' <> k ->
  lookup k' (write_timeline index k name matched) = lookup k' index.
Proof.
  intros Hk. unfold write_timeline.
  destruct (generate_timeline name (lookup k index) matched); [|reflexivity].
  now apply lookup_upsert_other.
Qed.

Lemma write_all_other (routed : list (str * list trend))
      (index : list (str * str)) (k : str) :
  ~ In k (map fst routed) ->
  lookup k (write_all topics routed index) = lookup k index.
Proof.
  unfold write_all. revert index.
  induction routed as [|[k' b] routed IH]; intros index Hk; cbn [fold_left];
    [reflexivity|].
  cbn [map fst In] in Hk. rewrite IH by tauto. cbn [fst snd].
  apply lookup_write_other. intros ->. tauto.
Qed.

Lemma write_all_same (routed : list (str * list trend))
      (index : list (str * str)) (k : str) (b : list trend) :
  NoDup (map fst routed) -> In (k, b) routed ->
  lookup k (write_all topics routed index)
  = generate_timeline (get (topic_name topics k) []) (lookup k index) b.
Proof.
  unfold write_all. revert index.
  induction routed as [|[k' b'] routed IH]; intros index Hnd Hin;
    [destruct Hin|].
  cbn [fold_left fst snd]. cbn [map fst] in Hnd.
  inversion Hnd as [|? ? Hnot Hnd']; subst.
  destruct Hin as [H | H].
  - inversion H; subst.
    fold (write_all topics routed
            (write_timeline index k (get (topic_name topics k) []) b)).
    rewrite write_all_other by assumption. apply lookup_write_same.
  - rewrite IH by assumption. f_equal.
    apply lookup_write_other. intros ->. apply Hnot.
    apply in_map_iff. now exists (k', b).
Qed.

(** X10.  A second [run] over the same trends changes no timeline when
    every trend carries an http(s) URL without white space. *)
Theorem run_twice_changes_nothing (trends : list trend)
        (index index' : list (str * str)) :
  (forall t, In t trends ->
     exists link, t_url t = Some link /\ http_link link = true) ->
  run is_word lower topics trends index = Some index' ->
  run is_word lower topics trends index' = Some index'.
Proof.
  intros Hhttp. unfold run. destruct trends as [|t0 trends0] eqn:Et.
  - intros H; now inversion H.
  - rewrite <- Et in *. cbv zeta.
    set (routed := route_trends is_word lower topics trends).
    destruct (forallb _ routed); [|discriminate].
    intros H. inversion H as [H']; clear H.
    f_equal.
    destruct (route_trends_ok trends) as [Hnd Hne]. fold routed in Hnd, Hne.
    unfold write_all at 1. apply fold_left_fixed. intros [k b] Hin.
    cbn [fst snd]. unfold write_timeline.
    rewrite (@write_all_same routed index k b Hnd Hin).
    assert (Hb : forall t, In t b ->
                 exists link, t_url t = Some link /\ http_link link = true).
    { intros t Ht. apply Hhttp.
      pose proof (@in_lookup _ k routed b Hnd Hin) as Hl.
      now apply (@routed_bucket_sound trends k b t Hl). }
    rewrite (@second_run_adds_nothing _ _ b Hb).
    destruct (generate_timeline (get (topic_name topics k) [])
                                (lookup k index) b) as [text|] eqn:E;
      [|reflexivity].
    apply upsert_same.
    now rewrite (@write_all_same routed index k b Hnd Hin).
Qed.

(** X11.  [run] leaves alone the timeline of every topic that no trend
    was routed to. *)
Theorem run_touches_only_routed_topics (trends : list trend)
        (index index' : list (str * str)) (k : str) :
  run is_word lower topics trends index = Some index' ->
  lookup k (route_trends is_word lower topics trends) = None ->
  lookup k index' = lookup k index.
Proof.
  unfold run. destruct trends as [|t0 trends0] eqn:Et.
  - intros H _; now inversion H.
  - rewrite <- Et in *. cbv zeta.
    destruct (forallb _ (route_trends is_word lower topics trends));
      [|discriminate].
    intros H Hk. inversion H as [H']; clear H.
    apply write_all_other. now apply lookup_none_keys.
Qed.

(** An empty pattern between two [\b] matches at the first boundary:
    the text has one as soon as it has a word character. *)
Lemma search_from_empty (prev : bool) (s : str) :
  search_from is_word prev [] s = prev || existsb is_word s.
Proof.
  revert prev; induction s as [|c s IH]; intros prev;
    cbn [search_from existsb]; unfold match_here;
    cbn [literal_then_boundary word_ahead].
  - destruct prev; reflexivity.
  - rewrite IH. destruct prev, (is_word c), (existsb is_word s); reflexivity.
Qed.

(** X12.  An empty keyword matches every text that has a word
    character: the pattern is then two word boundaries with nothing
    between them. *)
Theorem match_keywords_empty_keyword (text : str) (keywords : list str) :
  lower [] = [] -> In [] keywords ->
  existsb is_word (lower text) = true ->
  match_keywords is_word lower text keywords = true.
Proof.
  intros Hl Hin Hw. unfold match_keywords.
  apply match_keywords_loop_spec. exists []. split; [assumption|].
  rewrite Hl. unfold re_search_word. rewrite search_from_empty. exact Hw.
Qed.

End RoutingProperties.

Section SummaryNone.

Import TopicRouter TopicRouting.

Lemma word_behind_from_last (prev : bool) (a : str) (c : char) :
  word_behind_from unicode_is_word prev (a ++ [c]) = unicode_is_word c.
Proof.
  unfold word_behind_from. rewrite fold_left_app. reflexivity.
Qed.

(** X13.  A trend whose summary is [None] is matched by the keyword
    [none] in any letter case, whatever its title: the search text
    [route_trends] formats ends with the word [None]. *)
Theorem summary_none_matches_keyword_none (t : trend) (keywords : list str)
        (k : str) :
  t_summary t = None -> In k keywords -> unicode_lower k = u "none" ->
  match_keywords unicode_is_word unicode_lower (search_text t) keywords = true.
Proof.
  intros Hs Hin Hk. unfold match_keywords.
  apply match_keywords_loop_spec. exists k. split; [assumption|].
  rewrite Hk. unfold re_search_word. apply search_from_spec.
  exists (unicode_lower (t_title t) ++ [32%N]), [].
  unfold search_text. rewrite Hs. unfold unicode_lower.
  rewrite !map_app. split; [|split].
  - rewrite <- !app_assoc. reflexivity.
  - rewrite word_behind_from_last. reflexivity.
  - change (u "none") with (u "non" ++ [101%N]).
    rewrite !app_assoc, word_behind_from_last. reflexivity.
Qed.

End SummaryNone.

Lemma demo_router_topics_distinct : NoDup (map fst demo_router_topics).
Proof.
  vm_compute. constructor; [intros [H | []]; discriminate H|].
  constructor; [intros []|constructor].
Qed.

Lemma route_trends_bucket_is_filter_witness :
  bucket_of (u "misc")
            (TopicRouting.route_trends TopicRouter.unicode_is_word
               TopicRouter.unicode_lower demo_router_topics demo_trends)
  = filter (routes_to TopicRouter.unicode_is_word TopicRouter.unicode_lower
              (TopicRouting.mkconfig (Some (u "Misc")) (Some [u "None"])))
           demo_trends.
Proof.
  apply route_trends_bucket_is_filter.
  - apply demo_router_topics_distinct.
  - vm_compute. reflexivity.
Defined.

Lemma route_trends_keys_have_matches_witness :
  demo_trends <> []
  /\ (forall t, In t demo_trends ->
        In t demo_trends
        /\ exists c, In (u "misc", c) demo_router_topics
                     /\ routes_to TopicRouter.unicode_is_word
                                  TopicRouter.unicode_lower c t = true).
Proof.
  apply (@route_trends_keys_have_matches
           TopicRouter.unicode_is_word TopicRouter.unicode_lower
           demo_router_topics demo_trends (u "misc") demo_trends).
  vm_compute. reflexivity.
Defined.

Lemma run_twice_changes_nothing_witness :
  TopicRouting.run TopicRouter.unicode_is_word TopicRouter.unicode_lower
                   demo_router_topics demo_trends demo_index
  = Some demo_index.
Proof.
  apply (@run_twice_changes_nothing
           TopicRouter.unicode_is_word TopicRouter.unicode_lower
           demo_router_topics demo_trends [] demo_index).
  - intros t [<- | [<- | []]]; eexists; split; reflexivity.
  - vm_compute. reflexivity.
Defined.

Lemma run_touches_only_routed_topics_witness :
  lookup (u "sports") demo_index = lookup (u "sports") [].
Proof.
  apply (@run_touches_only_routed_topics
           TopicRouter.unicode_is_word TopicRouter.unicode_lower
           demo_router_topics demo_trends [] demo_index (u "sports")).
  - vm_compute. reflexivity.
  - vm_compute. reflexivity.
Defined.

Lemma match_keywords_empty_keyword_witness :
  TopicRouter.match_keywords TopicRouter.unicode_is_word
    TopicRouter.unicode_lower (u "... ok ...") [u "AI"; []] = true.
Proof.
  apply match_keywords_empty_keyword.
  - reflexivity.
  - right. left. reflexivity.
  - vm_compute. reflexivity.
Defined.

Lemma summary_none_matches_keyword_none_witness :
  TopicRouter.match_keywords TopicRouter.unicode_is_word
    TopicRouter.unicode_lower
    (TopicRouting.search_text
       (trend_of "Weather" (Some (u "https://example.com/u2")) "2026-01-20"))
    [u "None"] = true.
Proof.
  apply (@summary_none_matches_keyword_none _ _ (u "None")).
  - reflexivity.
  - left. reflexivity.
  - vm_compute. reflexivity.
Defined.

(** ** The classifier: what is filed, and where *)

Section ClassifierProperties.

Import TopicClassifier TopicInfo.

Variable _word_matches : str -> str -> bool.
Variable topics : list TopicDefinition.

Lemma hits_nonempty (k : str) (it : item) :
  hits _word_matches topics k it <> [] ->
  exists topic, In topic topics /\ id topic = k
                /\ topic_matches _word_matches topic it = true.
Proof.
  unfold hits. rewrite match_topics_filter. intros H.
  destruct (filter (str_eqb k) _) as [|x l] eqn:E; [congruence|].
  assert (Hx : In x (filter (str_eqb k)
            (map id (filter (fun topic => existsb (_word_matches (title it))
                                                  (keywords topic)) topics))))
    by (rewrite E; now left).
  apply filter_In in Hx. destruct Hx as [Hx Hk].
  apply str_eqb_eq in Hk. subst x.
  apply in_map_iff in Hx. destruct Hx as (topic & Hid & Ht).
  apply filter_In in Ht. destruct Ht as [Hin Hm].
  exists topic. auto.
Qed.

Lemma in_classify_bucket news_items rss_items (k : str) (it : item) :
  In it (bucket_of k (classify _word_matches topics news_items rss_items)) ->
  In it (hotlist_candidates news_items ++ rss_candidates rss_items)
  /\ hits _word_matches topics k it <> [].
Proof.
  rewrite classify_bucket, <- flat_map_app. intros H.
  apply in_flat_map in H. destruct H as (it' & Hin & Hm).
  apply in_map_iff in Hm. destruct Hm as (x & <- & Hx).
  split; [assumption|]. intros E. rewrite E in Hx. destruct Hx.
Qed.

Lemma add_item_ok (results : list (str * list item)) (it : item) :
  buckets_ok results -> buckets_ok (add_item _word_matches topics results it).
Proof.
  unfold add_item. generalize (_match_topics _word_matches topics (title it)).
  intros ids. revert results.
  induction ids as [|i ids IH]; intros results Hr; cbn [fold_left]; auto.
  apply IH. now apply bucket_append_ok.
Qed.

Lemma add_items_ok (items : list item) (results : list (str * list item)) :
  buckets_ok results ->
  buckets_ok (fold_left (add_item _word_matches topics) items results).
Proof.
  revert results; induction items as [|it items IH]; intros results Hr;
    cbn [fold_left]; auto.
  apply IH. now apply add_item_ok.
Qed.

Lemma classify_ok news_items rss_items :
  buckets_ok (classify _word_matches topics news_items rss_items).
Proof.
  unfold classify. destruct topics as [|t l] eqn:E; [apply buckets_ok_nil|].
  rewrite <- E. cbv zeta. apply add_items_ok, add_items_ok, buckets_ok_nil.
Qed.

Lemma get_topic_info_finds (l : list TopicDefinition) (k : str)
      (topic : TopicDefinition) :
  In topic l -> id topic = k ->
  exists first, get_topic_info l k = Some first /\ id first = k
                /\ In first l.
Proof.
  induction l as [|t l IH]; [intros []|].
  intros Hin Hid. cbn [get_topic_info].
  destruct (str_eqb (id t) k) eqn:E.
  - apply str_eqb_eq in E. exists t. split; [reflexivity|].
    split; [assumption | now left].
  - destruct Hin as [-> | Hin].
    + rewrite Hid, str_eqb_refl in E. discriminate.
    + destruct (IH Hin Hid) as (first & H1 & H2 & H3).
      exists first. split; [assumption|]. split; [assumption | now right].
Qed.

Lemma filter_id_unique (p : TopicDefinition -> bool) (topic : TopicDefinition)
      (l : list TopicDefinition) :
  NoDup (map id l) -> In topic l ->
  filter (str_eqb (id topic)) (map id (filter p l))
  = if p topic then [id topic] else [].
Proof.
  induction l as [|t l IH]; [intros _ []|].
  cbn [map]. intros Hnd Hin. inversion Hnd as [|? ? Hnot Hnd']; subst.
  assert (Hrest : forall q, In q l -> id q <> id t).
  { intros q Hq E. apply Hnot. rewrite <- E. now apply in_map. }
  destruct Hin as [-> | Hin].
  - assert (R : filter (str_eqb (id topic)) (map id (filter p l)) = []).
    { apply filter_none. intros x Hx. apply in_map_iff in Hx.
      destruct Hx as (q & <- & Hq). apply filter_In in Hq.
      apply str_eqb_neq. intros E. apply (Hrest q); [tauto | now symmetry]. }
    cbn [filter]. destruct (p topic); [|exact R].
    cbn [map filter]. now rewrite str_eqb_refl, R.
  - cbn [filter]. destruct (p t); [|now apply IH].
    cbn [map filter].
    replace (str_eqb (id topic) (id t)) with false; [now apply IH|].
    symmetry. apply str_eqb_neq. now apply Hrest.
Qed.

(** X14.  [classify] files only matches: an item in the bucket of [k]
    is a candidate of the input, and a keyword of a configured topic
    with id [k] matches its title. *)
Theorem classify_files_only_matches news_items rss_items (k : str)
        (it : item) :
  In it (bucket_of k (classify _word_matches topics news_items rss_items)) ->
  In it (hotlist_candidates news_items ++ rss_candidates rss_items)
  /\ exists topic, In topic topics /\ id topic = k
                   /\ topic_matches _word_matches topic it = true.
Proof.
  intros H. apply in_classify_bucket in H. destruct H as [Hin Hh].
  split; [assumption|]. now apply hits_nonempty.
Qed.

(** X15.  Every key of the result of [classify] has a bucket that is
    not empty, and [get_topic_info] resolves the key to a configured
    topic with that id. *)
Theorem classify_keys_resolve news_items rss_items (k : str)
        (bucket : list item) :
  lookup k (classify _word_matches topics news_items rss_items) = Some bucket ->
  bucket <> []
  /\ exists topic, get_topic_info topics k = Some topic /\ id topic = k
                   /\ In topic topics.
Proof.
  intros Hl.
  assert (Hne : bucket <> []).
  { destruct (classify_ok news_items rss_items) as [_ Hne].
    rewrite Forall_forall in Hne. apply (Hne (k, bucket)).
    now apply lookup_in. }
  split; [assumption|].
  destruct bucket as [|it bucket]; [congruence|].
  assert (Hb : In it (bucket_of k (classify _word_matches topics
                                            news_items rss_items)))
    by (unfold bucket_of; rewrite Hl; now left).
  apply in_classify_bucket in Hb. destruct Hb as [_ Hh].
  apply hits_nonempty in Hh. destruct Hh as (topic & Hin & Hid & _).
  now apply (@get_topic_info_finds topics k topic).
Qed.

(** X16.  With distinct topic ids, the bucket of a topic is the list of
    the candidates it matches, each once, hotlist candidates first, in
    the order of the input. *)
Theorem classify_bucket_is_filter news_items rss_items
        (topic : TopicDefinition) :
  NoDup (map id topics) -> In topic topics ->
  bucket_of (id topic) (classify _word_matches topics news_items rss_items)
  = filter (topic_matches _word_matches topic)
           (hotlist_candidates news_items ++ rss_candidates rss_items).
Proof.
  intros Hnd Hin. rewrite classify_bucket, <- flat_map_app.
  apply flat_map_filter_if. intros it. unfold hits.
  rewrite match_topics_filter.
  rewrite (@filter_id_unique
             (fun topic => existsb (_word_matches (title it)) (keywords topic))
             topic topics Hnd Hin).
  unfold topic_matches.
  destruct (existsb (_word_matches (title it)) (keywords topic)); reflexivity.
Qed.

End ClassifierProperties.

Lemma classify_files_only_matches_witness :
  In demo_item (TopicClassifier.hotlist_candidates demo_news
                ++ TopicClassifier.rss_candidates demo_rss)
  /\ exists topic, In topic demo_topics
                   /\ TopicClassifier.id topic = u "models"
                   /\ topic_matches demo_matcher topic demo_item = true.
Proof.
  apply (@classify_files_only_matches demo_matcher demo_topics
                                      demo_news demo_rss (u "models")).
  vm_compute. left. reflexivity.
Defined.

Lemma classify_keys_resolve_witness :
  [demo_item] <> []
  /\ exists topic,
       TopicInfo.get_topic_info demo_topics (u "models") = Some topic
       /\ TopicClassifier.id topic = u "models"
       /\ In topic demo_topics.
Proof.
  apply (@classify_keys_resolve demo_matcher demo_topics
                                demo_news demo_rss (u "models") [demo_item]).
  vm_compute. reflexivity.
Defined.

Lemma classify_bucket_is_filter_witness :
  bucket_of (TopicClassifier.id
               (TopicClassifier.mkdef (u "models") (u "Models") [u "模型"] [] 999))
            (TopicClassifier.classify demo_matcher demo_topics
                                      demo_news demo_rss)
  = filter (topic_matches demo_matcher
              (TopicClassifier.mkdef (u "models") (u "Models") [u "模型"] [] 999))
           (TopicClassifier.hotlist_candidates demo_news
            ++ TopicClassifier.rss_candidates demo_rss).
Proof.
  apply classify_bucket_is_filter.
  - vm_compute. constructor; [intros [H | []]; discriminate H|].
    constructor; [intros []|constructor].
  - right. left. reflexivity.
Defined.

(** ** The archive: listing, and what a save leaves behind *)

Section Listing.

Import TopicStorage TopicDates TopicRouter.

Lemma str_ltb_irrefl (a : str) : str_ltb a a = false.
Proof.
  induction a as [|x a IH]; cbn [str_ltb]; [reflexivity|].
  now rewrite N.ltb_irrefl, N.eqb_refl, IH.
Qed.

Lemma str_ltb_trans (a b c : str) :
  str_ltb a b = true -> str_ltb b c = true -> str_ltb a c = true.
Proof.
  revert b c; induction a as [|x a IH]; intros [|y b] [|z c];
    cbn [str_ltb]; try discriminate; auto.
  intros H1 H2.
  apply orb_true_iff in H1. apply orb_true_iff in H2. apply orb_true_iff.
  rewrite !andb_true_iff, !N.ltb_lt, !N.eqb_eq in *.
  destruct H1 as [H1 | [H1 H1']], H2 as [H2 | [H2 H2']].
  - left. lia.
  - left. lia.
  - left. lia.
  - right. split; [lia | eauto].
Qed.

Lemma str_ltb_total (a b : str) :
  str_ltb a b = false -> str_ltb b a = false -> a = b.
Proof.
  revert b; induction a as [|x a IH]; intros [|y b]; cbn [str_ltb];
    try discriminate; auto.
  intros H1 H2.
  apply orb_false_iff in H1. apply orb_false_iff in H2.
  destruct H1 as [H1 H1'], H2 as [H2 H2'].
  apply N.ltb_ge in H1. apply N.ltb_ge in H2.
  assert (x = y) by lia. subst y. rewrite N.eqb_refl in *.
  cbn [andb] in *. f_equal. auto.
Qed.

(** [a >= b] is transitive. *)
Lemma str_geb_trans (a b c : str) :
  str_ltb a b = false -> str_ltb b c = false -> str_ltb a c = false.
Proof.
  intros H1 H2. destruct (str_ltb a c) eqn:E; [|reflexivity].
  destruct (str_ltb c b) eqn:E2.
  - now rewrite (@str_ltb_trans a c b E E2) in H1.
  - pose proof (@str_ltb_total b c H2 E2). subst c. congruence.
Qed.

Lemma insert_desc_descending (k : str) (l : list str) :
  descending l -> descending (insert_desc k l).
Proof.
  induction l as [|x l IH]; intros Hl; cbn [insert_desc].
  - cbn. auto.
  - destruct Hl as [Hx Hs]. destruct (str_ltb k x) eqn:E.
    + cbn [descending]. split; [|auto].
      rewrite Forall_forall in *. intros y Hy.
      apply in_insert_desc in Hy. destruct Hy as [-> | Hy]; [|auto].
      destruct (str_ltb x k) eqn:E2; [|reflexivity].
      pose proof (@str_ltb_trans k x k E E2) as F.
      now rewrite str_ltb_irrefl in F.
    + cbn [descending]. split; [|split; assumption].
      constructor; [assumption|].
      rewrite Forall_forall in *. intros y Hy.
      apply (@str_geb_trans k x y E). auto.
Qed.

Lemma sorted_desc_descending (l : list str) : descending (sorted_desc l).
Proof.
  unfold sorted_desc. induction l as [|x l IH]; cbn [fold_right].
  - exact I.
  - now apply insert_desc_descending.
Qed.

(** The listing names exactly the records that can be read. *)
Lemma in_list_topic_dates (st : store) (topic_id d : str) :
  In d (list_topic_dates st topic_id) <->
  exists date text,
    read_topic_file st topic_id date = Some text /\ stem_of date = d.
Proof.
  unfold list_topic_dates, read_topic_file, file_at.
  destruct (lookup topic_id st) as [[c|files]|].
  - split; [intros [] | intros (? & ? & H & _)]; discriminate.
  - rewrite in_sorted_desc, in_map_iff. split.
    + intros ([k v] & Hs & Hin). cbn [fst] in Hs.
      assert (Hk : In k (map fst files))
        by (apply in_map_iff; now exists (k, v)).
      apply lookup_some_keys in Hk. destruct Hk as [v' Hv'].
      exists k, (universal_newlines v'). now rewrite Hv'.
    + intros (date & text & Hr & Hs).
      destruct (lookup date files) as [v|] eqn:E; [|discriminate].
      apply lookup_in in E. now exists (date, v).
  - split; [intros [] | intros (? & ? & H & _)]; discriminate.
Qed.

(** X17.  The listing of a topic is in descending order, and it names
    exactly the records [read_topic_file] finds, each by the stem of
    its file name. *)
Theorem list_topic_dates_sorted_and_exact (st : store) (topic_id d : str) :
  descending (list_topic_dates st topic_id)
  /\ (In d (list_topic_dates st topic_id) <->
      exists date text,
        read_topic_file st topic_id date = Some text /\ stem_of date = d).
Proof.
  split; [|apply in_list_topic_dates].
  unfold list_topic_dates.
  destruct (lookup topic_id st) as [[c|files]|];
    [exact I | apply sorted_desc_descending | exact I].
Qed.

Lemma file_at_write_other (st st' : store)
      (topic_id date content topic_id' date' : str) :
  write_file st topic_id date content = Some st' ->
  topic_id' <> topic_id \/ date' <> date ->
  file_at st' topic_id' date' = file_at st topic_id' date'.
Proof.
  unfold write_file, file_at. intros H Hne.
  destruct (str_eqb topic_id' topic_id) eqn:E.
  - apply str_eqb_eq in E. subst topic_id'.
    destruct Hne as [Hne | Hne]; [congruence|].
    destruct (lookup topic_id st) as [[c|files]|];
      inversion H; subst; clear H; rewrite lookup_upsert_same.
    + now apply lookup_upsert_other.
    + cbn [lookup]. apply str_eqb_neq in Hne. now rewrite Hne.
  - apply str_eqb_neq in E.
    destruct (lookup topic_id st) as [[c|files]|];
      inversion H; subst; clear H; now rewrite lookup_upsert_other.
Qed.

Lemma save_is_a_write (st st' : store) (date topic_id topic_name : str)
      (items : list item) (append : bool) :
  save_topic_classification st date topic_id topic_name items append = Some st' ->
  exists content, write_file st topic_id date content = Some st'.
Proof.
  unfold save_topic_classification, _append_to_existing.
  destruct (lookup topic_id st) as [[c|files]|] eqn:El; [discriminate| |];
    destruct (file_at st topic_id date) as [raw|];
    try destruct append; eauto.
Qed.

(** Without a record to append to, or with [append] off, a save writes
    the generated text. *)
Lemma save_writes_generated (st : store) (date topic_id topic_name : str)
      (items : list item) (append : bool) :
  append = false \/ file_at st topic_id date = None ->
  (forall c, lookup topic_id st <> Some (File c)) ->
  exists st',
    save_topic_classification st date topic_id topic_name items append = Some st'
    /\ file_at st' topic_id date
       = Some (_generate_markdown date topic_name items).
Proof.
  intros Hmode Hdir.
  assert (Hs : save_topic_classification st date topic_id topic_name items append
               = write_file st topic_id date
                            (_generate_markdown date topic_name items)).
  { unfold save_topic_classification.
    destruct (lookup topic_id st) as [[c|files]|] eqn:El.
    - now destruct (Hdir c).
    - destruct (file_at st topic_id date); [|reflexivity].
      destruct Hmode as [-> | H]; [reflexivity | discriminate].
    - destruct (file_at st topic_id date); [|reflexivity].
      destruct Hmode as [-> | H]; [reflexivity | discriminate]. }
  rewrite Hs.
  destruct (write_file st topic_id date
                       (_generate_markdown date topic_name items))
    as [st'|] eqn:Hw.
  - exists st'. split; [reflexivity|].
    now apply (@file_at_write_file st st' topic_id date _ Hw).
  - exfalso. unfold write_file in Hw.
    destruct (lookup topic_id st) as [[c|files]|] eqn:El; try discriminate.
    now destruct (Hdir c).
Qed.

(** X18.  A save changes one record: every other record of the archive
    reads as before. *)
Theorem save_leaves_other_records (st st' : store)
        (date topic_id topic_name : str) (items : list item) (append : bool)
        (topic_id' date' : str) :
  save_topic_classification st date topic_id topic_name items append = Some st' ->
  topic_id' <> topic_id \/ date' <> date ->
  read_topic_file st' topic_id' date' = read_topic_file st topic_id' date'.
Proof.
  intros Hs Hne. apply save_is_a_write in Hs. destruct Hs as [content Hw].
  unfold read_topic_file. f_equal. eapply file_at_write_other; eauto.
Qed.

(** X19.  Without a record to append to, or with [append] off, a save
    writes the generated text: it is what [read_topic_file] returns
    afterwards, and the record is in the listing of the topic. *)
Theorem save_then_read (st : store) (date topic_id topic_name : str)
        (items : list item) (append : bool) :
  append = false \/ file_at st topic_id date = None ->
  (forall c, lookup topic_id st <> Some (File c)) ->
  exists st',
    save_topic_classification st date topic_id topic_name items append = Some st'
    /\ read_topic_file st' topic_id date
       = Some (universal_newlines (_generate_markdown date topic_name items))
    /\ In (stem_of date) (list_topic_dates st' topic_id).
Proof.
  intros Hmode Hdir.
  destruct (@save_writes_generated st date topic_id topic_name items append
                                   Hmode Hdir) as (st' & Hs & Hf).
  exists st'. split; [exact Hs|].
  assert (Hr : read_topic_file st' topic_id date
               = Some (universal_newlines
                         (_generate_markdown date topic_name items)))
    by (unfold read_topic_file; now rewrite Hf).
  split; [exact Hr|]. apply in_list_topic_dates. eauto.
Qed.

End Listing.

Lemma save_leaves_other_records_witness :
  TopicStorage.read_topic_file demo_archive_two_days
                               (u "ai-tech") (u "2026-01-19")
  = TopicStorage.read_topic_file demo_archive (u "ai-tech") (u "2026-01-19").
Proof.
  apply (@save_leaves_other_records
           demo_archive demo_archive_two_days (u "2026-01-20") (u "ai-tech")
           (u "AI科技") [demo_feed_item] true (u "ai-tech") (u "2026-01-19")).
  - vm_compute. reflexivity.
  - right. intros H. vm_compute in H. discriminate H.
Defined.

Lemma save_then_read_witness :
  exists st',
    TopicStorage.save_topic_classification
      [] (u "2026-01-19") (u "ai-tech") (u "AI科技") [demo_item] true = Some st'
    /\ TopicStorage.read_topic_file st' (u "ai-tech") (u "2026-01-19")
       = Some (universal_newlines
                 (TopicStorage._generate_markdown
                    (u "2026-01-19") (u "AI科技") [demo_item]))
    /\ In (TopicDates.stem_of (u "2026-01-19"))
          (TopicDates.list_topic_dates st' (u "ai-tech")).
Proof.
  apply save_then_read.
  - right. reflexivity.
  - intros c H. discriminate H.
Defined.

Lemma save_keeps_human_regions_witness :
  exists st' out,
    TopicStorage.save_topic_classification
      noted_archive (u "2026-01-20") (u "ai-tech") (u "AI科技")
      [demo_item] true = Some st'
    /\ file_at st' (u "ai-tech") (u "2026-01-20") = Some out
    /\ contains (TopicStorage.extract_human_notes
                   (universal_newlines noted_record)) out = true
    /\ contains (TopicStorage.extract_importance
                   (universal_newlines noted_record)) out = true.
Proof.
  apply save_keeps_human_regions.
  - vm_compute. reflexivity.
  - vm_compute. reflexivity.
Defined.

(** ** The digest: when it is empty *)

Section DigestEmpty.

Import TopicStorage HistorySummarizer.
Local Open Scope Z_scope.

Lemma history_items_nil (st : store) (topic_id : str) (dates : list str) :
  history_items st topic_id dates = [] <->
  forall date, In date dates -> qualifies st topic_id date = false.
Proof.
  unfold history_items, qualifies.
  induction dates as [|d dates IH]; cbn [flat_map].
  - split; [intros _ ? [] | reflexivity].
  - split.
    + intros H. apply app_eq_nil in H. destruct H as [H1 H2].
      intros date [<- | Hin]; [|now apply IH].
      destruct (read_topic_file st topic_id d) as [[|c content]|]; auto.
      destruct (total_items (_extract_stats (c :: content)) >? 0);
        [discriminate | reflexivity].
    + intros H. rewrite (proj2 IH) by (intros; apply H; now right).
      rewrite app_nil_r. specialize (H d (or_introl eq_refl)).
      destruct (read_topic_file st topic_id d) as [[|c content]|]; auto.
      now rewrite H.
Qed.

Lemma summarize_none (st : store) (topic_id : str) (dates : list str) :
  _summarize_topic_history st topic_id dates = None <->
  history_items st topic_id dates = [].
Proof.
  unfold _summarize_topic_history.
  destruct (history_items st topic_id dates); split; congruence.
Qed.

Lemma collect_nil (st : store) (dates : list str) (max_chars : Z)
      (entries : store) (total_chars : Z) :
  collect st dates max_chars entries total_chars = [] <->
  forall topic_id files,
    In (topic_id, Dir files) entries ->
    history_items st topic_id dates = [].
Proof.
  revert total_chars; induction entries as [|[k nd] entries IH];
    intros total_chars; cbn [collect].
  - split; [intros _ ? ? [] | reflexivity].
  - destruct nd as [c|files].
    + rewrite IH. split; intros H topic_id files' Hin.
      * destruct Hin as [Hin | Hin]; [discriminate | eauto].
      * apply (H topic_id files'). now right.
    + destruct (_summarize_topic_history st k dates) as [[nm content]|] eqn:E.
      * split.
        -- intros H. exfalso.
           destruct (total_chars + len (summary_text nm content) >? max_chars);
             discriminate.
        -- intros H. exfalso.
           assert (N : _summarize_topic_history st k dates = None).
           { apply summarize_none. apply (H k files). now left. }
           congruence.
      * rewrite IH. apply summarize_none in E. split; intros H topic_id files' Hin.
        -- destruct Hin as [Hin | Hin]; [inversion Hin; now subst | eauto].
        -- apply (H topic_id files'). now right.
Qed.

Lemma header_nonempty (dates : list str) : header dates <> [].
Proof. unfold header. discriminate. Qed.

(** X21.  The digest is the empty string exactly when no topic
    directory has a qualifying record in the window; otherwise it
    starts with the header, whatever the budget. *)
Theorem digest_empty_iff_nothing_qualifies
        (st : store) (days : Z) (current_date : str) (max_tokens : Z)
        (dates : list str) :
  _get_date_range current_date days true = Some dates ->
  exists digest,
    get_recent_summaries (Some st) days current_date max_tokens = Some digest
    /\ (digest = [] <->
        forall topic_id files date,
          In (topic_id, Dir files) st -> In date dates ->
          qualifies st topic_id date = false)
    /\ (digest <> [] -> exists rest, digest = header dates ++ rest).
Proof.
  intros Hd. unfold get_recent_summaries. rewrite Hd.
  destruct dates as [|d dates].
  - exists []. split; [reflexivity|]. split; [|congruence].
    split; [intros _ ? ? ? _ [] | reflexivity].
  - remember (d :: dates) as window.
    destruct (collect st window (max_chars_of max_tokens) st 0)
      as [|s summaries] eqn:E.
    + exists []. split; [reflexivity|]. split; [|congruence].
      split; [|reflexivity]. intros _ topic_id files date Hin Hdate.
      pose proof (proj1 (collect_nil st window _ st 0) E topic_id files Hin) as H.
      now apply (proj1 (history_items_nil st topic_id window) H).
    + eexists. split; [reflexivity|]. split.
      * split.
        -- intros H. apply app_eq_nil in H. destruct H as [H _].
           now apply header_nonempty in H.
        -- intros H. exfalso.
           assert (N : collect st window (max_chars_of max_tokens) st 0 = []).
           { apply collect_nil. intros topic_id files Hin.
             apply history_items_nil. intros date Hdate. eauto. }
           congruence.
      * intros _. eexists. reflexivity.
Qed.

End DigestEmpty.

Lemma digest_empty_iff_nothing_qualifies_witness :
  exists digest,
    HistorySummarizer.get_recent_summaries
      (Some demo_archive) 7 (u "2026-01-20") 3000 = Some digest
    /\ (digest = [] <->
        forall topic_id files date,
          In (topic_id, Dir files) demo_archive -> In date demo_week ->
          qualifies demo_archive topic_id date = false)
    /\ (digest <> [] ->
        exists rest, digest = HistorySummarizer.header demo_week ++ rest).
Proof.
  apply digest_empty_iff_nothing_qualifies.
  vm_compute. reflexivity.
Defined.

(** ** The statistics of a record, read back *)

Section Decimals.

Local Open Scope Z_scope.

Lemma u_string_of_uint (d : Decimal.uint) :
  u (NilEmpty.string_of_uint d) = digits_of d.
Proof.
  unfold u. induction d; cbn [NilEmpty.string_of_uint list_ascii_of_string map
                              digits_of]; [reflexivity| ..];
    (etransitivity; [|apply f_equal; exact IHd]); reflexivity.
Qed.

Lemma digits_of_are_digits (d : Decimal.uint) :
  forallb is_digit (digits_of d) = true.
Proof. induction d; cbn [digits_of forallb]; auto. Qed.

Lemma int_digits_digit (c : char) (rest : str) (prev : bool) (acc k : Z) :
  decimal_value c = Some k ->
  int_digits (c :: rest) prev acc = int_digits rest true (10 * acc + k).
Proof. intros H. cbn [int_digits]. now rewrite H. Qed.

Lemma int_digits_acc (d : Decimal.uint) (acc : positive) :
  int_digits (digits_of d) true (Z.pos acc)
  = Some (Z.pos (Pos.of_uint_acc d acc)).
Proof.
  revert acc; induction d; intros acc; cbn [digits_of Pos.of_uint_acc];
    [reflexivity| ..];
    (erewrite int_digits_digit by reflexivity);
    match goal with
    | |- _ = Some (Z.pos (Pos.of_uint_acc _ ?a)) =>
      rewrite <- IHd; f_equal; lia
    end.
Qed.

Lemma int_digits_of_uint (d : Decimal.uint) (prev : bool) :
  d <> Decimal.Nil \/ prev = true ->
  int_digits (digits_of d) prev 0 = Some (Z.of_N (Pos.of_uint d)).
Proof.
  revert prev; induction d; intros prev H; cbn [digits_of Pos.of_uint];
    [destruct H as [H | ->]; [congruence | reflexivity] | ..];
    (erewrite int_digits_digit by reflexivity).
  - apply IHd. now right.
  - apply (int_digits_acc d 1).
  - apply (int_digits_acc d 2).
  - apply (int_digits_acc d 3).
  - apply (int_digits_acc d 4).
  - apply (int_digits_acc d 5).
  - apply (int_digits_acc d 6).
  - apply (int_digits_acc d 7).
  - apply (int_digits_acc d 8).
  - apply (int_digits_acc d 9).
Qed.

(** [str(n)] of a natural number: a non-empty run of digits that
    [int] reads back. *)
Lemma str_of_Z_digits (n : Z) :
  0 <= n ->
  exists d, str_of_Z n = digits_of d /\ d <> Decimal.Nil
            /\ int_digits (digits_of d) false 0 = Some n.
Proof.
  intros Hn. unfold str_of_Z.
  pose proof (DecimalZ.of_to n) as Hof.
  destruct n as [|p|p]; [| |lia].
  - exists (Decimal.D0 Decimal.Nil). split; [reflexivity|].
    split; [discriminate | reflexivity].
  - exists (Pos.to_uint p). cbn [Z.to_int NilEmpty.string_of_int].
    split; [apply u_string_of_uint|].
    cbn [Z.to_int Z.of_int] in Hof. unfold Z.of_uint in Hof.
    assert (Hnn : Pos.to_uint p <> Decimal.Nil).
    { intros E. rewrite E in Hof. discriminate. }
    split; [exact Hnn|]. rewrite int_digits_of_uint by now left.
    now rewrite Hof.
Qed.

End Decimals.

Section SingleCharSplit.

Lemma split_char_app (c : char) (a b : str) :
  split [c] (a ++ c :: b) = split [c] a ++ split [c] b.
Proof.
  unfold split. induction a as [|x a IH]; cbn [app].
  - cbn [split_scan startswith length Nat.sub].
    now rewrite N.eqb_refl.
  - cbn [split_scan startswith length Nat.sub]. rewrite IH.
    destruct ((c =? x)%N && true); [reflexivity|].
    pose proof (split_scan_nonempty [c] a 0) as Hne.
    destruct (split_scan [c] a 0); [congruence | reflexivity].
Qed.

Lemma split_char_absent (c : char) (s : str) :
  ~ In c s -> split [c] s = [s].
Proof.
  unfold split. induction s as [|x s IH]; intros H; [reflexivity|].
  cbn [split_scan startswith length Nat.sub].
  replace (c =? x)%N with false
    by (symmetry; apply N.eqb_neq; intros ->; apply H; now left).
  cbn [andb]. rewrite IH; [reflexivity|]. intros Hin. apply H. now right.
Qed.

(** Every line of a text is a stretch of it. *)
Lemma split_newline_infix (s line : str) :
  In line (split [NL] s) -> exists a b, s = a ++ line ++ b.
Proof.
  unfold split.
  assert (G : forall s,
             (exists b, s = hd [] (split_scan [NL] s 0) ++ b)
             /\ forall line, In line (split_scan [NL] s 0) ->
                             exists a b, s = a ++ line ++ b).
  { clear. induction s as [|x s [[b Hb] IH]].
    - split; [now exists []|]. intros line [<- | []]. now exists [], [].
    - cbn [split_scan startswith length Nat.sub].
      destruct (N.eqb_spec NL x) as [<-|Hx]; cbn [andb].
      + split; [now exists (NL :: s)|].
        intros line [<- | Hin]; [now exists [], (NL :: s)|].
        destruct (IH line Hin) as (a & b' & E). exists (NL :: a), b'.
        now rewrite E.
      + pose proof (split_scan_nonempty [NL] s 0) as Hne.
        destruct (split_scan [NL] s 0) as [|h t]; [congruence|].
        cbn [hd] in *. split; [exists b; now rewrite Hb at 1|].
        intros line [<- | Hin].
        * exists [], b. cbn [app]. now rewrite Hb at 1.
        * destruct (IH line (or_intror Hin)) as (a & b' & E).
          exists (x :: a), b'. now rewrite E at 1. }
  apply G.
Qed.

End SingleCharSplit.

Section StatsRoundTrip.

Import TopicStorage HistorySummarizer.
Local Open Scope Z_scope.

Lemma contains_false_inside (sub x mid y : str) :
  contains sub (x ++ mid ++ y) = false -> contains sub mid = false.
Proof.
  intros H. destruct (contains sub mid) eqn:E; [|reflexivity].
  now rewrite (@contains_inside sub x mid y E) in H.
Qed.

Lemma mentions_label_inside (x mid y : str) :
  mentions_label (x ++ mid ++ y) = false -> mentions_label mid = false.
Proof.
  unfold mentions_label. intros H.
  apply orb_false_iff in H. destruct H as [H H3].
  apply orb_false_iff in H. destruct H as [H1 H2].
  now rewrite (contains_false_inside _ _ _ _ H1),
              (contains_false_inside _ _ _ _ H2),
              (contains_false_inside _ _ _ _ H3).
Qed.

Lemma stats_step_skip (st : stats) (line : str) :
  mentions_label line = false -> stats_step st line = st.
Proof.
  unfold mentions_label, stats_step. intros H.
  apply orb_false_iff in H. destruct H as [H H3].
  apply orb_false_iff in H. destruct H as [H1 H2].
  change (u "总条目") with LABEL_TOTAL.
  change (u "热榜来源") with LABEL_HOTLIST.
  change (u "RSS来源") with LABEL_RSS.
  now rewrite H1, H2, H3.
Qed.

Lemma scan_app (a b : str) (st : stats) :
  scan (a ++ NL :: b) st = scan b (scan a st).
Proof. unfold scan. now rewrite split_char_app, fold_left_app. Qed.

Lemma scan_clean (s : str) (st : stats) :
  mentions_label s = false -> scan s st = st.
Proof.
  intros H. unfold scan. apply fold_left_fixed. intros line Hin.
  apply stats_step_skip. apply split_newline_infix in Hin.
  destruct Hin as (a & b & ->). now apply mentions_label_inside in H.
Qed.


Lemma contains_first_absent (c : char) (rest s : str) :
  ~ In c s -> contains (c :: rest) s = false.
Proof.
  induction s as [|x s IH]; intros H; cbn [contains startswith].
  - reflexivity.
  - replace (c =? x)%N with false
      by (symmetry; apply N.eqb_neq; intros ->; apply H; now left).
    cbn [andb orb]. apply IH. intros Hin. apply H. now right.
Qed.

Lemma digits_exclude (d : Decimal.uint) (c : char) :
  is_digit c = false -> ~ In c (digits_of d).
Proof.
  intros Hc Hin. pose proof (digits_of_are_digits d) as H.
  rewrite forallb_forall in H. rewrite (H c Hin) in Hc. discriminate.
Qed.

Lemma lstrip_fixed (s : str) :
  (forall c, In c s -> isspace c = false) -> lstrip s = s.
Proof.
  destruct s as [|c s]; [reflexivity|]. intros H. cbn [lstrip].
  now rewrite (H c (or_introl eq_refl)).
Qed.

Lemma digit_not_space (c : char) : is_digit c = true -> isspace c = false.
Proof.
  unfold is_digit, isspace. intros H.
  apply andb_true_iff in H. destruct H as [H1 H2].
  apply N.leb_le in H1. apply N.leb_le in H2.
  repeat match goal with
         | |- context [(?a <=? ?b)%N] =>
           destruct (N.leb_spec a b); try lia
         | |- context [(?a =? ?b)%N] =>
           destruct (N.eqb_spec a b); try lia
         end; reflexivity.
Qed.

Lemma strip_padded_digits (d : Decimal.uint) :
  d <> Decimal.Nil ->
  strip (32%N :: digits_of d ++ [32%N]) = digits_of d.
Proof.
  intros Hne.
  assert (Hd : forall c, In c (digits_of d) -> isspace c = false).
  { intros c Hin. apply digit_not_space.
    pose proof (digits_of_are_digits d) as H.
    rewrite forallb_forall in H. auto. }
  unfold strip, rstrip. cbn [lstrip]. change (isspace 32%N) with true. cbv iota.
  assert (E : lstrip (digits_of d ++ [32%N]) = digits_of d ++ [32%N]).
  { destruct (digits_of d) as [|c ds] eqn:Ed;
      [destruct d; discriminate || congruence|].
    cbn [app lstrip]. now rewrite (Hd c (or_introl eq_refl)). }
  rewrite E, rev_app_distr. cbn [rev app lstrip].
  change (isspace 32%N) with true. cbv iota.
  rewrite lstrip_fixed; [apply rev_involutive|].
  intros c Hin. apply Hd. now apply in_rev.
Qed.

Lemma py_int_digits (d : Decimal.uint) (n : Z) :
  d <> Decimal.Nil -> int_digits (digits_of d) false 0 = Some n ->
  py_int (digits_of d) = Some n.
Proof.
  intros Hne Hv. unfold py_int.
  assert (Hd : forall c, In c (digits_of d) -> int_isspace c = false).
  { intros c Hin. pose proof (digits_of_are_digits d) as H.
    rewrite forallb_forall in H. specialize (H c Hin).
    unfold is_digit in H. unfold int_isspace.
    apply andb_true_iff in H. destruct H as [H1 H2].
    apply N.leb_le in H1. apply N.leb_le in H2.
    replace (c <=? 13)%N with false by (symmetry; apply N.leb_gt; lia).
    replace (c =? 32)%N with false by (symmetry; apply N.eqb_neq; lia).
    replace (128 <=? c)%N with false by (symmetry; apply N.leb_gt; lia).
    now rewrite andb_false_r. }
  assert (F : forall s, (forall c, In c s -> int_isspace c = false) ->
                        drop_while int_isspace s = s).
  { intros [|c s] H; [reflexivity|]. cbn [drop_while].
    now rewrite (H c (or_introl eq_refl)). }
  rewrite (F _ Hd). rewrite F by (intros c Hin; apply Hd; now apply in_rev).
  rewrite rev_involutive. cbv zeta.
  destruct (digits_of d) as [|c ds] eqn:Ed.
  - destruct d; discriminate.
  - assert (Hc : is_digit c = true).
    { pose proof (digits_of_are_digits d) as H. rewrite Ed in H.
      cbn [forallb] in H. now apply andb_true_iff in H. }
    unfold is_digit in Hc. apply andb_true_iff in Hc. destruct Hc as [H1 H2].
    apply N.leb_le in H1. apply N.leb_le in H2.
    replace (c =? 45)%N with false by (symmetry; apply N.eqb_neq; lia).
    replace (c =? 43)%N with false by (symmetry; apply N.eqb_neq; lia).
    exact Hv.
Qed.

(** The count of a statistics line is read back. *)
Lemma parse_count_stat_line (label : str) (n : Z) :
  ~ In 58%N label -> 0 <= n ->
  parse_count (stat_line label n) = Some n.
Proof.
  intros Hl Hn. destruct (@str_of_Z_digits n Hn) as (d & Hd & Hne & Hv).
  unfold stat_line, parse_count. rewrite Hd.
  change (u ": ") with [58%N; 32%N]. change (u " 条") with [32%N; 26465%N].
  change (u ":") with [58%N]. change (u "条") with [26465%N].
  change (u "**") with [42%N; 42%N].
  change (label ++ [58%N; 32%N] ++ digits_of d ++ [32%N; 26465%N])
    with (label ++ 58%N :: (32%N :: digits_of d ++ [32%N; 26465%N])).
  rewrite split_char_app, (@split_char_absent _ _ Hl).
  assert (Hc : ~ In 58%N (32%N :: digits_of d ++ [32%N; 26465%N])).
  { intros [H | H]; [discriminate|]. apply in_app_or in H.
    destruct H as [H | [H | [H | []]]]; try discriminate.
    revert H. now apply digits_exclude. }
  rewrite (@split_char_absent _ _ Hc). cbn [app].
  replace (32%N :: digits_of d ++ [32%N; 26465%N])
    with ((32%N :: digits_of d ++ [32%N]) ++ 26465%N :: [])
    by (cbn [app]; rewrite <- app_assoc; reflexivity).
  rewrite split_char_app.
  assert (Ht : ~ In 26465%N (32%N :: digits_of d ++ [32%N])).
  { intros [H | H]; [discriminate|]. apply in_app_or in H.
    destruct H as [H | [H | []]]; try discriminate.
    revert H. now apply digits_exclude. }
  rewrite (@split_char_absent _ _ Ht). cbn [app hd].
  rewrite (@strip_padded_digits d Hne).
  rewrite replace_absent;
    [| discriminate | apply contains_first_absent; now apply digits_exclude].
  now apply py_int_digits.
Qed.

(** A statistics line is one line and mentions its own label only. *)
Lemma stat_line_no_newline (label : str) (n : Z) :
  ~ In NL label -> 0 <= n -> ~ In NL (stat_line label n).
Proof.
  intros Hl Hn. destruct (@str_of_Z_digits n Hn) as (d & Hd & _ & _).
  unfold stat_line. rewrite Hd.
  change (u ": ") with [58%N; 32%N]. change (u " 条") with [32%N; 26465%N].
  intros H. apply in_app_or in H. destruct H as [H | H]; [auto|].
  apply in_app_or in H. destruct H as [[H | [H | []]] | H]; try discriminate.
  apply in_app_or in H. destruct H as [H | [H | [H | []]]]; try discriminate.
  revert H. now apply digits_exclude.
Qed.

Lemma stat_line_excludes (label : str) (n : Z) (c : char) :
  ~ In c label -> is_digit c = false -> c <> 58%N -> c <> 32%N -> c <> 26465%N ->
  0 <= n -> ~ In c (stat_line label n).
Proof.
  intros Hl Hc H1 H2 H3 Hn. destruct (@str_of_Z_digits n Hn) as (d & Hd & _ & _).
  unfold stat_line. rewrite Hd.
  change (u ": ") with [58%N; 32%N]. change (u " 条") with [32%N; 26465%N].
  intros H. apply in_app_or in H. destruct H as [H | H]; [auto|].
  apply in_app_or in H. destruct H as [[H | [H | []]] | H]; try congruence.
  apply in_app_or in H. destruct H as [H | [H | [H | []]]]; try congruence.
  revert H. now apply digits_exclude.
Qed.


Lemma join_cons (sep x : str) (rest : list str) :
  rest <> [] -> join sep (x :: rest) = x ++ sep ++ join sep rest.
Proof. destruct rest; [congruence | reflexivity]. Qed.

Lemma join_record_lines (h sh s1 s2 s3 ch : str) (rest : list str) :
  rest <> [] ->
  join [NL] ((h ++ [NL]) :: (sh ++ [NL]) :: s1 :: s2 :: (s3 ++ [NL])
                         :: (ch ++ [NL]) :: rest)
  = h ++ NL :: NL :: sh ++ NL :: NL :: s1 ++ NL :: s2 ++ NL :: s3
      ++ NL :: NL :: ch ++ NL :: NL :: join [NL] rest.
Proof.
  intros Hr. rewrite !join_cons by (assumption || discriminate).
  rewrite <- !app_assoc. cbn [app]. reflexivity.
Qed.

(** The layout of a generated record: heading, statistics, content
    list, and the fixed tail. *)
Lemma generate_markdown_layout (date topic_name : str) (items : list item) :
  _generate_markdown date topic_name items
  = heading_of date topic_name ++ NL :: NL :: STATS_HEADER ++ NL :: NL
      :: stat_line STAT_TOTAL (len items) ++ NL
      :: stat_line STAT_HOTLIST (len (filter (source_is HOTLIST) items)) ++ NL
      :: stat_line STAT_RSS (len (filter (source_is RSS) items)) ++ NL :: NL
      :: CONTENT_HEADER ++ NL :: NL
      :: match content_list items with
         | [] => RECORD_TAIL
         | listing => join [NL] listing ++ NL :: RECORD_TAIL
         end.
Proof.
  unfold _generate_markdown. cbv zeta.
  set (tail := [[NL] ++ u "---" ++ [NL]; NOTES_MARKER ++ [NL];
                NOTES_PLACEHOLDER ++ [NL; NL]; IMPORTANCE_MARKER ++ [NL];
                IMPORTANCE_HINT ++ [NL]; IMPORTANCE_BOXES ++ [NL]]).
  assert (Ht : join [NL] tail = RECORD_TAIL) by reflexivity.
  assert (Hne : tail <> []) by discriminate.
  cbn [app].
  change (u "- **总条目**: ") with (STAT_TOTAL ++ u ": ").
  change (u "- **热榜来源**: ") with (STAT_HOTLIST ++ u ": ").
  change (u "- **RSS来源**: ") with (STAT_RSS ++ u ": ").
  replace (u "# " ++ topic_name ++ u " - " ++ date ++ [NL])
    with (heading_of date topic_name ++ [NL])
    by (unfold heading_of; now rewrite <- !app_assoc).
  replace ((STAT_TOTAL ++ u ": ") ++ str_of_Z (len items) ++ u " 条")
    with (stat_line STAT_TOTAL (len items))
    by (unfold stat_line; now rewrite <- !app_assoc).
  replace ((STAT_HOTLIST ++ u ": ")
             ++ str_of_Z (len (filter (source_is HOTLIST) items)) ++ u " 条")
    with (stat_line STAT_HOTLIST (len (filter (source_is HOTLIST) items)))
    by (unfold stat_line; now rewrite <- !app_assoc).
  replace ((STAT_RSS ++ u ": ")
             ++ str_of_Z (len (filter (source_is RSS) items)) ++ u " 条" ++ [NL])
    with (stat_line STAT_RSS (len (filter (source_is RSS) items)) ++ [NL])
    by (unfold stat_line; now rewrite <- !app_assoc).
  rewrite app_assoc. fold (content_list items).
  rewrite join_record_lines
    by (destruct (content_list items); [exact Hne | discriminate]).
  destruct (content_list items) as [|l ls] eqn:E.
  - cbn [app]. now rewrite Ht.
  - rewrite join_app by (assumption || discriminate). now rewrite Ht.
Qed.


Lemma scan_one_line (line : str) (st : stats) :
  ~ In NL line -> scan line st = stats_step st line.
Proof. intros H. unfold scan. now rewrite (@split_char_absent _ _ H). Qed.

Lemma scan_newline (b : str) (st : stats) : scan (NL :: b) st = scan b st.
Proof.
  change (NL :: b) with ([] ++ NL :: b). rewrite scan_app.
  now rewrite (@scan_clean [] st eq_refl).
Qed.

Lemma len_nonneg {A} (l : list A) : 0 <= len l.
Proof. unfold len. lia. Qed.

Lemma scan_stat_total (n : Z) (st : stats) :
  0 <= n ->
  scan (stat_line STAT_TOTAL n) st = mkstats n (hotlist st) (rss st).
Proof.
  intros Hn.
  rewrite scan_one_line
    by (apply stat_line_no_newline; [now apply not_in_existsb | assumption]).
  unfold stats_step.
  replace (contains (u "总条目") (stat_line STAT_TOTAL n)) with true.
  - rewrite parse_count_stat_line;
      [reflexivity | now apply not_in_existsb | assumption].
  - symmetry. unfold stat_line.
    change STAT_TOTAL with (u "- **" ++ u "总条目" ++ u "**").
    rewrite <- !app_assoc. apply contains_infix.
Qed.

Lemma scan_stat_hotlist (n : Z) (st : stats) :
  0 <= n ->
  scan (stat_line STAT_HOTLIST n) st = mkstats (total_items st) n (rss st).
Proof.
  intros Hn.
  rewrite scan_one_line
    by (apply stat_line_no_newline; [now apply not_in_existsb | assumption]).
  unfold stats_step.
  replace (contains (u "总条目") (stat_line STAT_HOTLIST n)) with false.
  - replace (contains (u "热榜来源") (stat_line STAT_HOTLIST n)) with true.
    + rewrite parse_count_stat_line;
        [reflexivity | now apply not_in_existsb | assumption].
    + symmetry. unfold stat_line.
      change STAT_HOTLIST with (u "- **" ++ u "热榜来源" ++ u "**").
      rewrite <- !app_assoc. apply contains_infix.
  - symmetry. change (u "总条目") with (24635%N :: u "条目").
    apply contains_first_absent.
    apply stat_line_excludes;
      [now apply not_in_existsb | reflexivity | discriminate..| assumption].
Qed.

Lemma scan_stat_rss (n : Z) (st : stats) :
  0 <= n ->
  scan (stat_line STAT_RSS n) st = mkstats (total_items st) (hotlist st) n.
Proof.
  intros Hn.
  rewrite scan_one_line
    by (apply stat_line_no_newline; [now apply not_in_existsb | assumption]).
  unfold stats_step.
  replace (contains (u "总条目") (stat_line STAT_RSS n)) with false.
  - replace (contains (u "热榜来源") (stat_line STAT_RSS n)) with false.
    + replace (contains (u "RSS来源") (stat_line STAT_RSS n)) with true.
      * rewrite parse_count_stat_line;
          [reflexivity | now apply not_in_existsb | assumption].
      * symmetry. unfold stat_line.
        change STAT_RSS with (u "- **" ++ u "RSS来源" ++ u "**").
        rewrite <- !app_assoc. apply contains_infix.
    + symmetry. change (u "热榜来源") with (28909%N :: u "榜来源").
      apply contains_first_absent.
      apply stat_line_excludes;
        [now apply not_in_existsb | reflexivity | discriminate..| assumption].
  - symmetry. change (u "总条目") with (24635%N :: u "条目").
    apply contains_first_absent.
    apply stat_line_excludes;
      [now apply not_in_existsb | reflexivity | discriminate..| assumption].
Qed.

(** What [_generate_markdown] states, [_extract_stats] reads, as long as
    neither the heading nor the content list mentions one of the three
    labels. *)
Lemma extract_stats_of_generated (date topic_name : str) (items : list item) :
  mentions_label (heading_of date topic_name) = false ->
  mentions_label (join [NL] (content_list items)) = false ->
  _extract_stats (_generate_markdown date topic_name items)
  = mkstats (len items)
            (len (filter (source_is HOTLIST) items))
            (len (filter (source_is RSS) items)).
Proof.
  intros Hh Hl. rewrite generate_markdown_layout.
  change (_extract_stats ?t) with (scan t (mkstats 0 0 0)).
  rewrite scan_app, (scan_clean _ _ Hh), scan_newline.
  rewrite scan_app, (@scan_clean STATS_HEADER _ eq_refl), scan_newline.
  rewrite scan_app, scan_stat_total by apply len_nonneg.
  rewrite scan_app, scan_stat_hotlist by apply len_nonneg.
  rewrite scan_app, scan_stat_rss by apply len_nonneg.
  rewrite scan_newline.
  rewrite scan_app, (@scan_clean CONTENT_HEADER _ eq_refl), scan_newline.
  cbn [total_items hotlist rss].
  destruct (content_list items) as [|l ls].
  - now rewrite (@scan_clean RECORD_TAIL _ eq_refl).
  - now rewrite scan_app, (scan_clean _ _ Hl), (@scan_clean RECORD_TAIL _ eq_refl).
Qed.

End StatsRoundTrip.

Section FreshNotes.

Import TopicStorage HistorySummarizer.
Local Open Scope Z_scope.

Lemma contains_split (x : char) (sub a b : str) :
  ~ In x sub -> sub <> [] ->
  contains sub (a ++ x :: b) = contains sub a || contains sub b.
Proof.
  intros Hx Hne. induction a as [|c a IH].
  - cbn [app contains]. 
    pose proof (@startswith_before x sub [] b Hx Hne) as E.
    cbn [app] in E. rewrite E.
    destruct sub; [congruence | reflexivity].
  - cbn [app]. cbn [contains].
    change (c :: a ++ x :: b) with ((c :: a) ++ x :: b).
    rewrite startswith_before by assumption.
    rewrite IH. now rewrite orb_assoc.
Qed.

Lemma split_scan_skip_all (sep s : str) (k : nat) :
  (length s <= k)%nat -> split_scan sep s k = [[]].
Proof.
  revert k; induction s as [|c s IH]; intros k Hk; cbn [split_scan];
    [reflexivity|].
  destruct k as [|k]; [cbn in Hk; lia|]. apply IH. cbn in Hk. lia.
Qed.

Lemma glue_cons_head (x c : char) (h : str) (t l2 : list str) :
  glue x ((c :: h) :: t) l2
  = match glue x (h :: t) l2 with
    | h' :: t' => (c :: h') :: t'
    | [] => [[c]]
    end.
Proof.
  unfold glue. destruct t as [|h2 t]; reflexivity.
Qed.

Lemma glue_cons_nil (x : char) (l1 l2 : list str) :
  l1 <> [] -> glue x ([] :: l1) l2 = [] :: glue x l1 l2.
Proof.
  unfold glue. destruct l1 as [|h t]; [congruence|]. reflexivity.
Qed.

(** No match of the separator extends across a character it does not
    contain. *)
Lemma split_scan_split (x : char) (sep a b : str) (k : nat) :
  ~ In x sep -> sep <> [] -> (k <= length a)%nat ->
  split_scan sep (a ++ x :: b) k
  = glue x (split_scan sep a k) (split_scan sep b 0).
Proof.
  intros Hx Hne. revert k; induction a as [|c a IH]; intros k Hk.
  - assert (k = 0)%nat by (cbn in Hk; lia). subst k.
    cbn [app split_scan].
    pose proof (@startswith_before x sep [] b Hx Hne) as E.
    cbn [app] in E. rewrite E.
    replace (startswith sep []) with false
      by (destruct sep; [congruence | reflexivity]).
    pose proof (split_scan_nonempty sep b 0) as Hb.
    destruct (split_scan sep b 0) as [|h t]; [congruence|]. reflexivity.
  - cbn [app split_scan]. destruct k as [|k].
    + change (c :: a ++ x :: b) with ((c :: a) ++ x :: b).
      rewrite startswith_before by assumption.
      destruct (startswith sep (c :: a)) eqn:E.
      * apply startswith_length in E. cbn [length] in E.
        rewrite IH by lia.
        symmetry. apply glue_cons_nil. apply split_scan_nonempty.
      * rewrite IH by lia.
        pose proof (split_scan_nonempty sep a 0) as Ha.
        destruct (split_scan sep a 0) as [|h t]; [congruence|].
        now rewrite glue_cons_head.
    + apply IH. cbn in Hk. lia.
Qed.

Lemma split_absent (sep s : str) :
  contains sep s = false -> split sep s = [s].
Proof.
  unfold split. induction s as [|c s IH]; intros H; [reflexivity|].
  cbn [contains] in H. apply orb_false_iff in H. destruct H as [H1 H2].
  cbn [split_scan]. rewrite H1, (IH H2). reflexivity.
Qed.

(** A text with the separator on one line of its own, and nowhere
    else, splits in two around that line. *)
Lemma split_at_line (sep a b : str) :
  ~ In NL sep -> sep <> [] ->
  contains sep a = false -> contains sep b = false ->
  split sep (a ++ NL :: sep ++ NL :: b) = [a ++ [NL]; NL :: b].
Proof.
  intros Hx Hne Ha Hb. unfold split.
  rewrite split_scan_split by (assumption || lia).
  fold (split sep a). rewrite (split_absent _ _ Ha).
  destruct sep as [|c sep]; [congruence|].
  cbn [app split_scan].
  replace (startswith (c :: sep) (c :: sep ++ NL :: b)) with true
    by (symmetry; apply (proj2 (startswith_app (c :: sep) _));
        now exists (NL :: b)).
  cbn [length Nat.sub]. rewrite Nat.sub_0_r.
  rewrite split_scan_split by (assumption || discriminate || lia).
  rewrite split_scan_skip_all by lia.
  fold (split (c :: sep) b). rewrite (split_absent _ _ Hb).
  reflexivity.
Qed.


Lemma contains_after_newline (sub b : str) :
  ~ In NL sub -> sub <> [] -> contains sub (NL :: b) = contains sub b.
Proof.
  intros Hx Hne. change (NL :: b) with ([] ++ NL :: b).
  rewrite contains_split by assumption.
  destruct sub; [congruence | reflexivity].
Qed.

Lemma record_tail_parts :
  RECORD_TAIL = TAIL_RULE ++ NL :: NOTES_MARKER ++ NL :: AFTER_NOTES_LINE.
Proof. reflexivity. Qed.

(** The notes of a record whose marker line is the first mention of
    the marker and is followed by the untouched template. *)
Lemma notes_of_untouched_template (p : str) :
  contains NOTES_MARKER p = false ->
  _extract_human_notes (p ++ NL :: NOTES_MARKER ++ NL :: AFTER_NOTES_LINE) = [].
Proof.
  intros Hp. unfold _extract_human_notes.
  replace (contains NOTES_MARKER
             (p ++ NL :: NOTES_MARKER ++ NL :: AFTER_NOTES_LINE)) with true.
  - cbn [negb].
    rewrite split_at_line;
      [| now apply not_in_existsb | discriminate | assumption | reflexivity].
    cbv beta iota. vm_compute. reflexivity.
  - symmetry.
    change (p ++ NL :: NOTES_MARKER ++ NL :: AFTER_NOTES_LINE)
      with (p ++ [NL] ++ NOTES_MARKER ++ NL :: AFTER_NOTES_LINE).
    rewrite app_assoc. apply contains_infix.
Qed.

Lemma stat_line_no_marker (label : str) (n : Z) :
  existsb (N.eqb 35%N) label = false -> 0 <= n ->
  contains NOTES_MARKER (stat_line label n) = false.
Proof.
  intros Hl Hn. change NOTES_MARKER with (35%N :: tl NOTES_MARKER).
  apply contains_first_absent.
  apply stat_line_excludes;
    [now apply not_in_existsb | reflexivity | discriminate..| assumption].
Qed.

(** A generated record carries no notes for the digest, as long as
    neither the heading nor the content list mentions the marker of the
    notes. *)
Lemma extract_notes_of_generated (date topic_name : str) (items : list item) :
  contains NOTES_MARKER (heading_of date topic_name) = false ->
  contains NOTES_MARKER (join [NL] (content_list items)) = false ->
  _extract_human_notes (_generate_markdown date topic_name items) = [].
Proof.
  intros Hh Hl. rewrite generate_markdown_layout, record_tail_parts.
  assert (Hm : ~ In NL NOTES_MARKER) by now apply not_in_existsb.
  assert (Hne : NOTES_MARKER <> []) by discriminate.
  set (n := len items).
  set (h := len (filter (source_is HOTLIST) items)).
  set (r := len (filter (source_is RSS) items)).
  assert (Hs : forall rest,
             contains NOTES_MARKER rest = false ->
             contains NOTES_MARKER
               (heading_of date topic_name ++ NL :: NL :: STATS_HEADER
                  ++ NL :: NL :: stat_line STAT_TOTAL n
                  ++ NL :: stat_line STAT_HOTLIST h
                  ++ NL :: stat_line STAT_RSS r
                  ++ NL :: NL :: CONTENT_HEADER ++ NL :: NL :: rest) = false).
  { intros rest Hr.
    rewrite contains_split, Hh, contains_after_newline by assumption.
    rewrite contains_split, contains_after_newline by assumption.
    rewrite contains_split, stat_line_no_marker
      by (assumption || reflexivity || apply len_nonneg).
    rewrite contains_split, stat_line_no_marker
      by (assumption || reflexivity || apply len_nonneg).
    rewrite contains_split, stat_line_no_marker, contains_after_newline
      by (assumption || reflexivity || apply len_nonneg).
    rewrite contains_split, contains_after_newline by assumption.
    now rewrite Hr. }
  destruct (content_list items) as [|l ls].
  - match goal with
    | |- _extract_human_notes ?t = _ =>
      replace t with
        ((heading_of date topic_name ++ NL :: NL :: STATS_HEADER
            ++ NL :: NL :: stat_line STAT_TOTAL n
            ++ NL :: stat_line STAT_HOTLIST h
            ++ NL :: stat_line STAT_RSS r
            ++ NL :: NL :: CONTENT_HEADER ++ NL :: NL :: TAIL_RULE)
           ++ NL :: NOTES_MARKER ++ NL :: AFTER_NOTES_LINE)
    end.
    + apply notes_of_untouched_template. now apply Hs.
    + do 8 (rewrite <- ?app_assoc; cbn [app]). reflexivity.
  - match goal with
    | |- _extract_human_notes ?t = _ =>
      replace t with
        ((heading_of date topic_name ++ NL :: NL :: STATS_HEADER
            ++ NL :: NL :: stat_line STAT_TOTAL n
            ++ NL :: stat_line STAT_HOTLIST h
            ++ NL :: stat_line STAT_RSS r
            ++ NL :: NL :: CONTENT_HEADER ++ NL :: NL
            :: (join [NL] (l :: ls) ++ NL :: TAIL_RULE))
           ++ NL :: NOTES_MARKER ++ NL :: AFTER_NOTES_LINE)
    end.
    + apply notes_of_untouched_template. apply Hs.
      rewrite contains_split by assumption. now rewrite Hl.
    + do 8 (rewrite <- ?app_assoc; cbn [app]). reflexivity.
Qed.

End FreshNotes.
(** ** From the archive to the digest *)

Section ArchiveToDigest.

Import TopicStorage HistorySummarizer.
Local Open Scope Z_scope.

(** X22.  What [_generate_markdown] states in the statistics of a
    record, [_extract_stats] reads back: the number of items, of
    hotlist items and of RSS items, as long as neither the heading nor
    the content list mentions one of the three labels. *)
Theorem extract_stats_reads_generated_record
        (date topic_name : str) (items : list item) :
  mentions_label (heading_of date topic_name) = false ->
  mentions_label (join [NL] (content_list items)) = false ->
  _extract_stats (_generate_markdown date topic_name items) = stats_of items.
Proof. apply extract_stats_of_generated. Qed.

(** X23.  A generated record carries no notes for the digest: the
    placeholder of the template is recognised, as long as neither the
    heading nor the content list mentions the marker of the notes. *)
Theorem generated_record_has_no_notes
        (date topic_name : str) (items : list item) :
  contains NOTES_MARKER (heading_of date topic_name) = false ->
  contains NOTES_MARKER (join [NL] (content_list items)) = false ->
  _extract_human_notes (_generate_markdown date topic_name items) = [].
Proof. apply extract_notes_of_generated. Qed.

Lemma generate_markdown_nonempty (date topic_name : str) (items : list item) :
  _generate_markdown date topic_name items <> [].
Proof.
  rewrite generate_markdown_layout. intros E.
  apply app_eq_nil in E. destruct E as [_ E]. discriminate E.
Qed.

(** X24.  A record saved where none was, or with [append] off, enters
    the history of its topic with the statistics of its items and
    without notes, provided it has an item, holds no carriage return,
    and neither its heading nor its content list mentions a label of
    the statistics or the marker of the notes. *)
Theorem saved_record_enters_history
        (st : store) (date topic_id topic_name : str) (items : list item)
        (append : bool) :
  append = false \/ file_at st topic_id date = None ->
  (forall c, lookup topic_id st <> Some (File c)) ->
  items <> [] ->
  ~ In CR (_generate_markdown date topic_name items) ->
  mentions_label (heading_of date topic_name) = false ->
  mentions_label (join [NL] (content_list items)) = false ->
  contains NOTES_MARKER (heading_of date topic_name) = false ->
  contains NOTES_MARKER (join [NL] (content_list items)) = false ->
  exists st',
    save_topic_classification st date topic_id topic_name items append = Some st'
    /\ history_items st' topic_id [date]
       = [mkhist date (stats_of items) []].
Proof.
  intros Hmode Hdir Hne Hcr Hh Hl Hnh Hnl.
  destruct (@save_writes_generated st date topic_id topic_name items append
                                   Hmode Hdir) as (st' & Hs & Hf).
  exists st'. split; [exact Hs|].
  unfold history_items. cbn [flat_map]. rewrite app_nil_r.
  unfold read_topic_file. rewrite Hf. cbn [option_map].
  rewrite (@universal_newlines_fixed _ Hcr).
  pose proof (@generate_markdown_nonempty date topic_name items) as Hg.
  rewrite (@extract_stats_of_generated date topic_name items Hh Hl).
  rewrite (@extract_notes_of_generated date topic_name items Hnh Hnl).
  destruct (_generate_markdown date topic_name items) as [|c content];
    [congruence|].
  replace (total_items (mkstats (len items)
                                (len (filter (source_is HOTLIST) items))
                                (len (filter (source_is RSS) items))) >? 0)
    with true; [reflexivity|].
  symmetry. cbn [total_items]. apply Z.gtb_lt. unfold len.
  destruct items; [congruence | cbn [length]; lia].
Qed.

End ArchiveToDigest.

Lemma extract_stats_reads_generated_record_witness :
  HistorySummarizer._extract_stats
    (TopicStorage._generate_markdown (u "2026-01-19") (u "AI科技")
                                     [demo_item; demo_feed_item])
  = stats_of [demo_item; demo_feed_item].
Proof.
  apply extract_stats_reads_generated_record.
  - vm_compute. reflexivity.
  - vm_compute. reflexivity.
Defined.

Lemma generated_record_has_no_notes_witness :
  HistorySummarizer._extract_human_notes
    (TopicStorage._generate_markdown (u "2026-01-19") (u "AI科技")
                                     [demo_item; demo_feed_item])
  = [].
Proof.
  apply generated_record_has_no_notes.
  - vm_compute. reflexivity.
  - vm_compute. reflexivity.
Defined.

Lemma saved_record_enters_history_witness :
  exists st',
    TopicStorage.save_topic_classification
      [] (u "2026-01-19") (u "ai-tech") (u "AI科技") [demo_item] true = Some st'
    /\ HistorySummarizer.history_items st' (u "ai-tech") [u "2026-01-19"]
       = [HistorySummarizer.mkhist (u "2026-01-19") (stats_of [demo_item]) []].
Proof.
  apply saved_record_enters_history.
  - right. reflexivity.
  - intros c H. discriminate H.
  - discriminate.
  - apply not_in_existsb. vm_compute. reflexivity.
  - vm_compute. reflexivity.
  - vm_compute. reflexivity.
  - vm_compute. reflexivity.
  - vm_compute. reflexivity.
Defined.

(** A title that mentions a label is read as the statistics: the
    condition on the content list cannot be dropped. *)
Example extract_stats_reads_a_title :
  HistorySummarizer._extract_stats
    (TopicStorage._generate_markdown
       (u "2026-01-19") (u "AI科技")
       [TopicClassifier.hotlist_item (u "src1") (u "总条目: 99 条")
                                     demo_title_data])
  = HistorySummarizer.mkstats 99 1 0.
Proof. vm_compute. reflexivity. Qed.

(** ** The topic name in the heading, read back *)

Section HeadingName.

Import TopicStorage HistorySummarizer.
Local Open Scope Z_scope.

Lemma startswith_cut (p x y z : str) :
  (length p <= length x + length y)%nat ->
  startswith p (x ++ y ++ z) = startswith p (x ++ y).
Proof.
  revert x y; induction p as [|c p IH]; intros x y Hl; [reflexivity|].
  destruct x as [|a x].
  - cbn [app]. destruct y as [|b y]; [cbn in Hl; lia|].
    cbn [app startswith]. f_equal.
    apply (IH [] y). cbn in *. lia.
  - cbn [app startswith]. f_equal. apply IH. cbn in *. lia.
Qed.

Lemma split_scan_skip_prefix (sep p b : str) :
  split_scan sep (p ++ b) (length p) = split_scan sep b 0.
Proof.
  induction p as [|c p IH]; [reflexivity|].
  cbn [app length split_scan]. exact IH.
Qed.

(** The first piece of a split ends where the separator first
    occurs. *)
Lemma split_first (sep a b : str) :
  sep <> [] -> contains sep (a ++ removelast sep) = false ->
  split sep (a ++ sep ++ b) = a :: split sep b.
Proof.
  intros Hne. unfold split. induction a as [|x a IH]; intros Hc.
  - destruct sep as [|c sep]; [congruence|].
    cbn [app split_scan].
    replace (startswith (c :: sep) (c :: sep ++ b)) with true
      by (symmetry; apply (proj2 (startswith_app (c :: sep) _));
          now exists b).
    cbn [length Nat.sub]. rewrite Nat.sub_0_r.
    now rewrite split_scan_skip_prefix.
  - cbn [app contains] in Hc. apply orb_false_iff in Hc.
    destruct Hc as [Hs Hc].
    cbn [app split_scan].
    assert (E : startswith sep (x :: a ++ sep ++ b) = false).
    { rewrite (@app_removelast_last _ sep 0%N Hne) at 2.
      rewrite <- app_assoc.
      change (x :: a ++ removelast sep ++ [last sep 0%N] ++ b)
        with ((x :: a) ++ removelast sep ++ ([last sep 0%N] ++ b)).
      rewrite startswith_cut; [exact Hs|].
      rewrite (@app_removelast_last _ sep 0%N Hne) at 1.
      rewrite length_app. cbn [length]. lia. }
    rewrite E, (IH Hc). reflexivity.
Qed.

Lemma replace_hash_absent (s : str) :
  ~ In 35%N s -> replace [35%N] [] s = s.
Proof.
  intros H. apply replace_absent; [discriminate|].
  now apply contains_first_absent.
Qed.

Lemma replace_hash_head (s : str) :
  replace [35%N] [] (35%N :: s) = replace [35%N] [] s.
Proof. reflexivity. Qed.

(** What both readers of the heading compute from a generated record:
    the name, when the heading is plain. *)
Lemma heading_name_read_back (date topic_name : str) (items : list item) :
  plain_heading date topic_name = true ->
  let content := _generate_markdown date topic_name items in
  let first_line := hd [] (split [NL] content) in
  contains (u "# ") content = true
  /\ startswith (u "#") content = true
  /\ contains (u " - ") first_line = true
  /\ strip (replace (u "#") [] (hd [] (split (u " - ") first_line)))
     = topic_name.
Proof.
  unfold plain_heading. intros H.
  apply andb_true_iff in H. destruct H as [H H4].
  apply andb_true_iff in H. destruct H as [H H3].
  apply andb_true_iff in H. destruct H as [H1 H2].
  apply negb_true_iff in H1. apply negb_true_iff in H2.
  apply negb_true_iff in H3. apply str_eqb_eq in H4.
  apply not_in_existsb in H1. apply not_in_existsb in H2.
  cbv zeta. rewrite generate_markdown_layout.
  rewrite split_char_app, (@split_char_absent _ _ H1). cbn [app hd].
  unfold heading_of. split; [|split; [|split]].
  - rewrite <- (app_nil_l (u "# " ++ _)).
    rewrite <- !app_assoc. apply contains_infix.
  - reflexivity.
  - rewrite (app_assoc (u "# ")). apply contains_infix.
  - rewrite (app_assoc (u "# ")).
    rewrite split_first; [|discriminate|].
    + cbn [hd]. change (u "#") with [35%N].
      change (u "# " ++ topic_name) with (35%N :: 32%N :: topic_name).
      rewrite replace_hash_head, replace_hash_absent
        by (intros [E | E]; [discriminate | now apply H2]).
      unfold strip. cbn [lstrip]. change (isspace 32%N) with true. cbv iota.
      exact H4.
    + rewrite <- app_assoc. exact H3.
Qed.

(** X25.  [_append_to_existing] recovers the topic name from the
    heading of the record it regenerates: on a generated record whose
    heading is plain, it is the name the record was generated with,
    whatever the directory is called. *)
Theorem recover_topic_name_reads_heading
        (dir_name date topic_name : str) (items : list item) :
  plain_heading date topic_name = true ->
  recover_topic_name dir_name (_generate_markdown date topic_name items)
  = topic_name.
Proof.
  intros H.
  destruct (@heading_name_read_back date topic_name items H)
    as (H1 & _ & H3 & H4).
  unfold recover_topic_name. now rewrite H1, H3.
Qed.

(** X26.  The digest names a topic by the heading of its most recent
    qualifying record: when that record is a generated one with a plain
    heading, [_summarize_topic_history] returns the name it was
    generated with, and one line (two with notes) for every qualifying
    day. *)
Theorem summarize_topic_history_names_topic_by_heading
        (st : store) (topic_id : str) (dates : list str)
        (first : history_item) (rest : list history_item)
        (date topic_name : str) (items : list item) :
  history_items st topic_id dates = first :: rest ->
  read_topic_file st topic_id (h_date first)
  = Some (_generate_markdown date topic_name items) ->
  plain_heading date topic_name = true ->
  _summarize_topic_history st topic_id dates
  = Some (topic_name, join [NL] (flat_map history_lines (first :: rest))).
Proof.
  intros Hh Hr Hp.
  destruct (@heading_name_read_back date topic_name items Hp)
    as (_ & H2 & H3 & H4).
  unfold _summarize_topic_history. rewrite Hh, Hr.
  pose proof (@generate_markdown_nonempty date topic_name items) as Hne.
  destruct (_generate_markdown date topic_name items) as [|c content] eqn:E;
    [congruence|].
  now rewrite H2, H3, H4.
Qed.

End HeadingName.

Lemma recover_topic_name_reads_heading_witness :
  TopicStorage.recover_topic_name
    (u "ai-tech")
    (TopicStorage._generate_markdown (u "2026-01-19") (u "AI科技") [demo_item])
  = u "AI科技".
Proof.
  apply recover_topic_name_reads_heading.
  vm_compute. reflexivity.
Defined.

Lemma summarize_topic_history_names_topic_by_heading_witness :
  HistorySummarizer._summarize_topic_history
    demo_archive (u "ai-tech") demo_week
  = Some (u "AI科技",
          join [NL]
               (flat_map HistorySummarizer.history_lines
                         [HistorySummarizer.mkhist
                            (u "2026-01-19") (stats_of [demo_item]) []])).
Proof.
  apply (@summarize_topic_history_names_topic_by_heading
           demo_archive (u "ai-tech") demo_week
           (HistorySummarizer.mkhist (u "2026-01-19") (stats_of [demo_item]) [])
           [] (u "2026-01-19") (u "AI科技") [demo_item]).
  - vm_compute. reflexivity.
  - vm_compute. reflexivity.
  - vm_compute. reflexivity.
Defined.

(** ** The content list of a record *)

Section ContentList.

Import TopicStorage.
Local Open Scope Z_scope.

Lemma in_enumerate_from {A} (start : Z) (l : list A) (x : A) :
  In x l -> exists i, In (i, x) (enumerate_from start l).
Proof.
  revert start; induction l as [|y l IH]; intros start; [intros []|].
  intros [-> | Hin]; cbn [enumerate_from].
  - exists start. now left.
  - destruct (IH (start + 1) Hin) as [i Hi]. exists i. now right.
Qed.

Lemma in_join (sep p : str) (l : list str) :
  In p l -> exists a b, join sep l = a ++ p ++ b.
Proof.
  induction l as [|q l IH]; [intros []|].
  intros [-> | Hin].
  - destruct l as [|r l].
    + exists [], []. cbn [join app]. now rewrite app_nil_r.
    + exists [], (sep ++ join sep (r :: l)). reflexivity.
  - destruct (IH Hin) as (a & b & E). destruct l as [|r l]; [destruct Hin|].
    exists (q ++ sep ++ a), b.
    change (join sep (q :: r :: l)) with (q ++ sep ++ join sep (r :: l)).
    rewrite E, <- !app_assoc. reflexivity.
Qed.

Lemma title_line_shows (i : Z) (t link : str) :
  contains t (title_line i t link) = true
  /\ (link <> [] ->
      contains (u "[" ++ t ++ u "](" ++ link ++ u ")") (title_line i t link)
      = true).
Proof.
  unfold title_line. destruct link as [|c link].
  - split; [|congruence].
    rewrite (app_assoc (str_of_Z i)). apply contains_infix.
  - split.
    + rewrite (app_assoc (str_of_Z i)). apply contains_infix.
    + intros _.
      change (u ". **[") with (u ". **" ++ u "[").
      change (u ")**") with (u ")" ++ u "**").
      replace (str_of_Z i ++ (u ". **" ++ u "[") ++ t ++ u "](" ++ (c :: link)
                 ++ u ")" ++ u "**")
        with ((str_of_Z i ++ u ". **")
                ++ (u "[" ++ t ++ u "](" ++ (c :: link) ++ u ")") ++ u "**")
        by (rewrite <- !app_assoc; reflexivity).
      apply contains_infix.
Qed.

(** Every item of a listed kind has its title line in the content
    list. *)
Lemma title_line_in_content_list (items : list item) (it : item) :
  In it items ->
  source_is HOTLIST it = true \/ source_is RSS it = true ->
  exists i,
    In (title_line i (title it) (get (url it) [])) (content_list items).
Proof.
  intros Hin Hs. unfold content_list.
  assert (G : forall header entry l,
             (forall i x, In (title_line i (title x) (get (url x) []))
                             (entry i x)) ->
             In it l ->
             exists i, In (title_line i (title it) (get (url it) []))
                          (section header entry l)).
  { intros header entry l He Hl.
    destruct (@in_enumerate_from _ 1 l it Hl) as [i Hi]. exists i.
    unfold section. destruct l as [|y l]; [destruct Hl|].
    right. apply in_flat_map. exists (i, it). split; [exact Hi | apply He]. }
  destruct Hs as [Hs | Hs].
  - destruct (G HOTLIST_HEADER hotlist_entry (filter (source_is HOTLIST) items))
      as [i Hi].
    + intros i x. now left.
    + apply filter_In. now split.
    + exists i. apply in_or_app. now left.
  - destruct (G RSS_HEADER rss_entry (filter (source_is RSS) items))
      as [i Hi].
    + intros i x. now left.
    + apply filter_In. now split.
    + exists i. apply in_or_app. now right.
Qed.

Lemma contains_app_l (x a b : str) :
  contains x a = true -> contains x (a ++ b) = true.
Proof.
  intros H. exact (@contains_inside x [] a b H).
Qed.

Lemma contains_app_r (x a b : str) :
  contains x b = true -> contains x (a ++ b) = true.
Proof.
  intros H. rewrite <- (app_nil_r b). now apply contains_inside.
Qed.

Lemma contains_cons (x : str) (c : char) (b : str) :
  contains x b = true -> contains x (c :: b) = true.
Proof. intros H. now apply (@contains_app_r x [c] b). Qed.

Lemma contains_in_generated (x : str) (date topic_name : str)
      (items : list item) :
  contains x (join [NL] (content_list items)) = true ->
  content_list items <> [] ->
  contains x (_generate_markdown date topic_name items) = true.
Proof.
  intros Hc Hne. rewrite generate_markdown_layout.
  destruct (content_list items) as [|l ls]; [congruence|].
  apply contains_app_r, contains_cons, contains_cons.
  apply contains_app_r, contains_cons, contains_cons.
  apply contains_app_r, contains_cons.
  apply contains_app_r, contains_cons.
  apply contains_app_r, contains_cons, contains_cons.
  apply contains_app_r, contains_cons, contains_cons.
  now apply contains_app_l.
Qed.

(** X27.  A generated record lists every hotlist item and every RSS
    item by its title, and as a Markdown link to its URL when it has
    one. *)
Theorem generated_record_lists_every_item
        (date topic_name : str) (items : list item) (it : item) :
  In it items ->
  source_is HOTLIST it = true \/ source_is RSS it = true ->
  contains (title it) (_generate_markdown date topic_name items) = true
  /\ (forall link,
        url it = Some link -> link <> [] ->
        contains (u "[" ++ title it ++ u "](" ++ link ++ u ")")
                 (_generate_markdown date topic_name items) = true).
Proof.
  intros Hin Hs.
  destruct (@title_line_in_content_list items it Hin Hs) as [i Hi].
  assert (Hne : content_list items <> [])
    by (intros E; rewrite E in Hi; destruct Hi).
  destruct (@in_join [NL] _ _ Hi) as (a & b & E).
  destruct (title_line_shows i (title it) (get (url it) [])) as [H1 H2].
  split.
  - apply contains_in_generated; [|exact Hne].
    rewrite E. now apply contains_inside.
  - intros link Hu Hl. rewrite Hu in E, H2. cbn [get] in E, H2.
    apply contains_in_generated; [|exact Hne].
    rewrite E. apply contains_inside. now apply H2.
Qed.

End ContentList.

Lemma generated_record_lists_every_item_witness :
  contains (title demo_item)
           (TopicStorage._generate_markdown (u "2026-01-19") (u "AI科技")
                                            [demo_item; demo_feed_item]) = true
  /\ (forall link,
        url demo_item = Some link -> link <> [] ->
        contains (u "[" ++ title demo_item ++ u "](" ++ link ++ u ")")
                 (TopicStorage._generate_markdown
                    (u "2026-01-19") (u "AI科技")
                    [demo_item; demo_feed_item]) = true).
Proof.
  apply generated_record_lists_every_item.
  - left. reflexivity.
  - left. vm_compute. reflexivity.
Defined.

